(** * Tempo and key estimators of the BPM/key detector plugin

    A shallow embedding of [BPMDetector.cpp] and [KeyDetector.cpp], and of
    the parts of [PluginProcessor.cpp] and [PluginEditor.cpp] that hold the
    analysis ring buffer, publish the results and display them.

    - C++ [float] is IEEE-754 binary32, modelled bit-exactly with the
      Standard Library's [SpecFloat] at precision 24 and [emax = 128]
      (round to nearest, ties to even); [double] is binary64.
    - [int] and [size_t] quantities are modelled in [Z]; every value that
      occurs is bounded by the buffer length.
    - Undefined behaviour of the C++ source (a float-to-int conversion whose
      value does not fit, a read or write outside an array) is the result
      [None]; defined executions return [Some].
    - The FFT and the libm functions [cos], [log2] and [fmod] come from the
      platform (JUCE and the C library); they are parameters of the model,
      gathered in the record [Platform].  A reference platform, computing in
      binary64 with the kernel's primitive floats, instantiates the
      statements at concrete inputs.
    - A [juce::AudioBuffer] is the list of its channels; the processor and
      the editor are records of their fields, and a member function takes
      the object and returns it (with [option] where the call can be
      undefined). *)

From Stdlib Require Import String ZArith List Bool Lia SpecFloat.
From Stdlib Require PrimFloat FloatOps.
Import ListNotations.
Local Open Scope Z_scope.

(** ** Binary32 arithmetic *)

Definition float : Set := spec_float.

Module F32.

Definition prec : Z := 24.
Definition emax : Z := 128.

Definition add : float -> float -> float := SFadd prec emax.
Definition sub : float -> float -> float := SFsub prec emax.
Definition mul : float -> float -> float := SFmul prec emax.
Definition div : float -> float -> float := SFdiv prec emax.
Definition sqrt : float -> float := SFsqrt prec emax.

(** The C++ comparison [a < b]; false as soon as an operand is a NaN. *)
Definition ltb : float -> float -> bool := SFltb.
Definition leb : float -> float -> bool := SFleb.

Definition zero : float := S754_zero false.

(** Conversion of an integer ([int] or [size_t]) to [float]. *)
Definition of_Z (z : Z) : float := binary_normalize prec emax z 0 false.

(** The decimal literal [n/d] (as in [6.35f = 635/100]): both integers are
    exact in binary32 for every literal of the source, so the correctly
    rounded quotient is the float nearest to the decimal. *)
Definition lit (n d : Z) : float := div (of_Z n) (of_Z d).

(** [static_cast<float>] of a [double]. *)
Definition of_double (x : spec_float) : float :=
  match x with
  | S754_finite s m e => binary_normalize prec emax (cond_Zopp s (Zpos m)) e s
  | _ => x
  end.

(** [static_cast<int>] of a float: truncation toward zero; undefined when
    the truncated value is not an [int] (also for infinities and NaN). *)
Definition int_min : Z := - 2 ^ 31.
Definition int_max : Z := 2 ^ 31 - 1.

Definition truncate (x : float) : option Z :=
  match x with
  | S754_zero _ => Some 0
  | S754_finite s m e =>
      Some (cond_Zopp s (if 0 <=? e then Zpos m * 2 ^ e else Zpos m / 2 ^ (- e)))
  | _ => None
  end.

Definition to_int (x : float) : option Z :=
  match truncate x with
  | Some z => if (int_min <=? z) && (z <=? int_max) then Some z else None
  | None => None
  end.

Definition is_nan (x : float) : bool :=
  match x with S754_nan => true | _ => false end.

Definition is_zero (x : float) : bool :=
  match x with S754_zero _ => true | _ => false end.

Definition finite_or_zero (x : float) : bool :=
  match x with S754_zero _ | S754_finite _ _ _ => true | _ => false end.

End F32.

Declare Scope f32_scope.
Delimit Scope f32_scope with f32.
Infix "+" := F32.add : f32_scope.
Infix "-" := F32.sub : f32_scope.
Infix "*" := F32.mul : f32_scope.
Infix "/" := F32.div : f32_scope.
Infix "<?" := F32.ltb : f32_scope.

(** [juce::jlimit (lower, upper, value)].

    Modelled from the spec: JUCE's header is not part of the repository; the
    spec calls it [clamp].  JUCE defines it as
    [value < lower ? lower : (upper < value ? upper : value)]. *)
Definition jlimit (lowerLimit upperLimit valueToConstrain : float) : float :=
  if (valueToConstrain <? lowerLimit)%f32 then lowerLimit
  else if (upperLimit <? valueToConstrain)%f32 then upperLimit
  else valueToConstrain.

(** ** The platform *)

(** What the model takes from JUCE and the C library.  [fft_perform order frame]
    is [juce::dsp::FFT (order)] applied to a windowed frame of [2 ^ order]
    samples: the complex output array, as (real, imaginary) pairs. *)
Record Platform :=
  { cosf : float -> float;
    log2f : float -> float;
    fmodf : float -> float -> float;
    fft_perform : Z -> list float -> list (float * float) }.

(** [juce::MathConstants<float>::pi], the binary32 value nearest to pi. *)
Definition pi_f : float := S754_finite false 13176795 (-22).

(** ** Helpers shared by the two detectors *)

(** A loop whose body may be undefined. *)
Fixpoint foldM {A B : Type} (f : A -> B -> option A) (l : list B) (a : A)
  : option A :=
  match l with
  | [] => Some a
  | b :: l' => match f a b with
               | Some a' => foldM f l' a'
               | None => None
               end
  end.

(** The [size] samples at [audioData + start]; reading past the end of the
    buffer the caller passed is undefined. *)
Definition read (audioData : list float) (start size : Z) : option (list float) :=
  if (0 <=? start) && (start + size <=? Z.of_nat (length audioData))
  then Some (firstn (Z.to_nat size) (skipn (Z.to_nat start) audioData))
  else None.

(** [a[i] = v] on an array. *)
Fixpoint store (a : list float) (i : nat) (v : float) : list float :=
  match a, i with
  | [], _ => []
  | _ :: a', O => v :: a'
  | x :: a', S i' => x :: store a' i' v
  end.

(** The frame offsets [frame * hopSize], [frame < numFrames], with
    [numFrames = (numSamples - fftSize) / hopSize] in C++ [int] division. *)
Definition frameStarts (numSamples fftSize hopSize : Z) : list Z :=
  map (fun frame => Z.of_nat frame * hopSize)
      (seq 0 (Z.to_nat (Z.quot (numSamples - fftSize) hopSize))).

Section Hann.
Context (P : Platform).

(** [0.5f * (1.0f - std::cos (2.0f * pi * i / (size - 1)))]. *)
Definition hann (size i : Z) : float :=
  (F32.lit 5 10
   * (F32.of_Z 1
      - cosf P ((F32.of_Z 2 * pi_f * F32.of_Z i) / F32.of_Z (size - 1))))%f32.

Definition applyHannWindow (data : list float) (size : Z) : list float :=
  map (fun i => (nth i data F32.zero * hann size (Z.of_nat i))%f32)
      (seq 0 (Z.to_nat size)).

(** [std::sqrt (real * real + imag * imag)]. *)
Definition magnitude (c : float * float) : float :=
  F32.sqrt (fst c * fst c + snd c * snd c)%f32.
End Hann.

(** ** BPMDetector *)

Module BPMDetector.

Definition hopSize : Z := 512.
Definition fftSize : Z := 2048.

(** The detector object: the [double sampleRate] and the [float confidence]
    that [getConfidence] reads. *)
Record t := { sampleRate : spec_float; confidence : float }.

(** The member initialisers [sampleRate = 44100.0], [confidence = 0.5f]. *)
Definition init : t :=
  {| sampleRate := binary_normalize 53 1024 44100 0 false;
     confidence := F32.lit 5 10 |}.

Definition prepare (d : t) (sr : spec_float) : t :=
  {| sampleRate := sr; confidence := confidence d |}.

Definition getConfidence (d : t) : float := confidence d.

Definition setConfidence (d : t) (c : float) : t :=
  {| sampleRate := sampleRate d; confidence := c |}.

(** [autocorrelate (signal, lag)].  The loop bound [signal.size() - lag] is
    computed in [size_t]: for a lag outside [0, size] it wraps and the loop
    reads outside the vector. *)
Definition autocorrelate (signal : list float) (lag : Z) : option float :=
  let size := Z.of_nat (length signal) in
  if (0 <=? lag) && (lag <=? size) then
    let n := Z.to_nat (size - lag) in
    let sum :=
      fold_left
        (fun sum i =>
           (sum + nth i signal F32.zero
                  * nth (i + Z.to_nat lag) signal F32.zero)%f32)
        (seq 0 n) F32.zero in
    let count := Z.of_nat n in
    Some (if 0 <? count then (sum / F32.of_Z count)%f32 else F32.zero)
  else None.

(** The lags [minLag, minLag + 1, ...] below [maxLagRange]. *)
Definition lags (minLag maxLagRange : Z) : list Z :=
  map (fun k => minLag + Z.of_nat k) (seq 0 (Z.to_nat (maxLagRange - minLag))).

(** One iteration of the lag loop on the pair [(maxCorr, bestLag)]. *)
Definition tryLag (onsetStrength : list float) (st : float * Z) (lag : Z)
  : option (float * Z) :=
  match autocorrelate onsetStrength lag with
  | Some corr =>
      Some (if (fst st <? corr)%f32 then (corr, lag) else st)
  | None => None
  end.

Definition framesPerSecond (d : t) : float :=
  (F32.of_double (sampleRate d) / F32.of_Z hopSize)%f32.

(** The lag loop of [estimateTempoFromOnsets], from [(maxCorr, bestLag) =
    (0.0f, 0)], after the two conversions that bound it. *)
Definition lagSearch (d : t) (onsetStrength : list float) : option (float * Z) :=
  let maxLag := Z.of_nat (length onsetStrength) / 2 in
  match F32.to_int (framesPerSecond d * F32.of_Z 60 / F32.of_Z 240)%f32,
        F32.to_int (framesPerSecond d * F32.of_Z 60 / F32.of_Z 40)%f32 with
  | Some minLag, Some maxLagRange =>
      let maxLagRange := Z.min maxLagRange maxLag in
      foldM (tryLag onsetStrength) (lags minLag maxLagRange) (F32.zero, 0)
  | _, _ => None
  end.

(** The conversion of [bestLag] to beats per minute. *)
Definition lagToBPM (d : t) (bestLag : Z) : float :=
  let beatsPerFrame := (F32.of_Z 1 / F32.of_Z bestLag)%f32 in
  let beatsPerSecond := (beatsPerFrame * framesPerSecond d)%f32 in
  (beatsPerSecond * F32.of_Z 60)%f32.

Definition estimateTempoFromOnsets (d : t) (onsetStrength : list float)
  : option float :=
  if Z.of_nat (length onsetStrength) <? 10 then Some F32.zero
  else
    match lagSearch d onsetStrength with
    | Some (_, bestLag) =>
        if bestLag =? 0 then Some F32.zero else Some (lagToBPM d bestLag)
    | None => None
    end.

(** The lag search ends with [bestLag = 0]: no lag was taken. *)
Definition noLagFound (d : t) (onsetStrength : list float) : Prop :=
  exists maxCorr, lagSearch d onsetStrength = Some (maxCorr, 0).

Section WithPlatform.
Context (P : Platform).

(** The spectral flux of a spectrum against the previous one. *)
Definition spectralFlux (spectrum prevSpectrum : list float) : float :=
  fold_left
    (fun flux i =>
       let diff := (nth i spectrum F32.zero - nth i prevSpectrum F32.zero)%f32 in
       if (F32.zero <? diff)%f32 then (flux + diff)%f32 else flux)
    (seq 0 (Z.to_nat (fftSize / 2))) F32.zero.

(** One iteration of the frame loop on [(onsetStrength, prevSpectrum)]. *)
Definition onsetFrame (audioData : list float)
           (st : list float * list float) (startSample : Z)
  : option (list float * list float) :=
  match read audioData startSample fftSize with
  | Some frame =>
      let windowedData := applyHannWindow P frame fftSize in
      let fftData := fft_perform P 11 windowedData in
      let spectrum :=
        map (fun i => magnitude (nth i fftData (F32.zero, F32.zero)))
            (seq 0 (Z.to_nat (fftSize / 2))) in
      Some (fst st ++ [spectralFlux spectrum (snd st)], spectrum)
  | None => None
  end.

Definition calculateOnsetStrength (audioData : list float) (numSamples : Z)
  : option (list float) :=
  match foldM (onsetFrame audioData)
              (frameStarts numSamples fftSize hopSize)
              ([], repeat F32.zero (Z.to_nat (fftSize / 2))) with
  | Some (onsetStrength, _) => Some onsetStrength
  | None => None
  end.

(** The population variance as the source accumulates it. *)
Definition meanOf (onsetStrength : list float) : float :=
  (fold_left (fun meanOnset val => (meanOnset + val)%f32) onsetStrength F32.zero
   / F32.of_Z (Z.of_nat (length onsetStrength)))%f32.

Definition varianceOf (onsetStrength : list float) : float :=
  let meanOnset := meanOf onsetStrength in
  (fold_left
     (fun variance val =>
        (variance + (val - meanOnset) * (val - meanOnset))%f32)
     onsetStrength F32.zero
   / F32.of_Z (Z.of_nat (length onsetStrength)))%f32.

(** [detectBPM]: the returned bpm and the detector after the call. *)
Definition detectBPM (d : t) (audioData : list float) (numSamples : Z)
  : option (float * t) :=
  if numSamples <? fftSize then Some (F32.zero, d)
  else
    match calculateOnsetStrength audioData numSamples with
    | None => None
    | Some [] => Some (F32.zero, d)
    | Some onsetStrength =>
        match estimateTempoFromOnsets d onsetStrength with
        | None => None
        | Some bpm =>
            if (bpm <? F32.of_Z 40)%f32 || (F32.of_Z 240 <? bpm)%f32
            then Some (F32.of_Z 120, setConfidence d (F32.lit 3 10))
            else
              let variance := varianceOf onsetStrength in
              Some (bpm,
                    setConfidence d
                      (jlimit F32.zero (F32.of_Z 1)
                              (variance * F32.of_Z 10)%f32))
        end
    end.
End WithPlatform.

End BPMDetector.
(** ** KeyDetector *)

Module KeyDetector.

Definition hopSize : Z := 512.
Definition fftSize : Z := 4096.

(** The detector object: the [double sampleRate]. *)
Record t := { sampleRate : spec_float }.

Definition init : t := {| sampleRate := binary_normalize 53 1024 44100 0 false |}.

Definition prepare (d : t) (sr : spec_float) : t := {| sampleRate := sr |}.

(** Krumhansl-Schmuckler key profiles. *)
Definition majorProfile : list float :=
  [ F32.lit 635 100; F32.lit 223 100; F32.lit 348 100; F32.lit 233 100;
    F32.lit 438 100; F32.lit 409 100; F32.lit 252 100; F32.lit 519 100;
    F32.lit 239 100; F32.lit 366 100; F32.lit 229 100; F32.lit 288 100 ].

Definition minorProfile : list float :=
  [ F32.lit 633 100; F32.lit 268 100; F32.lit 352 100; F32.lit 538 100;
    F32.lit 260 100; F32.lit 353 100; F32.lit 254 100; F32.lit 475 100;
    F32.lit 398 100; F32.lit 269 100; F32.lit 334 100; F32.lit 317 100 ].

Definition pitchClasses : list string :=
  [ "C"; "C#"; "D"; "D#"; "E"; "F"; "F#"; "G"; "G#"; "A"; "A#"; "B" ]%string.

(** [a[i]] on a [std::array<float, 12>]; every index used is below 12. *)
Definition at_ (a : list float) (i : nat) : float := nth i a F32.zero.

Definition indices : list nat := seq 0 12.

(** The three accumulators of the second loop of [correlation]. *)
Record moments := { m_stdX : float; m_stdY : float; m_covariance : float }.

Definition means (x y : list float) : float * float :=
  let '(sx, sy) :=
    fold_left (fun '(mx, my) i => ((mx + at_ x i)%f32, (my + at_ y i)%f32))
              indices (F32.zero, F32.zero) in
  ((sx / F32.of_Z 12)%f32, (sy / F32.of_Z 12)%f32).

Definition accumulate (x y : list float) (meanX meanY : float) : moments :=
  fold_left
    (fun a i =>
       let dx := (at_ x i - meanX)%f32 in
       let dy := (at_ y i - meanY)%f32 in
       {| m_stdX := (m_stdX a + dx * dx)%f32;
          m_stdY := (m_stdY a + dy * dy)%f32;
          m_covariance := (m_covariance a + dx * dy)%f32 |})
    indices
    {| m_stdX := F32.zero; m_stdY := F32.zero; m_covariance := F32.zero |}.

(** The literal [1e-10f]. *)
Definition tiny : float := F32.lit 1 (10 ^ 10).

Definition correlation (x y : list float) : float :=
  let '(meanX, meanY) := means x y in
  let a := accumulate x y meanX meanY in
  let stdX := F32.sqrt (m_stdX a) in
  let stdY := F32.sqrt (m_stdY a) in
  if (stdX <? tiny)%f32 || (stdY <? tiny)%f32 then F32.zero
  else (m_covariance a / (stdX * stdY))%f32.

(** The running best of [findBestKey]. *)
Record best :=
  { maxCorrelation : float; bestKey : string; bestMode : string }.

Definition rotate (profile : list float) (root : nat) : list float :=
  map (fun i => at_ profile ((i + root) mod 12)%nat) indices.

Definition keyName (root : nat) : string := nth root pitchClasses ""%string.

Definition consider (corr : float) (key mode : string) (b : best) : best :=
  if (maxCorrelation b <? corr)%f32
  then {| maxCorrelation := corr; bestKey := key; bestMode := mode |}
  else b.

Definition tryRoot (pitchClassDistribution : list float) (b : best) (root : nat)
  : best :=
  let rotatedMajor := rotate majorProfile root in
  let rotatedMinor := rotate minorProfile root in
  let majorCorr := correlation pitchClassDistribution rotatedMajor in
  let minorCorr := correlation pitchClassDistribution rotatedMinor in
  consider minorCorr (keyName root) "minor"
    (consider majorCorr (keyName root) "major" b).

Definition initialBest : best :=
  {| maxCorrelation := F32.of_Z (-1); bestKey := "C"; bestMode := "major" |}.

Definition findBestKey (pitchClassDistribution : list float)
  : string * string * float :=
  let b := fold_left (tryRoot pitchClassDistribution) indices initialBest in
  let confidence := ((maxCorrelation b + F32.of_Z 1) / F32.of_Z 2)%f32 in
  let confidence := jlimit F32.zero (F32.of_Z 1) confidence in
  (bestKey b, bestMode b, confidence).

(** The 24 (root, mode) candidates in the order [findBestKey] examines
    them, and the correlation each one is given. *)
Inductive mode := Major | Minor.

Definition modeName (m : mode) : string :=
  match m with Major => "major" | Minor => "minor" end.

Definition profileOf (m : mode) : list float :=
  match m with Major => majorProfile | Minor => minorProfile end.

Definition candidates : list (nat * mode) :=
  flat_map (fun root => [(root, Major); (root, Minor)]) indices.

Definition score (pitchClassDistribution : list float) (c : nat * mode) : float :=
  correlation pitchClassDistribution (rotate (profileOf (snd c)) (fst c)).

(** [findBestKey] examining one candidate. *)
Definition visit (pitchClassDistribution : list float) (b : best)
           (c : nat * mode) : best :=
  consider (score pitchClassDistribution c) (keyName (fst c)) (modeName (snd c)) b.

(** The running best once candidate [c] has been taken. *)
Definition taken (pitchClassDistribution : list float) (c : nat * mode) : best :=
  {| maxCorrelation := score pitchClassDistribution c;
     bestKey := keyName (fst c);
     bestMode := modeName (snd c) |}.

Section WithPlatform.
Context (P : Platform).

Definition frequencyToPitchClass (frequency : float) : float :=
  let midiNote :=
    (F32.of_Z 69 + F32.of_Z 12 * log2f P (frequency / F32.of_Z 440))%f32 in
  fmodf P midiNote (F32.of_Z 12).

(** One iteration of the bin loop on the chromagram. *)
Definition addBin (d : t) (fftData : list (float * float))
           (chromagram : list float) (bin : Z) : option (list float) :=
  let frequency := (F32.of_Z bin * F32.of_double (sampleRate d)
                    / F32.of_Z fftSize)%f32 in
  if (frequency <? F32.lit 275 10)%f32 || (F32.of_Z 4186 <? frequency)%f32
  then Some chromagram
  else
    let magnitude := magnitude (nth (Z.to_nat bin) fftData (F32.zero, F32.zero)) in
    let pitchClass := frequencyToPitchClass frequency in
    match F32.to_int pitchClass with
    | Some n =>
        let pitchClassIndex := Z.rem n 12 in
        if 0 <=? pitchClassIndex then
          let i := Z.to_nat pitchClassIndex in
          Some (store chromagram i (at_ chromagram i + magnitude)%f32)
        else None
    | None => None
    end.

(** One iteration of the frame loop on the chromagram. *)
Definition addFrame (d : t) (audioData : list float)
           (chromagram : list float) (startSample : Z) : option (list float) :=
  match read audioData startSample fftSize with
  | Some frame =>
      let windowed := applyHannWindow P frame fftSize in
      let fftData := fft_perform P 12 windowed in
      foldM (addBin d fftData)
            (map Z.of_nat (seq 1 (Z.to_nat (fftSize / 2) - 1))) chromagram
  | None => None
  end.

Definition calculateChromagram (d : t) (audioData : list float)
           (numSamples : Z) : option (list float) :=
  foldM (addFrame d audioData)
        (frameStarts numSamples fftSize hopSize)
        (repeat F32.zero 12).

(** The normalisation step of [detectKey]. *)
Definition normalize (chromagram : list float) : list float :=
  let sum := fold_left (fun sum val => (sum + val)%f32) chromagram F32.zero in
  if (F32.zero <? sum)%f32
  then map (fun val => (val / sum)%f32) chromagram
  else chromagram.

Definition detectKey (d : t) (audioData : list float) (numSamples : Z)
  : option (string * string * float) :=
  if numSamples <? fftSize then Some ("C"%string, "major"%string, F32.zero)
  else
    match calculateChromagram d audioData numSamples with
    | Some chromagram => Some (findBestKey (normalize chromagram))
    | None => None
    end.
End WithPlatform.

End KeyDetector.



(** ** PluginProcessor *)

Module PluginProcessor.

Definition analysisWindowSeconds : Z := 10.

(** A [juce::AudioBuffer<float>]: the list of its channels, all of the same
    length.  A default-constructed one has no channel and no sample. *)
Definition AudioBuffer : Type := list (list float).

Definition getNumChannels (b : AudioBuffer) : Z := Z.of_nat (length b).
Definition getNumSamples (b : AudioBuffer) : Z := Z.of_nat (length (hd [] b)).

(** [b.clear ()]. *)
Definition clear (b : AudioBuffer) : AudioBuffer :=
  map (map (fun _ => F32.zero)) b.

(** Channel [i] of [b] replaced. *)
Fixpoint setChannel (b : AudioBuffer) (i : nat) (c : list float) : AudioBuffer :=
  match b, i with
  | [], _ => []
  | _ :: b', O => c :: b'
  | x :: b', S i' => x :: setChannel b' i' c
  end.

(** The processor object.  The three atomics and the two strings are the
    published results; [analysisLock] only serialises the accesses and
    [analysisThread] is never assigned. *)
Record t :=
  { bpmDetector : BPMDetector.t;
    keyDetector : KeyDetector.t;
    analysisBuffer : AudioBuffer;
    analysisBufferWritePos : Z;
    analysisBufferSize : Z;
    currentBPM : float;
    bpmConfidence : float;
    keyConfidence : float;
    currentKey : string;
    currentMode : string;
    analyzing : bool;
    currentSampleRate : spec_float }.

Definition init : t :=
  {| bpmDetector := BPMDetector.init;
     keyDetector := KeyDetector.init;
     analysisBuffer := [];
     analysisBufferWritePos := 0;
     analysisBufferSize := 0;
     currentBPM := F32.zero;
     bpmConfidence := F32.zero;
     keyConfidence := F32.zero;
     currentKey := "C";
     currentMode := "major";
     analyzing := false;
     currentSampleRate := binary_normalize 53 1024 44100 0 false |}.

Definition getCurrentBPM (p : t) : float := currentBPM p.
Definition getCurrentKey (p : t) : string := currentKey p.
Definition getCurrentMode (p : t) : string := currentMode p.
Definition getBPMConfidence (p : t) : float := bpmConfidence p.
Definition getKeyConfidence (p : t) : float := keyConfidence p.
Definition isAnalyzing (p : t) : bool := analyzing p.

(** The fields the analysis side writes. *)
Definition setAnalysis (p : t) (buffer : AudioBuffer) (writePos : Z)
           (running : bool) : t :=
  {| bpmDetector := bpmDetector p;
     keyDetector := keyDetector p;
     analysisBuffer := buffer;
     analysisBufferWritePos := writePos;
     analysisBufferSize := analysisBufferSize p;
     currentBPM := currentBPM p;
     bpmConfidence := bpmConfidence p;
     keyConfidence := keyConfidence p;
     currentKey := currentKey p;
     currentMode := currentMode p;
     analyzing := running;
     currentSampleRate := currentSampleRate p |}.

(** [prepareToPlay]: the size is [static_cast<int> (sampleRate * 10)], in
    [double]; [setSize (2, size)] needs a size that is not negative. *)
Definition prepareToPlay (p : t) (sampleRate : spec_float) (samplesPerBlock : Z)
  : option t :=
  match F32.to_int (SFmul 53 1024 sampleRate
                      (binary_normalize 53 1024 analysisWindowSeconds 0 false)) with
  | Some size =>
      if 0 <=? size then
        Some {| bpmDetector := BPMDetector.prepare (bpmDetector p) sampleRate;
                keyDetector := KeyDetector.prepare (keyDetector p) sampleRate;
                analysisBuffer := repeat (repeat F32.zero (Z.to_nat size)) 2;
                analysisBufferWritePos := 0;
                analysisBufferSize := size;
                currentBPM := currentBPM p;
                bpmConfidence := bpmConfidence p;
                keyConfidence := keyConfidence p;
                currentKey := currentKey p;
                currentMode := currentMode p;
                analyzing := analyzing p;
                currentSampleRate := sampleRate |}
      else None
  | None => None
  end.

Definition startAnalysis (p : t) : t :=
  if negb (analyzing p)
  then setAnalysis p (clear (analysisBuffer p)) 0 true
  else p.

Definition stopAnalysis (p : t) : t :=
  setAnalysis p (analysisBuffer p) (analysisBufferWritePos p) false.

Definition releaseResources (p : t) : t := stopAnalysis p.

(** [buffer.clear (i, 0, buffer.getNumSamples ())] on one of the unused
    output channels; the channel has to exist. *)
Definition clearOutput (buffer : AudioBuffer) (i : Z) : option AudioBuffer :=
  if (0 <=? i) && (i <? getNumChannels buffer)
  then Some (setChannel buffer (Z.to_nat i)
               (map (fun _ => F32.zero) (nth (Z.to_nat i) buffer [])))
  else None.

(** [dst[analysisBufferWritePos] = src[i]] and the advance of the write
    position, on [(dst, analysisBufferWritePos)]: the write has to fall
    inside the channel, and [%] needs a size that is not 0. *)
Definition writeSample (size : Z) (st : list float * Z) (v : float)
  : option (list float * Z) :=
  let '(dst, writePos) := st in
  if (0 <=? writePos) && (writePos <? Z.of_nat (length dst)) && negb (size =? 0)
  then Some (store dst (Z.to_nat writePos) v, Z.rem (writePos + 1) size)
  else None.

(** One iteration of the channel loop of [processBlock], on
    [(analysisBuffer, analysisBufferWritePos)]. *)
Definition copyChannel (buffer : AudioBuffer) (size : Z)
           (st : AudioBuffer * Z) (channel : nat) : option (AudioBuffer * Z) :=
  let '(analysis, writePos) := st in
  match foldM (writeSample size) (nth channel buffer [])
              (nth channel analysis [], writePos) with
  | Some (dst, writePos') => Some (setChannel analysis channel dst, writePos')
  | None => None
  end.

(** [processBlock]: the audio buffer the host gets back and the processor
    after the call.  The two channel counts are those of the bus layout. *)
Definition processBlock (p : t) (totalNumInputChannels totalNumOutputChannels : Z)
           (buffer : AudioBuffer) : option (AudioBuffer * t) :=
  match foldM clearOutput
              (map (fun k => totalNumInputChannels + Z.of_nat k)
                   (seq 0 (Z.to_nat (totalNumOutputChannels
                                     - totalNumInputChannels))))
              buffer with
  | Some buffer =>
      if analyzing p then
        let numChannels :=
          Z.min (getNumChannels buffer) (getNumChannels (analysisBuffer p)) in
        match foldM (copyChannel buffer (analysisBufferSize p))
                    (seq 0 (Z.to_nat numChannels))
                    (analysisBuffer p, analysisBufferWritePos p) with
        | Some (analysis, writePos) =>
            Some (buffer, setAnalysis p analysis writePos (analyzing p))
        | None => None
        end
      else Some (buffer, p)
  | None => None
  end.

Definition updateAnalysisResults (p : t) (bpm bpmConf : float)
           (key mode : string) (keyConf : float) : t :=
  {| bpmDetector := bpmDetector p;
     keyDetector := keyDetector p;
     analysisBuffer := analysisBuffer p;
     analysisBufferWritePos := analysisBufferWritePos p;
     analysisBufferSize := analysisBufferSize p;
     currentBPM := bpm;
     bpmConfidence := bpmConf;
     keyConfidence := keyConf;
     currentKey := key;
     currentMode := mode;
     analyzing := analyzing p;
     currentSampleRate := currentSampleRate p |}.

Definition setBPMDetector (p : t) (d : BPMDetector.t) : t :=
  {| bpmDetector := d;
     keyDetector := keyDetector p;
     analysisBuffer := analysisBuffer p;
     analysisBufferWritePos := analysisBufferWritePos p;
     analysisBufferSize := analysisBufferSize p;
     currentBPM := currentBPM p;
     bpmConfidence := bpmConfidence p;
     keyConfidence := keyConfidence p;
     currentKey := currentKey p;
     currentMode := currentMode p;
     analyzing := analyzing p;
     currentSampleRate := currentSampleRate p |}.

(** The mono mix of [performAnalysis]: the channel average, or a copy of
    the only channel. *)
Definition monoSample (analysis : AudioBuffer) (i : nat) : float :=
  (fold_left (fun sum ch => (sum + nth i ch F32.zero)%f32) analysis F32.zero
   / F32.of_Z (getNumChannels analysis))%f32.

Definition monoMix (analysis : AudioBuffer) (size : Z) : list float :=
  if 1 <? getNumChannels analysis
  then map (monoSample analysis) (seq 0 (Z.to_nat size))
  else firstn (Z.to_nat size) (nth 0 analysis []).

Section WithPlatform.
Context (P : Platform).

(** [performAnalysis]; the reads of [analysisBufferSize] samples have to
    stay inside the analysis buffer. *)
Definition performAnalysis (p : t) : option t :=
  if getNumSamples (analysisBuffer p) =? 0 then Some p
  else if (0 <=? analysisBufferSize p)
          && (analysisBufferSize p <=? getNumSamples (analysisBuffer p)) then
    let mono := monoMix (analysisBuffer p) (analysisBufferSize p) in
    match BPMDetector.detectBPM P (bpmDetector p) mono (analysisBufferSize p) with
    | Some (bpm, d) =>
        let bpmConf := BPMDetector.getConfidence d in
        match KeyDetector.detectKey P (keyDetector p) mono (analysisBufferSize p) with
        | Some (key, mode, keyConf) =>
            Some (updateAnalysisResults (setBPMDetector p d)
                                        bpm bpmConf key mode keyConf)
        | None => None
        end
    | None => None
    end
  else None.
End WithPlatform.

(** The calls a host makes on the processor. *)
Inductive call :=
| PrepareToPlay (sampleRate : spec_float) (samplesPerBlock : Z)
| ProcessBlock (totalNumInputChannels totalNumOutputChannels : Z)
               (buffer : AudioBuffer)
| StartAnalysis
| StopAnalysis
| ReleaseResources.

Definition perform (p : t) (c : call) : option t :=
  match c with
  | PrepareToPlay sampleRate samplesPerBlock =>
      prepareToPlay p sampleRate samplesPerBlock
  | ProcessBlock totalIn totalOut buffer =>
      option_map snd (processBlock p totalIn totalOut buffer)
  | StartAnalysis => Some (startAnalysis p)
  | StopAnalysis => Some (stopAnalysis p)
  | ReleaseResources => Some (releaseResources p)
  end.

(** The processor after a sequence of calls, from construction. *)
Definition run (calls : list call) : option t := foldM perform calls init.

End PluginProcessor.

(** ** PluginEditor *)

Module PluginEditor.

(** The texts the editor shows. *)
Record t :=
  { bpmValueLabel : string;
    keyValueLabel : string;
    confidenceLabel : string;
    analyzeButton : string }.

(** The texts the constructor sets. *)
Definition init : t :=
  {| bpmValueLabel := "--";
     keyValueLabel := "--";
     confidenceLabel := "";
     analyzeButton := "Start Analysis" |}.

Definition setButtonText (e : t) (text : string) : t :=
  {| bpmValueLabel := bpmValueLabel e;
     keyValueLabel := keyValueLabel e;
     confidenceLabel := confidenceLabel e;
     analyzeButton := text |}.

(** [analyzeButton.onClick]. *)
Definition onClick (p : PluginProcessor.t) (e : t) : PluginProcessor.t * t :=
  if PluginProcessor.isAnalyzing p
  then (PluginProcessor.stopAnalysis p, setButtonText e "Start Analysis")
  else (PluginProcessor.startAnalysis p, setButtonText e "Stop Analysis").

Definition bpmLevel (bpmConf : float) : string :=
  if F32.leb (F32.lit 7 10) bpmConf then "High"
  else if F32.leb (F32.lit 4 10) bpmConf then "Medium" else "Low".

Definition keyLevel (keyConf : float) : string :=
  if F32.leb (F32.lit 7 10) keyConf then "High"
  else if F32.leb (F32.lit 5 10) keyConf then "Medium" else "Low".

Section Formatting.
(** [juce::String (bpm, 1)]: the number with one decimal place. *)
Variable toString : float -> string.

Definition timerCallback (p : PluginProcessor.t) (e : t) : t :=
  let bpm := PluginProcessor.getCurrentBPM p in
  let key := PluginProcessor.getCurrentKey p in
  let mode := PluginProcessor.getCurrentMode p in
  {| bpmValueLabel := if (F32.zero <? bpm)%f32 then toString bpm else "--";
     keyValueLabel :=
       if negb (String.eqb key "") then key ++ " " ++ mode else "--";
     confidenceLabel :=
       if (F32.zero <? bpm)%f32 then
         "Confidence: BPM " ++ bpmLevel (PluginProcessor.getBPMConfidence p)
         ++ " | Key " ++ keyLevel (PluginProcessor.getKeyConfidence p)
       else "Play audio to analyze";
     analyzeButton :=
       if PluginProcessor.isAnalyzing p
          && String.eqb (analyzeButton e) "Start Analysis"
       then "Stop Analysis"
       else if negb (PluginProcessor.isAnalyzing p)
               && String.eqb (analyzeButton e) "Stop Analysis"
       then "Start Analysis"
       else analyzeButton e |}.
End Formatting.

End PluginEditor.

(** ** Specification-level notions *)

(** Left-to-right float summation from [0.0f]. *)
Definition fsum (l : list float) : float :=
  fold_left F32.add l F32.zero.

(** The population variance in the spec's words: the mean of the squared
    deviations from the mean. *)
Definition populationVariance (envelope : list float) : float :=
  let n := F32.of_Z (Z.of_nat (length envelope)) in
  let mean := (fsum envelope / n)%f32 in
  (fsum (map (fun v => ((v - mean) * (v - mean))%f32) envelope) / n)%f32.

(** The Pearson correlation in the spec's words: the deviations of a
    12-element vector from its mean, the root of their sum of squares (the
    "standard deviation" of the source) and the sum of their products. *)
Definition deviations (x : list float) : list float :=
  let mean := (fsum x / F32.of_Z 12)%f32 in
  map (fun v => (v - mean)%f32) x.

Definition sumProducts (dx dy : list float) : float :=
  fsum (map (fun p => (fst p * snd p)%f32) (combine dx dy)).

Definition stdDev (x : list float) : float :=
  F32.sqrt (sumProducts (deviations x) (deviations x)).

Definition covarianceOf (x y : list float) : float :=
  sumProducts (deviations x) (deviations y).

(** A chromagram with all its energy in pitch class [k]. *)
Definition onehot (k : nat) : list float :=
  map (fun i => if Nat.eqb i k then F32.of_Z 1 else F32.zero) (seq 0 12).

(** Invocation histories of a [BPMDetector] object, from construction. *)
Inductive call :=
| Prepare (sr : spec_float)
| DetectBPM (audioData : list float) (numSamples : Z).

Definition perform (P : Platform) (d : BPMDetector.t) (c : call)
  : option BPMDetector.t :=
  match c with
  | Prepare sr => Some (BPMDetector.prepare d sr)
  | DetectBPM audioData numSamples =>
      option_map snd (BPMDetector.detectBPM P d audioData numSamples)
  end.

Definition history (P : Platform) (calls : list call) : option BPMDetector.t :=
  foldM (perform P) calls BPMDetector.init.

(** What a caller observes of one [detectBPM] call: the returned bpm and
    the confidence [getConfidence] reads afterwards. *)
Definition observeBPM (P : Platform) (d : BPMDetector.t)
           (audioData : list float) (numSamples : Z) : option (float * float) :=
  option_map (fun r => (fst r, BPMDetector.getConfidence (snd r)))
             (BPMDetector.detectBPM P d audioData numSamples).

(** ** A reference platform

    A radix-2 decimation-in-time FFT and [cos] computed in binary64 (the
    kernel's primitive floats) and rounded to binary32, and exact integer
    versions of [log2] and [fmod].  The theorems below hold for every
    platform; this one instantiates them at concrete inputs. *)

Module RefPlatform.

Definition double : Set := PrimFloat.float.

Declare Scope double_scope.
Delimit Scope double_scope with double.
Infix "+" := PrimFloat.add : double_scope.
Infix "-" := PrimFloat.sub : double_scope.
Infix "*" := PrimFloat.mul : double_scope.
Infix "/" := PrimFloat.div : double_scope.
Infix "<?" := PrimFloat.ltb : double_scope.
Infix "<=?" := PrimFloat.leb : double_scope.

(** Binary32 to binary64 (exact) and back (rounded to nearest). *)
Definition to_double (x : float) : double := FloatOps.SF2Prim x.
Definition of_double (x : double) : float := F32.of_double (FloatOps.Prim2SF x).

(** The binary64 value of an integer below [2 ^ 53]. *)
Definition dZ (z : Z) : double :=
  FloatOps.SF2Prim (binary_normalize 53 1024 z 0 false).

Definition dzero : double := Eval vm_compute in dZ 0.
Definition done : double := Eval vm_compute in dZ 1.
Definition dpi : double :=
  Eval vm_compute in FloatOps.SF2Prim (S754_finite false 7074237752028440 (-51)).
Definition two_pi : double := Eval vm_compute in (dZ 2 * dpi)%double.
Definition half_pi : double := Eval vm_compute in (dpi / dZ 2)%double.
Definition three_half_pi : double := Eval vm_compute in (dpi + half_pi)%double.
Definition two52 : double := Eval vm_compute in dZ (2 ^ 52).

(** [1/2!, 1/4!, ..., 1/14!]. *)
Definition c2 : double := Eval vm_compute in (done / dZ 2)%double.
Definition c4 : double := Eval vm_compute in (done / dZ 24)%double.
Definition c6 : double := Eval vm_compute in (done / dZ 720)%double.
Definition c8 : double := Eval vm_compute in (done / dZ 40320)%double.
Definition c10 : double := Eval vm_compute in (done / dZ 3628800)%double.
Definition c12 : double := Eval vm_compute in (done / dZ 479001600)%double.
Definition c14 : double := Eval vm_compute in (done / dZ 87178291200)%double.

(** The Taylor polynomial of [cos] of degree 14, for [r] in [0, pi/2]. *)
Definition cos_poly (r : double) : double :=
  let r2 := (r * r)%double in
  (done - r2 * (c2 - r2 * (c4 - r2 * (c6 - r2 * (c8 - r2 * (c10 - r2 *
     (c12 - r2 * c14)))))))%double.

(** [cos] on [0, 2 pi] by symmetry. *)
Definition cos_period (r : double) : double :=
  if (r <? half_pi)%double then cos_poly r
  else if (r <? dpi)%double then PrimFloat.opp (cos_poly (dpi - r)%double)
  else if (r <? three_half_pi)%double
       then PrimFloat.opp (cos_poly (r - dpi)%double)
       else cos_poly (two_pi - r)%double.

(** The integer part of a double in [0, 2 ^ 51]. *)
Definition floor (a : double) : double :=
  let k := ((a + two52) - two52)%double in
  if (a <? k)%double then (k - done)%double else k.

Definition cos64 (x : double) : double :=
  let a := PrimFloat.abs x in
  if (a <=? two_pi)%double then cos_period a
  else cos_period (a - floor (a / two_pi) * two_pi)%double.

Definition sin64 (x : double) : double := cos64 (x - half_pi)%double.

Definition cosf (x : float) : float := of_double (cos64 (to_double x)).
Definition sinf (x : float) : float := of_double (sin64 (to_double x)).

(** The sine of [num / den] of a turn. *)
Definition sin_turn (num den : Z) : float :=
  of_double (sin64 (two_pi * dZ num / dZ den)%double).

(** [log2]: the exponent plus 30 fraction bits found by repeated squaring
    of the significand, kept in fixed point with 40 fraction bits. *)
Fixpoint log2_bits (n : nat) (f acc : Z) : Z :=
  match n with
  | O => acc
  | S n' =>
      let f2 := Z.shiftr (f * f) 40 in
      if 2 ^ 41 <=? f2 then log2_bits n' (Z.shiftr f2 1) (2 * acc + 1)
      else log2_bits n' f2 (2 * acc)
  end.

Definition log2f (x : float) : float :=
  match x with
  | S754_finite false m e =>
      let d := Z.log2 (Zpos m) in
      let frac := log2_bits 30 (Z.shiftl (Zpos m) (40 - d)) 0 in
      binary_normalize F32.prec F32.emax ((e + d) * 2 ^ 30 + frac) (-30) false
  | S754_zero _ => S754_infinity true
  | S754_infinity false => x
  | _ => S754_nan
  end.

(** [fmod], exact: the remainder has the sign of [x]. *)
Definition fmodf (x y : float) : float :=
  match x, y with
  | S754_nan, _ | _, S754_nan | S754_infinity _, _ | _, S754_zero _ => S754_nan
  | _, S754_infinity _ => x
  | S754_zero _, _ => x
  | S754_finite sx mx ex, S754_finite _ my ey =>
      let e := Z.min ex ey in
      let r := Z.rem (Zpos mx * 2 ^ (ex - e)) (Zpos my * 2 ^ (ey - e)) in
      binary_normalize F32.prec F32.emax (cond_Zopp sx r) e sx
  end.

Definition cadd (a b : double * double) : double * double :=
  ((fst a + fst b)%double, (snd a + snd b)%double).
Definition csub (a b : double * double) : double * double :=
  ((fst a - fst b)%double, (snd a - snd b)%double).
Definition cmul (a b : double * double) : double * double :=
  ((fst a * fst b - snd a * snd b)%double,
   (fst a * snd b + snd a * fst b)%double).

Fixpoint deinterleave {A : Type} (l : list A) : list A * list A :=
  match l with
  | a :: b :: l' => let (e, o) := deinterleave l' in (a :: e, b :: o)
  | _ => (l, [])
  end.

Fixpoint zipWith {A B C : Type} (f : A -> B -> C) (l : list A) (l' : list B)
  : list C :=
  match l, l' with
  | a :: l, b :: l' => f a b :: zipWith f l l'
  | _, _ => []
  end.

(** [k, k + 1, ...], [n] of them. *)
Fixpoint upto (n : nat) (k : Z) : list Z :=
  match n with
  | O => []
  | S n' => k :: upto n' (k + 1)
  end.

(** The twiddle factors [exp (-2 pi i k / n)], [k < n / 2]. *)
Definition twiddles (n : Z) : list (double * double) :=
  map (fun k =>
         let a := (two_pi * dZ k / dZ n)%double in
         (cos64 a, PrimFloat.opp (sin64 a)))
      (upto (Z.to_nat (n / 2)) 0).

Fixpoint fft (order : nat) (tw : list (double * double))
         (xs : list (double * double)) : list (double * double) :=
  match order with
  | O => xs
  | S o =>
      let (ev, od) := deinterleave xs in
      let tw' := fst (deinterleave tw) in
      let E := fft o tw' ev in
      let O := zipWith cmul tw (fft o tw' od) in
      zipWith cadd E O ++ zipWith csub E O
  end.

Definition fft_perform (order : Z) (frame : list float) : list (float * float) :=
  map (fun c => (of_double (fst c), of_double (snd c)))
      (fft (Z.to_nat order) (twiddles (2 ^ order))
           (map (fun x => (to_double x, dzero)) frame)).

Definition platform : Platform :=
  Build_Platform cosf log2f fmodf fft_perform.

End RefPlatform.

(** ** Exact values of floats *)

(** The exact value of a finite float as a multiple of [2 ^ -149], the
    smallest positive binary32 value; 0 for the others. *)
Definition units (x : float) : Z :=
  match x with
  | S754_finite s m e => cond_Zopp s (Zpos m * 2 ^ (e + 149))
  | _ => 0
  end.

(** The exact sum of the values of a list, in the same unit. *)
Definition totalUnits (l : list float) : Z :=
  fold_right Z.add 0 (map units l).

(** Finite and non-negative: [+0] or a positive float at an exponent of
    the format. *)
Definition good (x : float) : Prop :=
  match x with
  | S754_zero false => True
  | S754_finite false _ e => -149 <= e
  | _ => False
  end.

(** Without a sign bit: [good], [+infinity] or NaN. *)
Definition unsigned (x : float) : Prop :=
  match x with
  | S754_zero s | S754_infinity s => s = false
  | S754_finite s _ e => s = false /\ -149 <= e
  | S754_nan => True
  end.

(** What the accumulation loops keep true of the chromagram. *)
Definition chromagramShape (c : list float) : Prop :=
  length c = 12%nat /\ Forall unsigned c.

(** A shift record stands for the non-negative rational [num / den]: its
    mantissa is the integer part, its round bit tells whether the fraction
    is at least one half, its sticky bit whether the fraction is neither 0
    nor one half. *)
Definition represents (mrs : shr_record) (num den : Z) : Prop :=
  0 < den /\ 0 <= num
  /\ shr_m mrs = num / den
  /\ shr_r mrs = (den <=? 2 * (num mod den))
  /\ shr_s mrs = negb ((num mod den =? 0) || (2 * (num mod den) =? den)).

(** ** Shapes the code keeps *)

(** What [findBestKey] keeps true of its running best. *)
Definition bestShape (b : KeyDetector.best) : Prop :=
  In (KeyDetector.bestKey b) KeyDetector.pitchClasses
  /\ (KeyDetector.bestMode b = "major"%string
      \/ KeyDetector.bestMode b = "minor"%string)
  /\ F32.is_nan (KeyDetector.maxCorrelation b) = false.

(** [+0], a positive finite value or [+infinity]. *)
Definition nonnegative (x : float) : bool :=
  match x with
  | S754_zero false | S754_finite false _ _ | S754_infinity false => true
  | _ => false
  end.

(** What [src] written from [writePos] on leaves in a ring of [size]
    samples: index [k] holds the sample [(k - writePos) mod size] of [src]
    when there is one, and what it held before otherwise. *)
Definition ringWrite (size : Z) (dst : list float) (writePos : Z)
           (src : list float) : list float :=
  map (fun k =>
         let j := (Z.of_nat k - writePos) mod size in
         if j <? Z.of_nat (length src)
         then nth (Z.to_nat j) src F32.zero
         else nth k dst F32.zero)
      (seq 0 (length dst)).

(** What the calls keep true of the ring: every channel holds
    [analysisBufferSize] samples and the write position is inside it (or 0
    in an empty one). *)
Definition ringShape (size : Z) (st : PluginProcessor.AudioBuffer * Z) : Prop :=
  Forall (fun c => Z.of_nat (length c) = size) (fst st)
  /\ 0 <= snd st /\ (snd st < size \/ snd st = 0).


(** ** Test signals *)

(** [n] samples of silence. *)
Definition silence (n : Z) : list float := repeat F32.zero (Z.to_nat n).

(** A click train: a unit impulse every [period] samples. *)
Definition clicks (period n : Z) : list float :=
  firstn (Z.to_nat n)
         (concat (repeat (F32.of_Z 1 :: repeat F32.zero (Z.to_nat (period - 1)))
                         (Z.to_nat (n / period + 1)))).

(** A sine tone of [freq] Hz sampled at [rate] Hz; the phase is reduced
    exactly before the sine is taken. *)
Definition sine (freq rate n : Z) : list float :=
  map (fun i => RefPlatform.sin_turn ((freq * i) mod rate) rate)
      (RefPlatform.upto (Z.to_nat n) 0).

(** The same tone at an amplitude of [2 ^ 70]. *)
Definition loudSine : list float :=
  map (F32.mul (F32.of_Z (2 ^ 70))) (sine 440 44100 4608).

(** A detector prepared at 8 kHz. *)
Definition detector8k : BPMDetector.t :=
  BPMDetector.prepare BPMDetector.init (F32.of_Z 8000).

(** The chromagram [calculateChromagram] accumulates, on the reference
    platform, for 4608 samples of a 440 Hz sine at 44.1 kHz. *)
Definition sineChromagram : list float :=
  [ S754_finite false 9775242 (-24); S754_finite false 10964862 (-25);
    S754_finite false 12737192 (-26); S754_finite false 9319254 (-25);
    S754_finite false 13002497 (-25); S754_finite false 12469940 (-24);
    S754_finite false 16137809 (-23); S754_finite false 9347886 (-20);
    S754_finite false 10533189 (-14); S754_finite false 11806893 (-13);
    S754_finite false 14194505 (-21); S754_finite false 8491130 (-22) ].

(** The onset envelope of ten frames of a click every 2048 samples, on the
    reference platform. *)
Definition clickEnvelope : list float :=
  [ S754_zero false; S754_finite false 16738498 (-15);
    S754_finite false 8407966 (-14); S754_zero false; S754_zero false;
    S754_finite false 16738498 (-15); S754_finite false 8407966 (-14);
    S754_zero false; S754_zero false; S754_finite false 16738498 (-15) ].

(** A processor prepared at 0.5 Hz, which makes a ring of 5 samples, with
    the analysis started. *)
Definition tinyProcessor : PluginProcessor.t :=
  match PluginProcessor.run
          [PluginProcessor.PrepareToPlay (S754_finite false 1 (-1)) 512;
           PluginProcessor.StartAnalysis] with
  | Some p => p
  | None => PluginProcessor.init
  end.

(** * Properties *)

(** ** Binary32 rounding: sign and zero of a rounded result *)

Lemma digits2_pos_size m : digits2_pos m = Pos.size m.
Proof. induction m; simpl; congruence. Qed.

Lemma digits2_bounds m :
  2 ^ (Zpos (digits2_pos m) - 1) <= Zpos m < 2 ^ Zpos (digits2_pos m).
Proof.
  rewrite digits2_pos_size. split.
  - pose proof (Pos.size_le m) as H.
    assert (H' : (2 ^ Pos.size m <= m~0)%positive) by exact H.
    apply Pos2Z.pos_le_pos in H'. rewrite Pos2Z.inj_pow in H'.
    replace (Zpos (Pos.size m)) with (Zpos (Pos.size m) - 1 + 1) in H' by lia.
    rewrite Z.pow_add_r in H' by lia. change (2 ^ 1) with 2 in H'. lia.
  - pose proof (Pos.size_gt m) as H.
    apply Pos2Z.pos_lt_pos in H. now rewrite Pos2Z.inj_pow in H.
Qed.

Lemma shr_1_m mrs : 0 <= shr_m mrs -> shr_m (shr_1 mrs) = shr_m mrs / 2.
Proof.
  destruct mrs as [m r s]. cbn [shr_m]. intros H.
  destruct m as [|[p|p|]|p]; cbn [shr_1 shr_m]; try lia; try reflexivity.
  - apply Z.div_unique with 1; lia.
  - apply Z.div_unique with 0; lia.
Qed.

Lemma iter_shr_1_m p : forall mrs,
  0 <= shr_m mrs -> shr_m (iter_pos shr_1 p mrs) = shr_m mrs / 2 ^ Zpos p.
Proof.
  induction p as [p IH|p IH|]; intros mrs H; simpl iter_pos.
  - assert (H1 : 0 <= shr_m (shr_1 mrs)) by (rewrite shr_1_m by lia; apply Z.div_pos; lia).
    assert (H2 : 0 <= shr_m (iter_pos shr_1 p (shr_1 mrs)))
      by (rewrite IH by lia; apply Z.div_pos; [lia | apply Z.pow_pos_nonneg; lia]).
    rewrite IH, IH, shr_1_m by lia.
    rewrite !Z.div_div by (try apply Z.pow_pos_nonneg; lia).
    f_equal. change 2 with (2 ^ 1) at 1.
    rewrite <- !Z.pow_add_r by lia. f_equal. lia.
  - assert (H2 : 0 <= shr_m (iter_pos shr_1 p mrs))
      by (rewrite IH by lia; apply Z.div_pos; [lia | apply Z.pow_pos_nonneg; lia]).
    rewrite IH, IH by lia.
    rewrite !Z.div_div by (try apply Z.pow_pos_nonneg; lia).
    f_equal. rewrite <- Z.pow_add_r by lia. f_equal. lia.
  - rewrite shr_1_m by lia. reflexivity.
Qed.

Lemma shr_record_of_loc_m m l : shr_m (shr_record_of_loc m l) = m.
Proof. destruct l as [|[]]; reflexivity. Qed.

(** The mantissa after [shr]. *)
Lemma shr_m_shift mrs e n :
  0 <= shr_m mrs ->
  shr_m (fst (shr mrs e n)) = (if 0 <? n then shr_m mrs / 2 ^ n else shr_m mrs)
  /\ snd (shr mrs e n) = (if 0 <? n then e + n else e).
Proof.
  intros H. destruct n as [|p|p]; simpl; auto.
  split; [now apply iter_shr_1_m | reflexivity].
Qed.

Lemma round_nearest_even_ge m l : m <= round_nearest_even m l.
Proof. destruct l as [|[]]; simpl; try lia. destruct (Z.even m); lia. Qed.

Section Round.

Lemma shr_fexp_nonneg m e l :
  0 <= m -> 0 <= shr_m (fst (shr_fexp F32.prec F32.emax m e l)).
Proof.
  intros H. unfold shr_fexp.
  destruct (shr_m_shift (shr_record_of_loc m l) e
              (fexp F32.prec F32.emax (Zdigits2 m + e) - e)) as [E _].
  - rewrite shr_record_of_loc_m. exact H.
  - rewrite E, shr_record_of_loc_m. destruct (0 <? _) eqn:Hn; [|exact H].
    apply Z.ltb_lt in Hn.
    apply Z.div_pos; [exact H | apply Z.pow_pos_nonneg; lia].
Qed.

Lemma shr_fexp_pos m e l :
  0 < m -> emin F32.prec F32.emax <= e ->
  0 < shr_m (fst (shr_fexp F32.prec F32.emax m e l))
  /\ emin F32.prec F32.emax <= snd (shr_fexp F32.prec F32.emax m e l).
Proof.
  intros Hm He. unfold shr_fexp.
  destruct (shr_m_shift (shr_record_of_loc m l) e
              (fexp F32.prec F32.emax (Zdigits2 m + e) - e)) as [E1 E2].
  - rewrite shr_record_of_loc_m. lia.
  - rewrite E1, E2, shr_record_of_loc_m.
    destruct (0 <? _) eqn:Hn; [|split; lia].
    apply Z.ltb_lt in Hn. split; [|lia].
    destruct m as [|p|p]; try lia. cbn [Zdigits2] in *.
    pose proof (digits2_bounds p) as [Hlo Hhi].
    set (d := Zpos (digits2_pos p)) in *.
    assert (Hd : 0 < d) by (unfold d; lia).
    unfold fexp in *.
    assert (Hle : Z.max (d + e - F32.prec) (emin F32.prec F32.emax) - e <= d - 1)
      by (unfold F32.prec in *; lia).
    apply Z.div_str_pos. split; [apply Z.pow_pos_nonneg; lia|].
    eapply Z.le_trans; [|exact Hlo].
    apply Z.pow_le_mono_r; lia.
Qed.

Lemma binary_round_aux_not_nan s m e l :
  0 <= m -> binary_round_aux F32.prec F32.emax s m e l <> S754_nan.
Proof.
  intros H. unfold binary_round_aux.
  destruct (shr_fexp F32.prec F32.emax m e l) as [mrs' e'] eqn:E1.
  destruct (shr_fexp F32.prec F32.emax _ e' loc_Exact) as [mrs'' e''] eqn:E2.
  assert (H1 : 0 <= shr_m mrs').
  { change mrs' with (fst (mrs', e')). rewrite <- E1. now apply shr_fexp_nonneg. }
  assert (H2 : 0 <= shr_m mrs'').
  { change mrs'' with (fst (mrs'', e'')). rewrite <- E2. apply shr_fexp_nonneg.
    pose proof (round_nearest_even_ge (shr_m mrs') (loc_of_shr_record mrs')). lia. }
  destruct (shr_m mrs''); try lia; [discriminate|].
  destruct (_ <=? _); discriminate.
Qed.

Lemma binary_round_aux_not_zero s m e l :
  0 < m -> emin F32.prec F32.emax <= e ->
  F32.is_zero (binary_round_aux F32.prec F32.emax s m e l) = false.
Proof.
  intros Hm He. unfold binary_round_aux.
  destruct (shr_fexp F32.prec F32.emax m e l) as [mrs' e'] eqn:E1.
  destruct (shr_fexp F32.prec F32.emax _ e' loc_Exact) as [mrs'' e''] eqn:E2.
  destruct (shr_fexp_pos m e l Hm He) as [H1 H1']. rewrite E1 in H1, H1'.
  cbn [fst snd] in H1, H1'.
  pose proof (round_nearest_even_ge (shr_m mrs') (loc_of_shr_record mrs')) as Hr.
  destruct (shr_fexp_pos (round_nearest_even (shr_m mrs') (loc_of_shr_record mrs'))
              e' loc_Exact ltac:(lia) H1') as [H2 _].
  rewrite E2 in H2. cbn [fst] in H2.
  destruct (shr_m mrs''); try lia.
  destruct (_ <=? _); reflexivity.
Qed.
End Round.

(** ** Comparisons *)

Lemma SFcompare_antisym x y :
  SFcompare y x = option_map CompOpp (SFcompare x y).
Proof.
  destruct x as [[|]|[|]| |[|] m1 e1], y as [[|]|[|]| |[|] m2 e2];
    try reflexivity; cbn [SFcompare option_map];
    rewrite (Z.compare_antisym e1 e2);
    destruct (e1 ?= e2); cbn [CompOpp]; try reflexivity;
    rewrite (Pos.compare_cont_antisym m1 m2 Eq); cbn [CompOpp];
    try reflexivity.
Qed.

Lemma not_ltb_leb x y :
  F32.is_nan x = false -> F32.is_nan y = false ->
  (x <? y)%f32 = false -> F32.leb y x = true.
Proof.
  unfold F32.ltb, F32.leb, SFltb, SFleb. intros Hx Hy H.
  rewrite (SFcompare_antisym x y).
  destruct (SFcompare x y) as [[| |]|] eqn:E; try reflexivity; try discriminate H.
  destruct x, y; try discriminate Hx; try discriminate Hy; discriminate E.
Qed.

(** ** Operations that cannot produce a NaN *)

Lemma of_Z_not_nan z : F32.is_nan (F32.of_Z z) = false.
Proof.
  unfold F32.of_Z, binary_normalize, binary_round.
  destruct z as [|p|p]; [reflexivity| |];
    destruct (shl_align _ _ _) as [mz ez];
    match goal with
    | |- F32.is_nan ?r = false =>
        assert (Hr : r <> S754_nan)
          by (apply binary_round_aux_not_nan; lia);
        destruct r; congruence || reflexivity
    end.
Qed.

Lemma div_eucl_nonneg a b : 0 <= a -> 0 < b -> 0 <= fst (Z.div_eucl a b).
Proof.
  intros Ha Hb. pose proof (Z.div_pos a b Ha Hb) as H.
  unfold Z.div in H. now destruct (Z.div_eucl a b).
Qed.

Lemma div_finite_not_nan s m e y :
  F32.is_nan y = false -> F32.is_nan (S754_finite s m e / y)%f32 = false.
Proof.
  intros Hy. destruct y as [sy|sy| |sy my ey]; try reflexivity; try discriminate Hy.
  unfold F32.div, SFdiv.
  destruct (SFdiv_core_binary F32.prec F32.emax (Zpos m) e (Zpos my) ey)
    as [[mz ez] lz] eqn:E.
  assert (Hmz : 0 <= mz).
  { unfold SFdiv_core_binary in E.
    match type of E with
    | (let '(q, r) := Z.div_eucl ?a ?b in _) = _ =>
        pose proof (div_eucl_nonneg a b) as Hq;
        destruct (Z.div_eucl a b) as [q r]
    end.
    injection E as <- _ _. cbn [fst] in Hq. apply Hq; [|lia].
    destruct (_ - _) as [|p|p]; try lia.
    apply Z.shiftl_nonneg. lia. }
  pose proof (binary_round_aux_not_nan (xorb s sy) mz ez lz Hmz) as Hr.
  destruct (binary_round_aux _ _ _ _ _ _); congruence || reflexivity.
Qed.

Lemma mul_finite_not_nan x s m e :
  F32.is_nan x = false -> F32.is_nan (x * S754_finite s m e)%f32 = false.
Proof.
  intros Hx. destruct x as [sx|sx| |sx mx ex]; try reflexivity; try discriminate Hx.
  unfold F32.mul, SFmul.
  pose proof (binary_round_aux_not_nan (xorb sx s) (Zpos (mx * m)) (ex + e)
                loc_Exact ltac:(lia)) as Hr.
  destruct (binary_round_aux _ _ _ _ _ _); congruence || reflexivity.
Qed.

Lemma div_finite_or_zero x s m e :
  F32.finite_or_zero (x / S754_finite s m e)%f32 = true -> F32.finite_or_zero x = true.
Proof. destruct x; try reflexivity; intros H; discriminate H. Qed.

Lemma mul_finite_or_zero x s m e :
  F32.finite_or_zero (x * S754_finite s m e)%f32 = true -> F32.finite_or_zero x = true.
Proof. destruct x; try reflexivity; intros H; discriminate H. Qed.

Lemma to_int_finite_or_zero x z : F32.to_int x = Some z -> F32.finite_or_zero x = true.
Proof. destruct x; try reflexivity; intros H; discriminate H. Qed.

Lemma of_Z_1 : F32.of_Z 1 = S754_finite false 8388608 (-23).
Proof. vm_compute. reflexivity. Qed.
Lemma of_Z_40 : F32.of_Z 40 = S754_finite false 10485760 (-18).
Proof. vm_compute. reflexivity. Qed.
Lemma of_Z_60 : F32.of_Z 60 = S754_finite false 15728640 (-18).
Proof. vm_compute. reflexivity. Qed.
Lemma of_Z_240 : F32.of_Z 240 = S754_finite false 15728640 (-16).
Proof. vm_compute. reflexivity. Qed.

(** ** The lag search *)

(** A frame rate of zero searches no lag. *)
Lemma lagSearch_zero_rate d onsetStrength s :
  BPMDetector.framesPerSecond d = S754_zero s ->
  BPMDetector.lagSearch d onsetStrength = Some (F32.zero, 0).
Proof.
  intros H. unfold BPMDetector.lagSearch. rewrite H, of_Z_60, of_Z_240, of_Z_40.
  cbn [F32.mul SFmul F32.div SFdiv F32.to_int F32.truncate].
  change ((F32.int_min <=? 0) && (0 <=? F32.int_max)) with true. cbv iota.
  replace (Z.min 0 (Z.of_nat (length onsetStrength) / 2)) with 0.
  - reflexivity.
  - symmetry. apply Z.min_l. apply Z.div_pos; lia.
Qed.

(** A lag that was taken comes with a finite, non-zero frame rate. *)
Lemma lagSearch_finite_rate d onsetStrength maxCorr bestLag :
  BPMDetector.lagSearch d onsetStrength = Some (maxCorr, bestLag) ->
  bestLag <> 0 ->
  exists s m e, BPMDetector.framesPerSecond d = S754_finite s m e.
Proof.
  intros H Hne.
  destruct (BPMDetector.framesPerSecond d) as [s|s| |s m e] eqn:E.
  - rewrite (lagSearch_zero_rate d onsetStrength s E) in H. congruence.
  - exfalso. unfold BPMDetector.lagSearch in H. rewrite E, of_Z_60, of_Z_240 in H.
    cbn [F32.mul SFmul F32.div SFdiv F32.to_int F32.truncate] in H. discriminate H.
  - exfalso. unfold BPMDetector.lagSearch in H. rewrite E in H.
    cbn [F32.mul SFmul F32.div SFdiv F32.to_int F32.truncate] in H. discriminate H.
  - now exists s, m, e.
Qed.

Lemma lagToBPM_not_nan d bestLag s m e :
  BPMDetector.framesPerSecond d = S754_finite s m e ->
  F32.is_nan (BPMDetector.lagToBPM d bestLag) = false.
Proof.
  intros H. unfold BPMDetector.lagToBPM. rewrite H, of_Z_60, of_Z_1.
  apply mul_finite_not_nan, mul_finite_not_nan, div_finite_not_nan, of_Z_not_nan.
Qed.

(** An estimate that passes the range check lies in [40, 240]. *)
Lemma estimate_in_range d onsetStrength bpm :
  BPMDetector.estimateTempoFromOnsets d onsetStrength = Some bpm ->
  (bpm <? F32.of_Z 40)%f32 = false ->
  (F32.of_Z 240 <? bpm)%f32 = false ->
  F32.leb (F32.of_Z 40) bpm = true /\ F32.leb bpm (F32.of_Z 240) = true.
Proof.
  unfold BPMDetector.estimateTempoFromOnsets. intros H Hlo Hhi.
  assert (Hnan : F32.is_nan bpm = false).
  { destruct (_ <? 10).
    - injection H as <-. reflexivity.
    - destruct (BPMDetector.lagSearch d onsetStrength) as [[c bestLag]|] eqn:E;
        [|discriminate H].
      destruct (bestLag =? 0) eqn:E0; injection H as <-; [reflexivity|].
      apply Z.eqb_neq in E0.
      destruct (lagSearch_finite_rate _ _ _ _ E E0) as [s [m [e Hf]]].
      exact (lagToBPM_not_nan d bestLag s m e Hf). }
  split; apply not_ltb_leb; auto; apply of_Z_not_nan.
Qed.

(** ** The correlation guard *)

Lemma tiny_value : KeyDetector.tiny = S754_finite false 14411519 (-57).
Proof. vm_compute. reflexivity. Qed.

Lemma not_below_finite a m0 e0 :
  (a <? S754_finite false m0 e0)%f32 = false ->
  a = S754_nan \/ a = S754_infinity false
  \/ exists m e, a = S754_finite false m e /\ e0 <= e.
Proof.
  unfold F32.ltb, SFltb, SFcompare. intros H.
  destruct a as [[|]|[|]| |[|] m e]; cbn in H.
  all: try discriminate H.
  all: auto.
  right. right. exists m, e. split; [reflexivity|].
  destruct (Z.compare_spec e e0); [lia | discriminate H | lia].
Qed.

Lemma not_below_tiny a :
  (a <? KeyDetector.tiny)%f32 = false ->
  a = S754_nan \/ a = S754_infinity false
  \/ exists m e, a = S754_finite false m e /\ -57 <= e.
Proof.
  intros H. apply (not_below_finite a 14411519 (-57)).
  pose proof tiny_value as E. congruence.
Qed.

Lemma mul_not_below_tiny a b :
  (a <? KeyDetector.tiny)%f32 = false ->
  (b <? KeyDetector.tiny)%f32 = false ->
  F32.is_zero (a * b)%f32 = false.
Proof.
  intros Ha Hb.
  destruct (not_below_tiny a Ha) as [-> | [-> | [ma [ea [-> Hea]]]]];
    destruct (not_below_tiny b Hb) as [-> | [-> | [mb [eb [-> Heb]]]]];
    unfold F32.mul, SFmul; cbv beta iota;
    try match goal with
        | |- F32.is_zero S754_nan = _ => reflexivity
        | |- F32.is_zero (S754_infinity _) = _ => reflexivity
        end.
  apply binary_round_aux_not_zero; [lia|].
  unfold emin, F32.prec, F32.emax. lia.
Qed.

Lemma correlation_pearson x y :
  length x = 12%nat -> length y = 12%nat ->
  KeyDetector.correlation x y
  = if (stdDev x <? KeyDetector.tiny)%f32 || (stdDev y <? KeyDetector.tiny)%f32
    then F32.zero
    else (covarianceOf x y / (stdDev x * stdDev y))%f32.
Proof.
  intros Hx Hy.
  destruct x as [|x0 [|x1 [|x2 [|x3 [|x4 [|x5 [|x6 [|x7 [|x8 [|x9 [|x10 [|x11 [|]]]]]]]]]]]]];
    try discriminate Hx.
  destruct y as [|y0 [|y1 [|y2 [|y3 [|y4 [|y5 [|y6 [|y7 [|y8 [|y9 [|y10 [|y11 [|]]]]]]]]]]]]];
    try discriminate Hy.
  clear Hx Hy.
  cbv [KeyDetector.correlation KeyDetector.means KeyDetector.accumulate
       KeyDetector.indices KeyDetector.at_ KeyDetector.m_stdX KeyDetector.m_stdY
       KeyDetector.m_covariance seq fold_left nth
       stdDev covarianceOf sumProducts deviations fsum map combine fst snd].
  reflexivity.
Qed.

(** ** Frames and the onset envelope *)

Lemma frameStarts_length numSamples fftSize hopSize :
  length (frameStarts numSamples fftSize hopSize)
  = Z.to_nat (Z.quot (numSamples - fftSize) hopSize).
Proof.
  unfold frameStarts. now rewrite length_map, length_seq.
Qed.

Lemma frameStarts_inside numSamples fftSize hopSize s :
  0 < hopSize -> fftSize <= numSamples ->
  In s (frameStarts numSamples fftSize hopSize) ->
  0 <= s /\ s + fftSize <= numSamples.
Proof.
  intros Hh Hn Hin. unfold frameStarts in Hin.
  apply in_map_iff in Hin. destruct Hin as [k [<- Hk]].
  apply in_seq in Hk.
  rewrite Z.quot_div_nonneg in * by lia.
  assert (Hq : hopSize * ((numSamples - fftSize) / hopSize) <= numSamples - fftSize)
    by (apply Z.mul_div_le; lia).
  assert (Hk' : Z.of_nat k + 1 <= (numSamples - fftSize) / hopSize) by lia.
  nia.
Qed.

Lemma read_inside audioData start size :
  0 <= start -> start + size <= Z.of_nat (length audioData) ->
  read audioData start size
  = Some (firstn (Z.to_nat size) (skipn (Z.to_nat start) audioData)).
Proof.
  intros H0 H1. unfold read.
  replace (0 <=? start) with true by (symmetry; apply Z.leb_le; lia).
  replace (start + size <=? Z.of_nat (length audioData)) with true
    by (symmetry; apply Z.leb_le; lia).
  reflexivity.
Qed.

Section OnsetEnvelope.
Context (P : Platform).

Lemma onsetFrame_length audioData st s st1 :
  BPMDetector.onsetFrame P audioData st s = Some st1 ->
  length (fst st1) = S (length (fst st)).
Proof.
  unfold BPMDetector.onsetFrame.
  destruct (read audioData s BPMDetector.fftSize); [|discriminate].
  intros E.
  apply (f_equal (option_map (fun p => length (fst p)))) in E.
  cbn [option_map fst] in E. rewrite length_app in E. cbn [length] in E.
  injection E as <-. lia.
Qed.

Lemma onsetFrames_length audioData starts st st' :
  foldM (BPMDetector.onsetFrame P audioData) starts st = Some st' ->
  length (fst st') = (length (fst st) + length starts)%nat.
Proof.
  revert st. induction starts as [|s starts IH]; intros st H; cbn [foldM] in H.
  - injection H as <-. cbn [length]. lia.
  - destruct (BPMDetector.onsetFrame P audioData st s) as [st1|] eqn:E;
      [|discriminate].
    apply IH in H. rewrite H, (onsetFrame_length _ _ _ _ E). cbn [length]. lia.
Qed.

Lemma onsetFrames_defined audioData starts st :
  (forall s, In s starts ->
             0 <= s /\ s + BPMDetector.fftSize <= Z.of_nat (length audioData)) ->
  exists st', foldM (BPMDetector.onsetFrame P audioData) starts st = Some st'.
Proof.
  revert st. induction starts as [|s starts IH]; intros st H; cbn [foldM].
  - now exists st.
  - unfold BPMDetector.onsetFrame at 1.
    destruct (H s (or_introl eq_refl)) as [H0 H1].
    rewrite (read_inside _ _ _ H0 H1).
    apply IH. intros s' Hs'. apply H. now right.
Qed.

(** The envelope has one element per frame. *)
Lemma calculateOnsetStrength_length audioData numSamples onsetStrength :
  BPMDetector.calculateOnsetStrength P audioData numSamples = Some onsetStrength ->
  Z.of_nat (length onsetStrength)
  = Z.max 0 (Z.quot (numSamples - BPMDetector.fftSize) BPMDetector.hopSize).
Proof.
  unfold BPMDetector.calculateOnsetStrength.
  destruct (foldM _ _ _) as [[o p]|] eqn:E; [|discriminate].
  intros [= <-]. apply onsetFrames_length in E. cbn [fst length] in E.
  rewrite E, frameStarts_length. lia.
Qed.

(** With a buffer of at least [numSamples] floats every frame is read
    inside it, and the envelope is produced. *)
Lemma calculateOnsetStrength_defined audioData numSamples :
  BPMDetector.fftSize <= numSamples ->
  numSamples <= Z.of_nat (length audioData) ->
  exists onsetStrength,
    BPMDetector.calculateOnsetStrength P audioData numSamples = Some onsetStrength.
Proof.
  intros Hn Hlen. unfold BPMDetector.calculateOnsetStrength.
  destruct (onsetFrames_defined audioData
              (frameStarts numSamples BPMDetector.fftSize BPMDetector.hopSize)
              ([], repeat F32.zero (Z.to_nat (BPMDetector.fftSize / 2))))
    as [[o p] E].
  - intros s Hs.
    apply frameStarts_inside in Hs; [lia | reflexivity | exact Hn].
  - exists o. now rewrite E.
Qed.
End OnsetEnvelope.

(** ** Low-data paths of [detectBPM] *)

Lemma estimateTempoFromOnsets_few d onsetStrength :
  (length onsetStrength < 10)%nat ->
  BPMDetector.estimateTempoFromOnsets d onsetStrength = Some F32.zero.
Proof.
  intros H. unfold BPMDetector.estimateTempoFromOnsets.
  replace (Z.of_nat (length onsetStrength) <? 10) with true
    by (symmetry; apply Z.ltb_lt; lia).
  reflexivity.
Qed.

Lemma estimateTempoFromOnsets_none d onsetStrength :
  BPMDetector.noLagFound d onsetStrength ->
  BPMDetector.estimateTempoFromOnsets d onsetStrength = Some F32.zero.
Proof.
  intros [maxCorr H]. unfold BPMDetector.estimateTempoFromOnsets.
  destruct (Z.of_nat (length onsetStrength) <? 10); [reflexivity|].
  now rewrite H.
Qed.

Section LowData.
Context (P : Platform).

(** An estimate of [0.0f] is out of range: [detectBPM] answers 120 and
    sets the confidence to [0.3f]. *)
Lemma detectBPM_zero_estimate d audioData numSamples onsetStrength :
  BPMDetector.fftSize <= numSamples ->
  BPMDetector.calculateOnsetStrength P audioData numSamples = Some onsetStrength ->
  onsetStrength <> [] ->
  BPMDetector.estimateTempoFromOnsets d onsetStrength = Some F32.zero ->
  BPMDetector.detectBPM P d audioData numSamples
  = Some (F32.of_Z 120, BPMDetector.setConfidence d (F32.lit 3 10)).
Proof.
  intros Hn Hc Hne He. unfold BPMDetector.detectBPM.
  replace (numSamples <? BPMDetector.fftSize) with false
    by (symmetry; apply Z.ltb_ge; lia).
  rewrite Hc. destruct onsetStrength as [|v l]; [congruence|].
  rewrite He. reflexivity.
Qed.

(** Between one and nine frames: the envelope is too short for the lag
    search, and the call still answers 120 with confidence [0.3f]. *)
Lemma detectBPM_few_frames d audioData numSamples :
  2560 <= numSamples < 7168 ->
  numSamples <= Z.of_nat (length audioData) ->
  BPMDetector.detectBPM P d audioData numSamples
  = Some (F32.of_Z 120, BPMDetector.setConfidence d (F32.lit 3 10)).
Proof.
  intros Hn Hlen.
  destruct (calculateOnsetStrength_defined P audioData numSamples) as [o Ho];
    [unfold BPMDetector.fftSize; lia | exact Hlen |].
  pose proof (calculateOnsetStrength_length P _ _ _ Ho) as Hl.
  unfold BPMDetector.fftSize, BPMDetector.hopSize in Hl.
  rewrite Z.quot_div_nonneg in Hl by lia.
  assert (1 <= (numSamples - 2048) / 512 < 10) as Hq.
  { split.
    - apply Z.div_le_lower_bound; lia.
    - apply Z.div_lt_upper_bound; lia. }
  apply detectBPM_zero_estimate with (onsetStrength := o).
  - unfold BPMDetector.fftSize; lia.
  - exact Ho.
  - intros ->. simpl in Hl. lia.
  - apply estimateTempoFromOnsets_few. lia.
Qed.
End LowData.

(** C1 (amended).  With at least [fftSize] samples and a non-empty onset
    envelope, whenever the envelope has fewer than ten elements or the lag
    search leaves [bestLag = 0], the estimate is [0.0f], which the range
    guard of [detectBPM] takes as out of range: the call answers the
    fallback 120 and sets the confidence to [0.3f]. *)
Theorem detectBPM_low_data_answers_120 (P : Platform) d audioData numSamples
        onsetStrength :
  BPMDetector.fftSize <= numSamples ->
  BPMDetector.calculateOnsetStrength P audioData numSamples = Some onsetStrength ->
  onsetStrength <> [] ->
  (length onsetStrength < 10)%nat \/ BPMDetector.noLagFound d onsetStrength ->
  BPMDetector.detectBPM P d audioData numSamples
  = Some (F32.of_Z 120, BPMDetector.setConfidence d (F32.lit 3 10))
  /\ F32.of_Z 120 <> F32.zero.
Proof.
  intros Hn Hc Hne Hlow. split; [|discriminate].
  apply detectBPM_zero_estimate with (onsetStrength := onsetStrength); auto.
  destruct Hlow as [Hfew | Hnone].
  - now apply estimateTempoFromOnsets_few.
  - now apply estimateTempoFromOnsets_none.
Qed.

(** C5.  A buffer shorter than the FFT size: [detectBPM] returns 0 (and
    leaves the detector as it was), [detectKey] returns ("C", "major", 0). *)
Theorem short_buffer_sentinels (P : Platform) d k audioData numSamples :
  (numSamples < BPMDetector.fftSize ->
   BPMDetector.detectBPM P d audioData numSamples = Some (F32.zero, d))
  /\ (numSamples < KeyDetector.fftSize ->
      KeyDetector.detectKey P k audioData numSamples
      = Some ("C"%string, "major"%string, F32.zero)).
Proof.
  split; intros H.
  - unfold BPMDetector.detectBPM.
    now replace (numSamples <? BPMDetector.fftSize) with true
      by (symmetry; apply Z.ltb_lt; lia).
  - unfold KeyDetector.detectKey.
    now replace (numSamples <? KeyDetector.fftSize) with true
      by (symmetry; apply Z.ltb_lt; lia).
Qed.

Lemma silence_length n : 0 <= n -> Z.of_nat (length (silence n)) = n.
Proof. intros H. unfold silence. rewrite repeat_length. lia. Qed.

(** One frame of silence on a new detector: the envelope has one element,
    and the call answers 120 with confidence [0.3f], not 0 with the
    confidence left at [0.5f]. *)
Lemma detectBPM_one_frame_not_zero :
  exists onsetStrength,
    BPMDetector.calculateOnsetStrength RefPlatform.platform (silence 2560) 2560
    = Some onsetStrength
    /\ length onsetStrength = 1%nat
    /\ observeBPM RefPlatform.platform BPMDetector.init (silence 2560) 2560
       = Some (F32.of_Z 120, F32.lit 3 10)
    /\ observeBPM RefPlatform.platform BPMDetector.init (silence 2560) 2560
       <> Some (F32.zero, BPMDetector.getConfidence BPMDetector.init).
Proof.
  destruct (calculateOnsetStrength_defined RefPlatform.platform (silence 2560) 2560)
    as [o Ho]; [unfold BPMDetector.fftSize; lia | rewrite silence_length; lia|].
  exists o. split; [exact Ho|].
  pose proof (calculateOnsetStrength_length _ _ _ _ Ho) as Hl.
  change (Z.max 0 (Z.quot (2560 - BPMDetector.fftSize) BPMDetector.hopSize))
    with 1 in Hl.
  split; [lia|].
  unfold observeBPM.
  rewrite (detectBPM_few_frames RefPlatform.platform BPMDetector.init
             (silence 2560) 2560) by (try rewrite silence_length; lia).
  split; [reflexivity|]. vm_compute. discriminate.
Qed.

Lemma detectBPM_low_data_answers_120_witness :
  BPMDetector.detectBPM RefPlatform.platform BPMDetector.init (silence 2560) 2560
  = Some (F32.of_Z 120, BPMDetector.setConfidence BPMDetector.init (F32.lit 3 10))
  /\ F32.of_Z 120 <> F32.zero.
Proof.
  destruct (calculateOnsetStrength_defined RefPlatform.platform (silence 2560) 2560)
    as [o Ho].
  - unfold BPMDetector.fftSize. lia.
  - rewrite silence_length; lia.
  - pose proof (calculateOnsetStrength_length _ _ _ _ Ho) as Hl.
    change (Z.max 0 (Z.quot (2560 - BPMDetector.fftSize) BPMDetector.hopSize))
      with 1 in Hl.
    apply (detectBPM_low_data_answers_120 RefPlatform.platform BPMDetector.init
             (silence 2560) 2560 o).
    + unfold BPMDetector.fftSize. lia.
    + exact Ho.
    + intros ->. simpl in Hl. lia.
    + left. lia.
Defined.

Lemma short_buffer_sentinels_witness :
  (100 < BPMDetector.fftSize ->
   BPMDetector.detectBPM RefPlatform.platform BPMDetector.init (silence 100) 100
   = Some (F32.zero, BPMDetector.init))
  /\ (100 < KeyDetector.fftSize ->
      KeyDetector.detectKey RefPlatform.platform KeyDetector.init (silence 100) 100
      = Some ("C"%string, "major"%string, F32.zero)).
Proof.
  exact (short_buffer_sentinels RefPlatform.platform BPMDetector.init
           KeyDetector.init (silence 100) 100).
Defined.

(** ** The key search *)

Section KeySearch.
Context (x : list float).

Lemma tryRoot_two_visits b root :
  KeyDetector.tryRoot x b root
  = KeyDetector.visit x
      (KeyDetector.visit x b (root, KeyDetector.Major)) (root, KeyDetector.Minor).
Proof.
  unfold KeyDetector.tryRoot, KeyDetector.visit, KeyDetector.score.
  cbn [fst snd KeyDetector.profileOf KeyDetector.modeName]. reflexivity.
Qed.

Lemma tryRoot_visits roots b :
  fold_left (KeyDetector.tryRoot x) roots b
  = fold_left (KeyDetector.visit x)
      (flat_map (fun root => [(root, KeyDetector.Major); (root, KeyDetector.Minor)])
                roots)
      b.
Proof.
  revert b. induction roots as [|r roots IH]; intros b; [reflexivity|].
  cbn [flat_map fold_left app]. rewrite IH, tryRoot_two_visits. reflexivity.
Qed.

(** A candidate that does not beat the running best leaves it alone. *)
Lemma scan_unchanged l b :
  (forall c, In c l ->
             (KeyDetector.maxCorrelation b <? KeyDetector.score x c)%f32 = false) ->
  fold_left (KeyDetector.visit x) l b = b.
Proof.
  induction l as [|c l IH]; intros H; [reflexivity|].
  cbn [fold_left]. unfold KeyDetector.visit at 2, KeyDetector.consider.
  rewrite (H c (or_introl eq_refl)). apply IH. intros c' Hc'. apply H. now right.
Qed.

(** The running best is the initial one or a candidate already seen. *)
Lemma scan_origin l b :
  fold_left (KeyDetector.visit x) l b = b
  \/ exists c, In c l /\ fold_left (KeyDetector.visit x) l b = KeyDetector.taken x c.
Proof.
  revert b. induction l as [|c l IH]; intros b; [now left|].
  cbn [fold_left]. destruct (IH (KeyDetector.visit x b c)) as [E | [c' [Hin E]]].
  - rewrite E. unfold KeyDetector.visit, KeyDetector.consider.
    destruct (_ <? _)%f32.
    + right. exists c. split; [now left | reflexivity].
    + now left.
  - right. exists c'. split; [now right | exact E].
Qed.

Lemma scan_first_maximal l1 c l2 b :
  (KeyDetector.maxCorrelation b <? KeyDetector.score x c)%f32 = true ->
  (forall c', In c' l1 ->
              (KeyDetector.score x c' <? KeyDetector.score x c)%f32 = true) ->
  (forall c', In c' l2 ->
              (KeyDetector.score x c <? KeyDetector.score x c')%f32 = false) ->
  fold_left (KeyDetector.visit x) (l1 ++ c :: l2) b = KeyDetector.taken x c.
Proof.
  intros Hb H1 H2. rewrite fold_left_app. cbn [fold_left].
  assert (Hlt : (KeyDetector.maxCorrelation (fold_left (KeyDetector.visit x) l1 b)
                 <? KeyDetector.score x c)%f32 = true).
  { destruct (scan_origin l1 b) as [-> | [c' [Hin ->]]]; [exact Hb|].
    unfold KeyDetector.taken. cbn [KeyDetector.maxCorrelation]. now apply H1. }
  unfold KeyDetector.visit at 2, KeyDetector.consider. rewrite Hlt.
  apply scan_unchanged. exact H2.
Qed.
End KeySearch.

(** C7.  [findBestKey] examines the 24 candidates root by root, major before
    minor, and replaces the running best (initially C major at -1) only by a
    strictly greater correlation.  Hence a candidate that no candidate
    exceeds, that every earlier candidate is strictly below and that is
    above the initial -1 — the first candidate of maximal correlation —
    is the one returned. *)
Theorem findBestKey_first_maximal (x : list float) (k : nat)
        (c : nat * KeyDetector.mode) :
  nth_error KeyDetector.candidates k = Some c ->
  (F32.of_Z (-1) <? KeyDetector.score x c)%f32 = true ->
  (forall c', In c' (firstn k KeyDetector.candidates) ->
              (KeyDetector.score x c' <? KeyDetector.score x c)%f32 = true) ->
  (forall c', In c' KeyDetector.candidates ->
              (KeyDetector.score x c <? KeyDetector.score x c')%f32 = false) ->
  KeyDetector.findBestKey x
  = (KeyDetector.keyName (fst c), KeyDetector.modeName (snd c),
     jlimit F32.zero (F32.of_Z 1)
            ((KeyDetector.score x c + F32.of_Z 1) / F32.of_Z 2)%f32).
Proof.
  intros Hk Hinit Hbefore Hmax.
  destruct (nth_error_split _ _ Hk) as [l1 [l2 [Hsplit Hlen]]].
  assert (Hfirst : firstn k KeyDetector.candidates = l1).
  { rewrite Hsplit, <- Hlen, firstn_app, Nat.sub_diag, firstn_all.
    cbn [firstn]. apply app_nil_r. }
  unfold KeyDetector.findBestKey. rewrite tryRoot_visits.
  fold KeyDetector.candidates.
  rewrite Hsplit, (scan_first_maximal x l1 c l2 KeyDetector.initialBest).
  - reflexivity.
  - exact Hinit.
  - intros c' Hc'. apply Hbefore. now rewrite Hfirst.
  - intros c' Hc'. apply Hmax. rewrite Hsplit. apply in_or_app. right. now right.
Qed.

Lemma findBestKey_first_maximal_witness :
  KeyDetector.findBestKey (silence 12)
  = (KeyDetector.keyName 0, KeyDetector.modeName KeyDetector.Major,
     jlimit F32.zero (F32.of_Z 1)
            ((KeyDetector.score (silence 12) (0%nat, KeyDetector.Major) + F32.of_Z 1)
             / F32.of_Z 2)%f32).
Proof.
  apply (findBestKey_first_maximal (silence 12) 0 (0%nat, KeyDetector.Major)).
  - reflexivity.
  - vm_compute. reflexivity.
  - intros c' [].
  - assert (H : forallb (fun c' => negb (KeyDetector.score (silence 12)
                                           (0%nat, KeyDetector.Major)
                                         <? KeyDetector.score (silence 12) c')%f32)
                        KeyDetector.candidates = true)
      by (vm_compute; reflexivity).
    intros c' Hc'. rewrite forallb_forall in H. apply H in Hc'.
    now apply negb_true_iff in Hc'.
Defined.

(** C2.  A chromagram whose whole energy sits in pitch class 9 ("A") is not
    given an A-rooted key: [findBestKey] rotates the profiles by
    [(i + root) mod 12], which puts the tonic weight of root 3 on index 9,
    and answers "D#" major. *)
Theorem findBestKey_onehot_A :
  KeyDetector.keyName 9 = "A"%string
  /\ KeyDetector.findBestKey (onehot 9)
     = ("D#"%string, "major"%string, S754_finite false 14130381 (-24)).
Proof.
  split; vm_compute; reflexivity.
Qed.

(** The same on the whole pipeline, with the reference platform: for 4608
    samples of a 440 Hz sine at 44.1 kHz the chromagram is greatest at
    index 9, and [detectKey] answers "D#" minor. *)
Example detectKey_sine_440 :
  KeyDetector.calculateChromagram RefPlatform.platform KeyDetector.init
    (sine 440 44100 4608) 4608 = Some sineChromagram
  /\ forallb (fun i => Nat.eqb i 9
                       || (KeyDetector.at_ sineChromagram i
                           <? KeyDetector.at_ sineChromagram 9)%f32)
             (seq 0 12) = true
  /\ KeyDetector.findBestKey (KeyDetector.normalize sineChromagram)
     = ("D#"%string, "minor"%string, S754_finite false 13310786 (-24)).
Proof.
  split; [|split]; vm_compute; reflexivity.
Qed.

(** C10.  When the accumulated chromagram of a buffer of at least 4096
    samples is all zeros, every one of the 24 correlations is 0 (the guard
    on the standard deviations) and [detectKey] returns ("C", "major", 0.5). *)
Theorem detectKey_zero_chromagram (P : Platform) k audioData numSamples :
  KeyDetector.fftSize <= numSamples ->
  KeyDetector.calculateChromagram P k audioData numSamples
  = Some (repeat F32.zero 12) ->
  Forall (fun c => KeyDetector.score (repeat F32.zero 12) c = F32.zero)
         KeyDetector.candidates
  /\ KeyDetector.detectKey P k audioData numSamples
     = Some ("C"%string, "major"%string, F32.lit 5 10).
Proof.
  intros Hn Hc. split.
  - unfold KeyDetector.candidates, KeyDetector.indices.
    cbv [seq flat_map app].
    repeat (constructor; [vm_compute; reflexivity|]). constructor.
  - unfold KeyDetector.detectKey.
    replace (numSamples <? KeyDetector.fftSize) with false
      by (symmetry; apply Z.ltb_ge; lia).
    rewrite Hc. vm_compute. reflexivity.
Qed.

Lemma detectKey_zero_chromagram_witness :
  Forall (fun c => KeyDetector.score (repeat F32.zero 12) c = F32.zero)
         KeyDetector.candidates
  /\ KeyDetector.detectKey RefPlatform.platform KeyDetector.init (silence 4096) 4096
     = Some ("C"%string, "major"%string, F32.lit 5 10).
Proof.
  apply (detectKey_zero_chromagram RefPlatform.platform KeyDetector.init
           (silence 4096) 4096).
  - unfold KeyDetector.fftSize. lia.
  - vm_compute. reflexivity.
Defined.

(** ** The confidence of [detectBPM] *)

Lemma fold_left_map_acc {A B : Type} (f : B -> B -> B) (g : A -> B) l b :
  fold_left (fun acc a => f acc (g a)) l b = fold_left f (map g l) b.
Proof.
  revert b. induction l as [|a l IH]; intros b; [reflexivity|].
  cbn [fold_left map]. apply IH.
Qed.

(** The two loops of [detectBPM] compute the population variance. *)
Lemma varianceOf_populationVariance onsetStrength :
  BPMDetector.varianceOf onsetStrength = populationVariance onsetStrength.
Proof.
  unfold BPMDetector.varianceOf, BPMDetector.meanOf, populationVariance, fsum.
  cbv zeta. f_equal.
  apply (fold_left_map_acc F32.add
           (fun v => ((v - _) * (v - _))%f32) onsetStrength F32.zero).
Qed.

(** C9.  When the tempo estimate is within [40, 240] (neither below 40 nor
    above 240), [detectBPM] returns it and sets the confidence to
    [jlimit (0, 1, variance * 10)], the variance being the population
    variance of the onset envelope. *)
Theorem detectBPM_confidence (P : Platform) d audioData numSamples onsetStrength bpm :
  BPMDetector.fftSize <= numSamples ->
  BPMDetector.calculateOnsetStrength P audioData numSamples = Some onsetStrength ->
  onsetStrength <> [] ->
  BPMDetector.estimateTempoFromOnsets d onsetStrength = Some bpm ->
  (bpm <? F32.of_Z 40)%f32 = false ->
  (F32.of_Z 240 <? bpm)%f32 = false ->
  exists d',
    BPMDetector.detectBPM P d audioData numSamples = Some (bpm, d')
    /\ BPMDetector.getConfidence d'
       = jlimit F32.zero (F32.of_Z 1)
                (populationVariance onsetStrength * F32.of_Z 10)%f32.
Proof.
  intros Hn Hc Hne He Hlo Hhi. unfold BPMDetector.detectBPM.
  replace (numSamples <? BPMDetector.fftSize) with false
    by (symmetry; apply Z.ltb_ge; lia).
  rewrite Hc. destruct onsetStrength as [|v l]; [congruence|].
  rewrite He, Hlo, Hhi. cbn [orb]. eexists. split; [reflexivity|].
  cbn [BPMDetector.getConfidence BPMDetector.setConfidence BPMDetector.confidence].
  now rewrite varianceOf_populationVariance.
Qed.

Lemma calculateOnsetStrength_clicks :
  BPMDetector.calculateOnsetStrength RefPlatform.platform (clicks 2048 7168) 7168
  = Some clickEnvelope.
Proof. vm_compute. reflexivity. Qed.

Lemma detectBPM_confidence_witness :
  exists d',
    BPMDetector.detectBPM RefPlatform.platform detector8k (clicks 2048 7168) 7168
    = Some (F32.lit 234375 1000, d')
    /\ BPMDetector.getConfidence d'
       = jlimit F32.zero (F32.of_Z 1)
                (populationVariance clickEnvelope * F32.of_Z 10)%f32.
Proof.
  apply (detectBPM_confidence RefPlatform.platform detector8k (clicks 2048 7168)
           7168 clickEnvelope (F32.lit 234375 1000)).
  - unfold BPMDetector.fftSize. lia.
  - exact calculateOnsetStrength_clicks.
  - discriminate.
  - vm_compute. reflexivity.
  - vm_compute. reflexivity.
  - vm_compute. reflexivity.
Defined.

(** C8.  On two 12-element vectors [correlation] is the covariance divided
    by the product of the two standard deviations, except that it is exactly
    0 as soon as one of them is below [1e-10f]; and when the division is
    made its divisor is not zero. *)
Theorem correlation_guarded (x y : list float) :
  length x = 12%nat -> length y = 12%nat ->
  KeyDetector.correlation x y
  = (if (stdDev x <? KeyDetector.tiny)%f32 || (stdDev y <? KeyDetector.tiny)%f32
     then F32.zero
     else (covarianceOf x y / (stdDev x * stdDev y))%f32)
  /\ ((stdDev x <? KeyDetector.tiny)%f32 || (stdDev y <? KeyDetector.tiny)%f32 = false ->
      F32.is_zero (stdDev x * stdDev y)%f32 = false).
Proof.
  intros Hx Hy. split.
  - now apply correlation_pearson.
  - intros H. apply orb_false_iff in H. destruct H as [H1 H2].
    now apply mul_not_below_tiny.
Qed.

Lemma correlation_guarded_witness :
  KeyDetector.correlation (onehot 9) KeyDetector.majorProfile
  = (if (stdDev (onehot 9) <? KeyDetector.tiny)%f32
        || (stdDev KeyDetector.majorProfile <? KeyDetector.tiny)%f32
     then F32.zero
     else (covarianceOf (onehot 9) KeyDetector.majorProfile
           / (stdDev (onehot 9) * stdDev KeyDetector.majorProfile))%f32)
  /\ ((stdDev (onehot 9) <? KeyDetector.tiny)%f32
      || (stdDev KeyDetector.majorProfile <? KeyDetector.tiny)%f32 = false ->
      F32.is_zero (stdDev (onehot 9) * stdDev KeyDetector.majorProfile)%f32 = false).
Proof.
  apply (correlation_guarded (onehot 9) KeyDetector.majorProfile); reflexivity.
Defined.

(** ** The values [detectBPM] returns *)




(** ** Dependence on earlier calls *)

Lemma estimateTempoFromOnsets_rate d1 d2 onsetStrength :
  BPMDetector.sampleRate d1 = BPMDetector.sampleRate d2 ->
  BPMDetector.estimateTempoFromOnsets d1 onsetStrength
  = BPMDetector.estimateTempoFromOnsets d2 onsetStrength.
Proof.
  intros H.
  unfold BPMDetector.estimateTempoFromOnsets, BPMDetector.lagSearch,
    BPMDetector.lagToBPM, BPMDetector.framesPerSecond.
  now rewrite H.
Qed.

(** Two histories that end in the same call at the same sample rate, and
    whose observations differ: a fresh detector, and one that has analysed
    2560 samples before; both are then given an empty buffer. *)
Lemma detectBPM_confidence_depends_on_history :
  exists d1 d2,
    history RefPlatform.platform [] = Some d1
    /\ history RefPlatform.platform [DetectBPM (silence 2560) 2560] = Some d2
    /\ BPMDetector.sampleRate d1 = BPMDetector.sampleRate d2
    /\ observeBPM RefPlatform.platform d1 (silence 0) 0
       <> observeBPM RefPlatform.platform d2 (silence 0) 0.
Proof.
  exists BPMDetector.init, (BPMDetector.setConfidence BPMDetector.init (F32.lit 3 10)).
  split; [reflexivity|]. split.
  - unfold history. cbn [foldM perform].
    rewrite (detectBPM_few_frames RefPlatform.platform BPMDetector.init
               (silence 2560) 2560) by (try rewrite silence_length; lia).
    reflexivity.
  - split; [reflexivity|]. vm_compute. discriminate.
Qed.

(** C4 (amended).  [detectKey] is a function of the buffer and the prepared
    sample rate, and so is the bpm [detectBPM] returns.  The confidence read
    after [detectBPM] is such a function only when the buffer holds at least
    one analysis frame ([fftSize + hopSize] samples); on a shorter buffer
    the call returns 0 and the confidence is the one left by earlier calls. *)
Theorem detect_pure_up_to_stale_confidence (P : Platform)
        (d1 d2 : BPMDetector.t) (k1 k2 : KeyDetector.t) audioData numSamples :
  BPMDetector.sampleRate d1 = BPMDetector.sampleRate d2 ->
  KeyDetector.sampleRate k1 = KeyDetector.sampleRate k2 ->
  KeyDetector.detectKey P k1 audioData numSamples
  = KeyDetector.detectKey P k2 audioData numSamples
  /\ option_map fst (BPMDetector.detectBPM P d1 audioData numSamples)
     = option_map fst (BPMDetector.detectBPM P d2 audioData numSamples)
  /\ (BPMDetector.fftSize + BPMDetector.hopSize <= numSamples ->
      observeBPM P d1 audioData numSamples = observeBPM P d2 audioData numSamples)
  /\ (numSamples < BPMDetector.fftSize + BPMDetector.hopSize ->
      forall r, BPMDetector.detectBPM P d1 audioData numSamples = Some r ->
                r = (F32.zero, d1)).
Proof.
  intros Hd Hk. split; [|split; [|split]].
  - destruct k1 as [r1], k2 as [r2]. cbn in Hk. now subst r2.
  - unfold BPMDetector.detectBPM.
    destruct (numSamples <? BPMDetector.fftSize); [reflexivity|].
    destruct (BPMDetector.calculateOnsetStrength P audioData numSamples)
      as [[|v l]|]; try reflexivity.
    rewrite (estimateTempoFromOnsets_rate d1 d2 _ Hd).
    destruct (BPMDetector.estimateTempoFromOnsets d2 (v :: l)) as [b|];
      [|reflexivity].
    destruct (_ || _); reflexivity.
  - intros Hn. unfold observeBPM, BPMDetector.detectBPM.
    replace (numSamples <? BPMDetector.fftSize) with false
      by (symmetry; apply Z.ltb_ge;
          unfold BPMDetector.fftSize, BPMDetector.hopSize in *; lia).
    destruct (BPMDetector.calculateOnsetStrength P audioData numSamples)
      as [[|v l]|] eqn:Hc; try reflexivity.
    + exfalso. apply calculateOnsetStrength_length in Hc. cbn [length] in Hc.
      unfold BPMDetector.fftSize, BPMDetector.hopSize in *.
      rewrite Z.quot_div_nonneg in Hc by lia.
      assert (1 <= (numSamples - 2048) / 512)
        by (apply Z.div_le_lower_bound; lia).
      lia.
    + rewrite (estimateTempoFromOnsets_rate d1 d2 _ Hd).
      destruct (BPMDetector.estimateTempoFromOnsets d2 (v :: l)) as [b|];
        [|reflexivity].
      destruct (_ || _); reflexivity.
  - intros Hn r Hr. unfold BPMDetector.detectBPM in Hr.
    destruct (numSamples <? BPMDetector.fftSize) eqn:E.
    + now injection Hr as <-.
    + apply Z.ltb_ge in E.
      destruct (BPMDetector.calculateOnsetStrength P audioData numSamples)
        as [o|] eqn:Hc; [|discriminate Hr].
      apply calculateOnsetStrength_length in Hc.
      unfold BPMDetector.fftSize, BPMDetector.hopSize in *.
      rewrite Z.quot_div_nonneg in Hc by lia.
      assert ((numSamples - 2048) / 512 < 1)
        by (apply Z.div_lt_upper_bound; lia).
      destruct o as [|v l]; [|cbn [length] in Hc; lia].
      now injection Hr as <-.
Qed.

Lemma detect_pure_up_to_stale_confidence_witness :
  KeyDetector.detectKey RefPlatform.platform KeyDetector.init (silence 100) 100
  = KeyDetector.detectKey RefPlatform.platform KeyDetector.init (silence 100) 100
  /\ option_map fst (BPMDetector.detectBPM RefPlatform.platform BPMDetector.init
                       (silence 100) 100)
     = option_map fst (BPMDetector.detectBPM RefPlatform.platform
                         (BPMDetector.setConfidence BPMDetector.init (F32.lit 3 10))
                         (silence 100) 100)
  /\ (BPMDetector.fftSize + BPMDetector.hopSize <= 100 ->
      observeBPM RefPlatform.platform BPMDetector.init (silence 100) 100
      = observeBPM RefPlatform.platform
          (BPMDetector.setConfidence BPMDetector.init (F32.lit 3 10))
          (silence 100) 100)
  /\ (100 < BPMDetector.fftSize + BPMDetector.hopSize ->
      forall r, BPMDetector.detectBPM RefPlatform.platform BPMDetector.init
                  (silence 100) 100 = Some r ->
                r = (F32.zero, BPMDetector.init)).
Proof.
  apply (detect_pure_up_to_stale_confidence RefPlatform.platform BPMDetector.init
           (BPMDetector.setConfidence BPMDetector.init (F32.lit 3 10))
           KeyDetector.init KeyDetector.init (silence 100) 100); reflexivity.
Defined.

(** * The normalisation of the chromagram *)

(** ** Binary32 rounding: the error of a rounded result *)

Ltac bdestruct X :=
  let H := fresh in
  destruct X eqn:H;
  [ first [apply Z.leb_le in H | apply Z.eqb_eq in H | apply Z.ltb_lt in H]
  | first [apply Z.leb_gt in H | apply Z.eqb_neq in H | apply Z.ltb_ge in H] ].

Ltac bsolve :=
  repeat match goal with
         | |- context [?x <=? ?y] => bdestruct (x <=? y)
         | |- context [?x =? ?y] => bdestruct (x =? y)
         end;
  cbn [orb negb andb]; try reflexivity; exfalso; lia.

Lemma represents_exact m : 0 <= m -> represents (shr_record_of_loc m loc_Exact) m 1.
Proof.
  intros H. unfold represents. cbn [shr_record_of_loc shr_m shr_r shr_s].
  rewrite Z.div_1_r, Z.mod_1_r. repeat split; try lia; reflexivity.
Qed.

Lemma shr_1_bits mrs :
  0 <= shr_m mrs ->
  shr_r (shr_1 mrs) = Z.odd (shr_m mrs)
  /\ shr_s (shr_1 mrs) = shr_r mrs || shr_s mrs.
Proof.
  destruct mrs as [m r s]. cbn [shr_m shr_r shr_s]. intros H.
  destruct m as [|[p|p|]|p]; try lia; split; reflexivity.
Qed.

Lemma shr_1_represents mrs num den :
  represents mrs num den -> represents (shr_1 mrs) num (2 * den).
Proof.
  intros (Hden & Hnum & Hm & Hr & Hs).
  assert (Hq : num = den * (num / den) + num mod den) by (apply Z.div_mod; lia).
  assert (Ha : 0 <= num mod den < den) by (apply Z.mod_pos_bound; lia).
  assert (Hq0 : 0 <= num / den) by (apply Z.div_pos; lia).
  assert (Hm0 : 0 <= shr_m mrs) by lia.
  destruct (shr_1_bits mrs Hm0) as [Hr1 Hs1].
  pose proof (shr_1_m mrs Hm0) as Hm1.
  rewrite Hm in Hr1, Hm1. rewrite Hr, Hs in Hs1. clear Hm Hr Hs Hm0.
  set (q := num / den) in *. set (a := num mod den) in *.
  assert (Hdiv : num / (2 * den) = q / 2).
  { rewrite (Z.mul_comm 2 den), <- Z.div_div by lia. reflexivity. }
  assert (Hq2 : q = 2 * (q / 2) + q mod 2) by (apply Z.div_mod; lia).
  pose proof (Zmod_odd q) as Hodd.
  assert (Hmod : num mod (2 * den) = (q mod 2) * den + a).
  { symmetry. apply Z.mod_unique with (q / 2); [left|].
    - destruct (Z.odd q); rewrite Hodd; lia.
    - destruct (Z.odd q); rewrite Hodd in *; nia. }
  unfold represents. rewrite Hdiv, Hmod, Hm1, Hr1, Hs1.
  split; [lia|]. split; [lia|]. split; [reflexivity|].
  destruct (Z.odd q); rewrite Hodd; split; bsolve.
Qed.

Lemma pow2_xO p : 2 ^ Zpos p~0 = 2 ^ Zpos p * 2 ^ Zpos p.
Proof. rewrite <- Z.pow_add_r by lia. f_equal. lia. Qed.

Lemma pow2_xI p : 2 ^ Zpos p~1 = 2 * 2 ^ Zpos p * 2 ^ Zpos p.
Proof.
  change 2 with (2 ^ 1) at 2. rewrite <- !Z.pow_add_r by lia. f_equal. lia.
Qed.

Lemma iter_shr_1_represents p : forall mrs num den,
  represents mrs num den ->
  represents (iter_pos shr_1 p mrs) num (den * 2 ^ Zpos p).
Proof.
  induction p as [p IH|p IH|]; intros mrs num den H; cbn [iter_pos].
  - apply shr_1_represents, IH, IH in H.
    replace (den * 2 ^ Zpos p~1) with (2 * den * 2 ^ Zpos p * 2 ^ Zpos p);
      [exact H|].
    rewrite (pow2_xI p). ring.
  - apply IH, IH in H.
    replace (den * 2 ^ Zpos p~0) with (den * 2 ^ Zpos p * 2 ^ Zpos p);
      [exact H|].
    rewrite (pow2_xO p). ring.
  - apply shr_1_represents in H. change (2 ^ 1) with 2.
    now rewrite (Z.mul_comm den 2).
Qed.

(** Rounding to nearest even moves the integer part by at most one half. *)
Lemma round_nearest_even_represents mrs num den :
  represents mrs num den ->
  let m2 := round_nearest_even (shr_m mrs) (loc_of_shr_record mrs) in
  num / den <= m2 <= num / den + 1
  /\ 2 * Z.abs (m2 * den - num) <= den
  /\ (num mod den = 0 -> m2 = num / den).
Proof.
  intros (Hden & Hnum & Hm & Hr & Hs). cbv zeta.
  assert (Hq : num = den * (num / den) + num mod den) by (apply Z.div_mod; lia).
  assert (Ha : 0 <= num mod den < den) by (apply Z.mod_pos_bound; lia).
  destruct mrs as [m r s]. cbn [shr_m shr_r shr_s loc_of_shr_record] in *.
  set (q := num / den) in *. set (a := num mod den) in *. subst m.
  revert Hr Hs.
  bdestruct (den <=? 2 * a); bdestruct (a =? 0); bdestruct (2 * a =? den);
    cbn [orb negb]; intros -> ->; cbn [round_nearest_even];
    try (exfalso; lia); try destruct (Z.even q); repeat split; try nia.
Qed.

Lemma shr_represents mrs e n num den :
  represents mrs num den ->
  represents (fst (shr mrs e n)) num (den * 2 ^ Z.max n 0)
  /\ snd (shr mrs e n) = e + Z.max n 0.
Proof.
  intros H. destruct n as [|p|p]; cbn [shr fst snd].
  - rewrite Z.max_r, Z.mul_1_r, Z.add_0_r by lia. now split.
  - rewrite Z.max_l by lia. split; [now apply iter_shr_1_represents | reflexivity].
  - rewrite Z.max_r, Z.mul_1_r, Z.add_0_r by lia. now split.
Qed.

Lemma Zdigits2_upper m : 0 <= m -> m < 2 ^ Zdigits2 m.
Proof.
  destruct m as [|p|p]; intros H; try lia; [reflexivity|].
  apply digits2_bounds.
Qed.

Lemma Zdigits2_lower m : 0 < m -> 2 ^ (Zdigits2 m - 1) <= m.
Proof.
  destruct m as [|p|p]; intros H; try lia. apply digits2_bounds.
Qed.

Lemma Zdigits2_nonneg m : 0 <= Zdigits2 m.
Proof. destruct m; cbn; lia. Qed.

Lemma Zdigits2_le m k : 0 <= k -> 0 <= m < 2 ^ k -> Zdigits2 m <= k.
Proof.
  intros Hk [H0 H1]. destruct (Z.eq_dec m 0) as [-> | Hne]; [cbn; lia|].
  pose proof (Zdigits2_lower m ltac:(lia)) as Hl.
  pose proof (Zdigits2_nonneg m).
  destruct (Z.le_gt_cases (Zdigits2 m) k) as [|Hgt]; [assumption|].
  assert (2 ^ k <= 2 ^ (Zdigits2 m - 1)) by (apply Z.pow_le_mono_r; lia).
  lia.
Qed.

Lemma Zdigits2_ge m k : 0 <= k -> 2 ^ k <= m -> k + 1 <= Zdigits2 m.
Proof.
  intros Hk H. assert (0 < 2 ^ k) by (apply Z.pow_pos_nonneg; lia).
  pose proof (Zdigits2_upper m ltac:(lia)) as Hu.
  pose proof (Zdigits2_nonneg m).
  destruct (Z.le_gt_cases (k + 1) (Zdigits2 m)) as [|Hlt]; [assumption|].
  assert (2 ^ Zdigits2 m <= 2 ^ k) by (apply Z.pow_le_mono_r; lia).
  lia.
Qed.

Lemma pow2_split a b : 0 <= b <= a -> 2 ^ a = 2 ^ (a - b) * 2 ^ b.
Proof. intros H. rewrite <- Z.pow_add_r by lia. f_equal. lia. Qed.

(** The two shifts and the rounding of [binary_round_aux], on a located
    rational [num / den] (in units of [2 ^ e]): the result is within half a
    unit of its last place, and it is exact, normalised or at the least
    exponent. *)
Lemma binary_round_aux_error s m e l num den :
  represents (shr_record_of_loc m l) num den ->
  l = loc_Exact \/ e <= fexp F32.prec F32.emax (Zdigits2 m + e) ->
  exists m3 e3,
    binary_round_aux F32.prec F32.emax s m e l
    = match m3 with
      | Z0 => S754_zero s
      | Zpos p => if e3 <=? 104 then S754_finite s p e3 else S754_infinity s
      | Zneg _ => S754_nan
      end
    /\ 0 <= m3 /\ e <= e3 /\ -149 <= e3
    /\ 2 * Z.abs (m3 * 2 ^ (e3 - e) * den - num) <= 2 ^ (e3 - e) * den
    /\ (m3 * 2 ^ (e3 - e) * den = num \/ 2 ^ 23 <= m3 \/ e3 = -149).
Proof.
  intros Hrep Hloc.
  assert (Hm : m = num / den /\ 0 < den /\ 0 <= num).
  { destruct Hrep as (? & ? & Hm & _). rewrite shr_record_of_loc_m in Hm. auto. }
  destruct Hm as (Hm & Hden & Hnum).
  assert (Hm0 : 0 <= m) by (subst m; apply Z.div_pos; lia).
  unfold binary_round_aux, shr_fexp.
  set (d := Zdigits2 m).
  set (n := fexp F32.prec F32.emax (d + e) - e).
  destruct (shr_represents (shr_record_of_loc m l) e n num den Hrep) as [Hrep1 He1].
  destruct (shr (shr_record_of_loc m l) e n) as [mrs1 e1].
  cbn [fst snd] in Hrep1, He1.
  pose proof (round_nearest_even_represents mrs1 num _ Hrep1) as Hround.
  cbv zeta in Hround.
  set (m2 := round_nearest_even (shr_m mrs1) (loc_of_shr_record mrs1)) in *.
  set (den1 := den * 2 ^ Z.max n 0) in *.
  destruct Hround as (Hm2 & Herr & Hexact).
  assert (Hpow : 0 < 2 ^ Z.max n 0) by (apply Z.pow_pos_nonneg; lia).
  assert (Hm1 : num / den1 = m / 2 ^ Z.max n 0).
  { unfold den1. rewrite <- Z.div_div by lia. now rewrite Hm. }
  assert (Hd0 : 0 <= d) by apply Zdigits2_nonneg.
  assert (Hmd : m < 2 ^ d) by (apply Zdigits2_upper; exact Hm0).
  unfold fexp, emin, F32.prec, F32.emax in *.
  assert (He1min : -149 <= e1) by lia.
  (* the mantissa fits in 24 bits before rounding *)
  assert (Hfit : num / den1 < 2 ^ 24).
  { rewrite Hm1. destruct (Z.le_gt_cases n 0) as [Hn | Hn].
    - rewrite Z.max_r by lia. rewrite Z.div_1_r.
      assert (d <= 24) by lia.
      assert (2 ^ d <= 2 ^ 24) by (apply Z.pow_le_mono_r; lia). lia.
    - rewrite Z.max_l by lia.
      apply Z.div_lt_upper_bound; [lia|].
      destruct (Z.le_gt_cases d 24) as [Hd | Hd].
      + assert (2 ^ d <= 2 ^ 24) by (apply Z.pow_le_mono_r; lia).
        assert (1 <= 2 ^ n) by lia. nia.
      + assert (Hn' : d - 24 <= n) by lia.
        assert (2 ^ (d - 24) <= 2 ^ n) by (apply Z.pow_le_mono_r; lia).
        rewrite (pow2_split d 24) in Hmd by lia. nia. }
  assert (Hden1 : 0 < den1) by (unfold den1; apply Z.mul_pos_pos; lia).
  assert (Hq1 : 0 <= num / den1) by (apply Z.div_pos; lia).
  assert (Hm2' : 0 <= m2 <= 2 ^ 24) by lia.
  (* the second shift *)
  set (n2 := Z.max (Zdigits2 m2 + e1 - 24) (3 - 128 - 24) - e1).
  assert (Hn2 : n2 <= 0 \/ (n2 = 1 /\ m2 = 2 ^ 24)).
  { destruct (Z.eq_dec m2 (2 ^ 24)) as [-> | Hne].
    - change (Zdigits2 (2 ^ 24)) with 25 in n2. lia.
    - left. pose proof (Zdigits2_le m2 24 ltac:(lia) ltac:(lia)). lia. }
  destruct (shr_m_shift (shr_record_of_loc m2 loc_Exact) e1 n2
              ltac:(rewrite shr_record_of_loc_m; lia)) as [Hm3 He3].
  destruct (shr (shr_record_of_loc m2 loc_Exact) e1 n2) as [mrs3 e3].
  cbn [fst snd] in Hm3, He3. rewrite shr_record_of_loc_m in Hm3.
  exists (shr_m mrs3), e3.
  assert (Hval : shr_m mrs3 * 2 ^ (e3 - e1) = m2 /\ e1 <= e3 /\ 0 <= shr_m mrs3).
  { destruct Hn2 as [Hn2 | [Hn2 Hm2eq]].
    - replace (0 <? n2) with false in * by (symmetry; apply Z.ltb_ge; lia).
      subst e3. rewrite Hm3, Z.sub_diag. cbn. lia.
    - rewrite Hn2 in *. cbn [Z.ltb Z.compare] in Hm3, He3.
      subst e3. rewrite Hm3, Hm2eq.
      replace (e1 + 1 - e1) with 1 by lia. cbn. lia. }
  destruct Hval as (Hval & He13 & Hm30).
  assert (Hpow3 : 2 ^ (e3 - e) = 2 ^ (e3 - e1) * 2 ^ Z.max n 0).
  { rewrite <- Z.pow_add_r by lia. f_equal. lia. }
  split; [reflexivity|].
  split; [exact Hm30|]. split; [lia|]. split; [lia|].
  assert (Hp31 : 0 < 2 ^ (e3 - e1)) by (apply Z.pow_pos_nonneg; lia).
  assert (Hout : shr_m mrs3 * 2 ^ (e3 - e) * den = m2 * den1).
  { rewrite Hpow3. unfold den1. rewrite <- Hval. ring. }
  split.
  - rewrite Hout, Hpow3.
    replace (2 ^ (e3 - e1) * 2 ^ Z.max n 0 * den) with (2 ^ (e3 - e1) * den1)
      by (unfold den1; ring).
    apply Z.le_trans with den1; [exact Herr|].
    rewrite <- (Z.mul_1_l den1) at 1. apply Z.mul_le_mono_nonneg_r; lia.
  - rewrite Hout.
    (* exact, normalised, or at the least exponent *)
    destruct (Z.le_gt_cases n 0) as [Hn | Hn].
    + destruct Hloc as [-> | Hloc].
      * left. destruct Hrep as (_ & _ & _ & Hr & Hs).
        cbn [shr_record_of_loc shr_r shr_s] in Hr, Hs.
        assert (Hmod : num mod den = 0).
        { revert Hs. bdestruct (num mod den =? 0); [auto|].
          revert Hr. pose proof (Z.mod_pos_bound num den Hden).
          bdestruct (den <=? 2 * (num mod den)); [discriminate|].
          bdestruct (2 * (num mod den) =? den); [lia|]. discriminate. }
        assert (Hdeq : den1 = den)
          by (unfold den1; rewrite Z.max_r by lia; cbn; lia).
        rewrite Hdeq in *. rewrite (Hexact Hmod).
        pose proof (Z.div_mod num den ltac:(lia)). lia.
      * assert (Hn0 : Z.max (d + e - 24) (3 - 128 - 24) = e) by lia.
        destruct (Z.le_gt_cases (3 - 128 - 24) (d + e - 24)) as [Hc | Hc].
        -- right. left. assert (d = 24) by lia.
           assert (2 ^ 23 <= m).
           { destruct (Z.eq_dec m 0) as [-> | ?]; [cbn in d; lia|].
             pose proof (Zdigits2_lower m ltac:(lia)) as Hl. fold d in Hl.
             replace (d - 1) with 23 in Hl by lia. exact Hl. }
           assert (Hdeq : den1 = den)
             by (unfold den1; rewrite Z.max_r by lia; cbn; lia).
           rewrite Hdeq, <- Hm in Hm2.
           destruct Hn2 as [Hn2 | [Hn2 Hm2eq]].
           ++ replace (0 <? n2) with false in * by (symmetry; apply Z.ltb_ge; lia).
              lia.
           ++ rewrite Hn2 in Hm3. cbn [Z.ltb Z.compare] in Hm3.
              rewrite Hm3, Hm2eq. cbn. lia.
        -- destruct Hn2 as [Hn2 | [Hn2 Hm2eq]].
           ++ right. right.
              replace (0 <? n2) with false in * by (symmetry; apply Z.ltb_ge; lia).
              lia.
           ++ right. left. rewrite Hn2 in Hm3. cbn [Z.ltb Z.compare] in Hm3.
              rewrite Hm3, Hm2eq. cbn. lia.
    + destruct (Z.le_gt_cases (3 - 128 - 24) (d + e - 24)) as [Hc | Hc].
      * right. left.
        assert (Hn' : n = d - 24) by lia.
        assert (2 ^ 23 <= num / den1).
        { rewrite Hm1, Z.max_l, Hn' by lia.
          assert (0 < m) by (destruct (Z.eq_dec m 0) as [-> | ?]; [cbn in d; lia | lia]).
          pose proof (Zdigits2_lower m ltac:(lia)) as Hl. fold d in Hl.
          apply Z.div_le_lower_bound; [apply Z.pow_pos_nonneg; lia|].
          rewrite <- Z.pow_add_r by lia.
          replace (d - 24 + 23) with (d - 1) by lia. exact Hl. }
        destruct Hn2 as [Hn2 | [Hn2 Hm2eq]].
        -- replace (0 <? n2) with false in * by (symmetry; apply Z.ltb_ge; lia).
           lia.
        -- rewrite Hn2 in Hm3. cbn [Z.ltb Z.compare] in Hm3.
           rewrite Hm3, Hm2eq. cbn. lia.
      * destruct Hn2 as [Hn2 | [Hn2 Hm2eq]].
        -- right. right.
           replace (0 <? n2) with false in * by (symmetry; apply Z.ltb_ge; lia).
           lia.
        -- right. left. rewrite Hn2 in Hm3. cbn [Z.ltb Z.compare] in Hm3.
           rewrite Hm3, Hm2eq. cbn. lia.
Qed.

(** ** Shape of a rounded result *)

Lemma shr_fexp_exponent m e l :
  e <= snd (shr_fexp F32.prec F32.emax m e l)
  /\ -149 <= snd (shr_fexp F32.prec F32.emax m e l).
Proof.
  unfold shr_fexp, shr, fexp, emin, F32.prec, F32.emax.
  destruct (Z.max _ _ - e) as [|p|p] eqn:E; cbn [snd]; lia.
Qed.

Lemma binary_round_aux_shape s m e l :
  0 <= m ->
  match binary_round_aux F32.prec F32.emax s m e l with
  | S754_zero s' => s' = s
  | S754_infinity s' => s' = s
  | S754_finite s' _ e3 => s' = s /\ -149 <= e3
  | S754_nan => False
  end.
Proof.
  intros H.
  pose proof (binary_round_aux_not_nan s m e l H) as Hnan.
  unfold binary_round_aux in *.
  destruct (shr_fexp F32.prec F32.emax m e l) as [mrs' e'].
  pose proof (shr_fexp_exponent
                (round_nearest_even (shr_m mrs') (loc_of_shr_record mrs')) e' loc_Exact)
    as [_ He].
  destruct (shr_fexp F32.prec F32.emax _ e' loc_Exact) as [mrs'' e''].
  cbn [snd] in He.
  destruct (shr_m mrs''); [reflexivity | | congruence].
  destruct (_ <=? _); [split; [reflexivity | exact He] | reflexivity].
Qed.

(** ** Alignment *)

Lemma iter_xO m d : Zpos (Pos.iter xO m d) = Zpos m * 2 ^ Zpos d.
Proof.
  induction d as [|d IH] using Pos.peano_ind.
  - cbn. lia.
  - rewrite Pos.iter_succ, Pos2Z.inj_xO, IH, Pos2Z.inj_succ, Z.pow_succ_r by lia.
    ring.
Qed.

Lemma shl_align_spec m e e' :
  snd (shl_align m e e') = Z.min e e'
  /\ Zpos (fst (shl_align m e e')) = Zpos m * 2 ^ (e - Z.min e e').
Proof.
  unfold shl_align. destruct (e' - e) as [|p|p] eqn:E; cbn [fst snd].
  - rewrite Z.min_l by lia. rewrite Z.sub_diag. cbn. lia.
  - rewrite Z.min_l by lia. rewrite Z.sub_diag. cbn. lia.
  - rewrite Z.min_r by lia. split; [reflexivity|].
    rewrite iter_xO. f_equal. f_equal. lia.
Qed.

(** ** Addition of non-negative values *)

Lemma round_exact_units m e :
  0 < m -> -149 <= e ->
  let r := binary_round_aux F32.prec F32.emax false m e loc_Exact in
  r = S754_infinity false
  \/ (good r
      /\ 2 ^ 24 * Z.abs (units r - m * 2 ^ (e + 149)) <= units r).
Proof.
  intros Hm He. cbv zeta.
  destruct (binary_round_aux_error false m e loc_Exact m 1
              (represents_exact m ltac:(lia)) (or_introl eq_refl))
    as (m3 & e3 & Hr & Hm3 & Hee & He3 & Herr & Hnorm).
  rewrite Hr. clear Hr.
  destruct m3 as [|p|p]; [| |lia].
  - right. split; [exact I|]. cbn [units].
    exfalso. rewrite Z.mul_0_l, Z.mul_1_r in Herr.
    assert (0 < 2 ^ (e3 - e)) by (apply Z.pow_pos_nonneg; lia).
    destruct Hnorm as [Hx | [Hx | Hx]]; try lia.
    replace (e3 - e) with 0 in * by lia. change (2 ^ 0) with 1 in *. lia.
  - destruct (e3 <=? 104); [|now left]. right. split; [exact He3|].
    cbn [units cond_Zopp].
    rewrite !Z.mul_1_r in *.
    assert (Hp : 2 ^ (e3 + 149) = 2 ^ (e3 - e) * 2 ^ (e + 149)).
    { rewrite <- Z.pow_add_r by lia. f_equal. lia. }
    assert (Hu : 0 < 2 ^ (e + 149)) by (apply Z.pow_pos_nonneg; lia).
    assert (Hv : 0 < 2 ^ (e3 - e)) by (apply Z.pow_pos_nonneg; lia).
    rewrite Hp.
    set (u := 2 ^ (e + 149)) in *. set (v := 2 ^ (e3 - e)) in *.
    replace (Zpos p * (v * u) - m * u) with ((Zpos p * v - m) * u) by ring.
    rewrite Z.abs_mul, (Z.abs_eq u) by lia.
    assert (Hkey : 2 ^ 24 * Z.abs (Zpos p * v - m) <= Zpos p * v).
    { destruct Hnorm as [Hx | [Hx | Hx]].
      - rewrite Hx, Z.sub_diag. cbn [Z.abs]. rewrite Z.mul_0_r. lia.
      - change (2 ^ 24) with (2 ^ 23 * 2). 
        apply Z.le_trans with (2 ^ 23 * v); [lia|].
        apply Z.mul_le_mono_nonneg_r; lia.
      - unfold v in *. replace (e3 - e) with 0 in * by lia.
        change (2 ^ 0) with 1 in *.
        assert (Hz : Zpos p * 1 - m = 0) by lia. rewrite Hz. cbn. lia. }
    rewrite Z.mul_assoc, (Z.mul_assoc (Zpos p)).
    apply Z.mul_le_mono_nonneg_r; lia.
Qed.

Lemma add_good x y :
  good x -> good y ->
  let r := (x + y)%f32 in
  r = S754_infinity false
  \/ (good r /\ 2 ^ 24 * Z.abs (units r - (units x + units y)) <= units r).
Proof.
  intros Hx Hy. cbv zeta.
  destruct x as [[|]| | |[|] mx ex], y as [[|]| | |[|] my ey];
    try contradiction; cbn [good] in Hx, Hy.
  - right. split; [exact I|]. cbn. lia.
  - right. split; [exact Hy|]. cbn [F32.add SFadd units cond_Zopp].
    rewrite Z.add_0_l, Z.sub_diag. cbn [Z.abs]. rewrite Z.mul_0_r.
    apply Z.mul_nonneg_nonneg; [lia | apply Z.pow_nonneg; lia].
  - right. split; [exact Hx|]. cbn [F32.add SFadd units cond_Zopp].
    rewrite Z.add_0_r, Z.sub_diag. cbn [Z.abs]. rewrite Z.mul_0_r.
    apply Z.mul_nonneg_nonneg; [lia | apply Z.pow_nonneg; lia].
  - unfold F32.add, SFadd. cbn [cond_Zopp].
    set (ez := Z.min ex ey).
    destruct (shl_align_spec mx ex ez) as [_ Hmx].
    destruct (shl_align_spec my ey ez) as [_ Hmy].
    rewrite Z.min_r in Hmx, Hmy by (unfold ez; lia).
    rewrite <- Pos2Z.inj_add. unfold binary_normalize, binary_round.
    set (M := (fst (shl_align mx ex ez) + fst (shl_align my ey ez))%positive).
    assert (HM : Zpos M = Zpos mx * 2 ^ (ex - ez) + Zpos my * 2 ^ (ey - ez))
      by (unfold M; rewrite Pos2Z.inj_add; lia).
    clearbody M. clear Hmx Hmy.
    destruct (shl_align_spec M ez
                (fexp F32.prec F32.emax (Zpos (digits2_pos M) + ez))) as [He Hmz].
    destruct (shl_align M ez _) as [mz ez']. cbn [fst snd] in He, Hmz.
    assert (Hez' : -149 <= ez' <= ez).
    { unfold fexp, emin, F32.prec, F32.emax in He. unfold ez in *. lia. }
    destruct (round_exact_units (Zpos mz) ez' ltac:(lia) ltac:(lia)) as [Hinf | [Hg Hb]].
    + left. exact Hinf.
    + right. split; [exact Hg|].
      cbn [units cond_Zopp].
      replace (Zpos mx * 2 ^ (ex + 149) + Zpos my * 2 ^ (ey + 149))
        with (Zpos mz * 2 ^ (ez' + 149)); [exact Hb|].
      rewrite Hmz, <- He, HM.
      assert (Hle : ez <= ex /\ ez <= ey) by (unfold ez; lia).
      assert (E1 : 2 ^ (ex + 149) = 2 ^ (ex - ez) * 2 ^ (ez - ez') * 2 ^ (ez' + 149))
        by (rewrite <- !Z.pow_add_r by lia; f_equal; lia).
      assert (E2 : 2 ^ (ey + 149) = 2 ^ (ey - ez) * 2 ^ (ez - ez') * 2 ^ (ez' + 149))
        by (rewrite <- !Z.pow_add_r by lia; f_equal; lia).
      rewrite E1, E2. ring.
Qed.

(** ** Division of non-negative values *)

Lemma new_location_represents nb k q :
  0 < nb -> 0 <= k < nb -> 0 <= q ->
  represents (shr_record_of_loc q (new_location nb k)) (q * nb + k) nb.
Proof.
  intros Hnb Hk Hq.
  assert (Hdiv : (q * nb + k) / nb = q)
    by (symmetry; apply Z.div_unique with k; [left; lia | ring]).
  assert (Hmod : (q * nb + k) mod nb = k)
    by (symmetry; apply Z.mod_unique with q; [left; lia | ring]).
  unfold represents. rewrite Hdiv, Hmod.
  split; [lia|]. split; [nia|].
  unfold new_location, new_location_even, new_location_odd.
  destruct (Z.even nb) eqn:Ev.
  - bdestruct (k =? 0).
    + subst k. cbn [shr_record_of_loc shr_m shr_r shr_s].
      repeat split; bsolve.
    + destruct (Z.compare_spec (2 * k) nb);
        cbn [shr_record_of_loc shr_m shr_r shr_s]; repeat split; bsolve.
  - assert (Hodd : exists t, nb = 2 * t + 1).
    { apply Z.odd_spec. rewrite <- Z.negb_even, Ev. reflexivity. }
    destruct Hodd as [t Ht].
    bdestruct (k =? 0).
    + subst k. cbn [shr_record_of_loc shr_m shr_r shr_s].
      repeat split; bsolve.
    + destruct (Z.compare_spec (2 * k + 1) nb);
        cbn [shr_record_of_loc shr_m shr_r shr_s]; repeat split; bsolve.
Qed.

Lemma div_core_spec m1 e1 m2 e2 :
  let '(q, e', l) :=
    SFdiv_core_binary F32.prec F32.emax (Zpos m1) e1 (Zpos m2) e2 in
  0 <= e1 - e2 - e'
  /\ (-149 <= e1 -> -149 <= e2 -> 0 <= e' + e2 + 298)
  /\ represents (shr_record_of_loc q l) (Zpos m1 * 2 ^ (e1 - e2 - e')) (Zpos m2)
  /\ e' <= fexp F32.prec F32.emax (Zdigits2 q + e').
Proof.
  unfold SFdiv_core_binary.
  set (d1 := Zdigits2 (Zpos m1)). set (d2 := Zdigits2 (Zpos m2)).
  set (e' := Z.min (fexp F32.prec F32.emax (d1 + e1 - (d2 + e2))) (e1 - e2)).
  set (sh := e1 - e2 - e').
  assert (Hsh : 0 <= sh) by (unfold sh, e'; lia).
  set (m' := match sh with
             | 0 => Zpos m1
             | Zpos _ => Z.shiftl (Zpos m1) sh
             | Zneg _ => 0
             end).
  assert (Hm' : m' = Zpos m1 * 2 ^ sh).
  { unfold m'. destruct sh as [|p|p] eqn:E; try lia.
    now rewrite Z.shiftl_mul_pow2 by lia. }
  clearbody m'.
  pose proof (Z_div_mod m' (Zpos m2) ltac:(lia)) as Hdm.
  destruct (Z.div_eucl m' (Zpos m2)) as [q r]. destruct Hdm as [Hdm Hr].
  assert (Hp : 0 < 2 ^ sh) by (apply Z.pow_pos_nonneg; lia).
  assert (Hq : 0 <= q) by nia.
  cbv beta iota. fold sh.
  split; [exact Hsh|].
  split; [unfold e', fexp, emin, F32.prec, F32.emax; lia|].
  split.
  - rewrite <- Hm', Hdm, (Z.mul_comm (Zpos m2) q).
    apply new_location_represents; lia.
  - (* enough digits in the quotient, or the least exponent *)
    unfold fexp, emin, F32.prec, F32.emax in *.
    destruct (Z.le_gt_cases (d1 + e1 - (d2 + e2) - 24) (3 - 128 - 24)) as [Hc | Hc].
    + unfold e'. lia.
    + assert (He' : e' <= d1 + e1 - (d2 + e2) - 24) by (unfold e'; lia).
      assert (Hsh' : d2 - d1 + 24 <= sh) by (unfold sh; lia).
      pose proof (Zdigits2_lower (Zpos m1) ltac:(lia)) as Hl1. fold d1 in Hl1.
      pose proof (Zdigits2_upper (Zpos m2) ltac:(lia)) as Hu2. fold d2 in Hu2.
      assert (Hd1 : 0 < d1) by (unfold d1; cbn; lia).
      assert (Hd2 : 0 < d2) by (unfold d2; cbn; lia).
      assert (H23 : 2 ^ 23 <= q).
      { assert (Hbig : 2 ^ 23 * 2 ^ d2 <= m').
        { rewrite Hm'. rewrite <- Z.pow_add_r by lia.
          apply Z.le_trans with (2 ^ (d1 - 1) * 2 ^ sh).
          - rewrite <- Z.pow_add_r by lia. apply Z.pow_le_mono_r; lia.
          - apply Z.mul_le_mono_nonneg_r; lia. }
        destruct (Z.le_gt_cases (2 ^ 23) q) as [|Hlt]; [assumption|].
        exfalso.
        assert (q + 1 <= 2 ^ 23) by lia.
        assert (m' < (q + 1) * Zpos m2) by nia.
        assert ((q + 1) * Zpos m2 <= 2 ^ 23 * Zpos m2)
          by (apply Z.mul_le_mono_nonneg_r; lia).
        assert (2 ^ 23 * Zpos m2 < 2 ^ 23 * 2 ^ d2)
          by (apply Z.mul_lt_mono_pos_l; lia).
        lia. }
      pose proof (Zdigits2_ge q 23 ltac:(lia) H23). lia.
Qed.

Lemma div_good x ms es :
  good x -> -149 <= es ->
  let s := S754_finite false ms es in
  let q := (x / s)%f32 in
  (q = S754_infinity false /\ 2 ^ 104 * units s <= units x)
  \/ (good q
      /\ 2 ^ 25 * Z.abs (units q * units s - 2 ^ 149 * units x)
         <= 2 * (units q * units s) + 2 ^ 24 * units s).
Proof.
  intros Hx Hes. cbv zeta.
  assert (HS : 0 < units (S754_finite false ms es)).
  { cbn [units cond_Zopp]. apply Z.mul_pos_pos; [lia|].
    apply Z.pow_pos_nonneg; lia. }
  destruct x as [[|]| | |[|] mx ex]; try contradiction; cbn [good] in Hx.
  - right. split; [exact I|]. cbn [F32.div SFdiv xorb].
    change (units (S754_zero false)) with 0.
    rewrite Z.mul_0_l, Z.mul_0_r. cbn [Z.sub Z.abs Z.opp]. lia.
  - unfold F32.div, SFdiv. cbn [xorb].
    pose proof (div_core_spec mx ex ms es) as Hcore.
    destruct (SFdiv_core_binary F32.prec F32.emax (Zpos mx) ex (Zpos ms) es)
      as [[q e'] l].
    destruct Hcore as (Hsh & HK & Hrep & Hdig).
    specialize (HK Hx Hes).
    destruct (binary_round_aux_error false q e' l _ _ Hrep (or_intror Hdig))
      as (m3 & e3 & Hr & Hm3 & Hee & He3 & Herr & Hnorm).
    rewrite Hr. clear Hr.
    set (sh := ex - es - e') in *.
    set (K := e' + es + 298) in *.
    set (v := 2 ^ (e3 - e')) in *.
    assert (Hv : 0 < v) by (apply Z.pow_pos_nonneg; lia).
    assert (HkK : 0 < 2 ^ K) by (apply Z.pow_pos_nonneg; lia).
    (* both sides in units *)
    assert (HUX : 2 ^ 149 * (Zpos mx * 2 ^ (ex + 149)) = Zpos mx * 2 ^ sh * 2 ^ K).
    { rewrite <- !Z.mul_assoc, <- Z.pow_add_r by (unfold K; lia).
      rewrite (Z.mul_comm (2 ^ 149)), <- Z.mul_assoc, <- Z.pow_add_r by lia.
      f_equal. f_equal. unfold sh, K. lia. }
    assert (HQS : forall p, Zpos p * 2 ^ (e3 + 149) * (Zpos ms * 2 ^ (es + 149))
                            = Zpos p * v * Zpos ms * 2 ^ K).
    { intros p. unfold v.
      replace (Zpos p * 2 ^ (e3 - e') * Zpos ms * 2 ^ K)
        with (Zpos p * Zpos ms * (2 ^ (e3 - e') * 2 ^ K)) by ring.
      rewrite <- Z.pow_add_r by lia.
      replace (e3 - e' + K) with ((e3 + 149) + (es + 149)) by (unfold K; lia).
      rewrite (Z.pow_add_r 2 (e3 + 149) (es + 149)) by lia. ring. }
    assert (HvS : v * Zpos ms * 2 ^ K = 2 ^ (e3 + 149) * (Zpos ms * 2 ^ (es + 149))).
    { unfold v.
      replace (2 ^ (e3 - e') * Zpos ms * 2 ^ K)
        with (Zpos ms * (2 ^ (e3 - e') * 2 ^ K)) by ring.
      rewrite <- Z.pow_add_r by lia.
      replace (e3 - e' + K) with ((e3 + 149) + (es + 149)) by (unfold K; lia).
      rewrite (Z.pow_add_r 2 (e3 + 149) (es + 149)) by lia. ring. }
    destruct m3 as [|p|p]; [| |lia].
    + (* the quotient rounds to zero *)
      right. split; [exact I|]. cbn [units cond_Zopp]. rewrite HUX.
      assert (HW : 0 < Zpos mx * 2 ^ sh)
        by (apply Z.mul_pos_pos; [lia | apply Z.pow_pos_nonneg; lia]).
      assert (He3' : e3 = -149).
      { destruct Hnorm as [Hn | [Hn | Hn]]; [| lia | exact Hn].
        exfalso. rewrite !Z.mul_0_l in Hn. lia. }
      assert (Hlow : 2 * (Zpos mx * 2 ^ sh) <= v * Zpos ms).
      { rewrite !Z.mul_0_l in Herr. lia. }
      assert (Hstep : 2 * (Zpos mx * 2 ^ sh) * 2 ^ K <= v * Zpos ms * 2 ^ K)
        by (apply Z.mul_le_mono_nonneg_r; lia).
      rewrite HvS, He3' in Hstep. change (2 ^ (-149 + 149)) with 1 in Hstep.
      assert (0 <= Zpos mx * 2 ^ sh * 2 ^ K)
        by (apply Z.mul_nonneg_nonneg; lia).
      set (S := Zpos ms * 2 ^ (es + 149)) in *.
      set (W := Zpos mx * 2 ^ sh * 2 ^ K) in *.
      change (2 ^ 25) with 33554432. change (2 ^ 24) with 16777216. lia.
    + destruct (e3 <=? 104) eqn:Ee.
      * right. split; [exact He3|]. cbn [units cond_Zopp].
        rewrite HUX, HQS.
        replace (Zpos p * v * Zpos ms * 2 ^ K - Zpos mx * 2 ^ sh * 2 ^ K)
          with ((Zpos p * v * Zpos ms - Zpos mx * 2 ^ sh) * 2 ^ K) by ring.
        rewrite Z.abs_mul, (Z.abs_eq (2 ^ K)) by lia.
        set (A := Z.abs (Zpos p * v * Zpos ms - Zpos mx * 2 ^ sh)) in *.
        assert (HA : 0 <= A) by apply Z.abs_nonneg.
        assert (Hkey : 2 ^ 25 * A <= 2 * (Zpos p * v * Zpos ms) + 2 ^ 24 * (2 ^ (e3 + 149) * Zpos ms) \/ True) by (right; exact I).
        clear Hkey.
        destruct Hnorm as [Hn | [Hn | Hn]].
        -- assert (A = 0) by (unfold A; rewrite Hn, Z.sub_diag; reflexivity).
           rewrite H, Z.mul_0_l, Z.mul_0_r.
           assert (0 <= Zpos p * v * Zpos ms * 2 ^ K)
             by (repeat apply Z.mul_nonneg_nonneg; lia).
           lia.
        -- assert (Hk : 2 ^ 25 * A <= 2 * (Zpos p * v * Zpos ms)).
           { change (2 ^ 25) with (2 ^ 24 * 2).
             apply Z.le_trans with (2 ^ 24 * (v * Zpos ms)); [lia|].
             change (2 ^ 24) with (2 * 2 ^ 23).
             rewrite <- !Z.mul_assoc. apply Z.mul_le_mono_nonneg_l; [lia|].
             apply Z.mul_le_mono_nonneg_r; [|lia].
             apply Z.mul_nonneg_nonneg; lia. }
           apply Z.le_trans with (2 * (Zpos p * v * Zpos ms) * 2 ^ K).
           ++ rewrite Z.mul_assoc. apply Z.mul_le_mono_nonneg_r; lia.
           ++ lia.
        -- assert (Hk : 2 ^ 25 * A * 2 ^ K <= 2 ^ 24 * (v * Zpos ms * 2 ^ K)).
           { change (2 ^ 25) with (2 ^ 24 * 2).
             rewrite <- !Z.mul_assoc. apply Z.mul_le_mono_nonneg_l; [lia|].
             rewrite !Z.mul_assoc. apply Z.mul_le_mono_nonneg_r; lia. }
           rewrite HvS, Hn in Hk. change (2 ^ (-149 + 149)) with 1 in Hk.
           rewrite Z.mul_1_l in Hk.
           assert (0 <= Zpos p * v * Zpos ms * 2 ^ K)
             by (repeat apply Z.mul_nonneg_nonneg; lia).
           rewrite Z.mul_assoc. lia.
      * (* overflow *)
        left. split; [reflexivity|].
        apply Z.leb_gt in Ee. cbn [units cond_Zopp].
        assert (Hlow : v * Zpos ms <= 2 * (Zpos mx * 2 ^ sh)).
        { assert (1 * (v * Zpos ms) <= Zpos p * (v * Zpos ms))
            by (apply Z.mul_le_mono_nonneg_r; [apply Z.mul_nonneg_nonneg|]; lia).
          lia. }
        assert (Hstep : v * Zpos ms * 2 ^ K <= 2 * (Zpos mx * 2 ^ sh) * 2 ^ K)
          by (apply Z.mul_le_mono_nonneg_r; lia).
        rewrite HvS, <- Z.mul_assoc, <- HUX in Hstep.
        assert (Hbig : 2 ^ 254 <= 2 ^ (e3 + 149))
          by (apply Z.pow_le_mono_r; lia).
        assert (Hmul : 2 ^ 254 * (Zpos ms * 2 ^ (es + 149))
                       <= 2 ^ (e3 + 149) * (Zpos ms * 2 ^ (es + 149)))
          by (apply Z.mul_le_mono_nonneg_r; lia).
        change (2 ^ 254) with (2 * 2 ^ 149 * 2 ^ 104) in Hmul.
        set (S := Zpos ms * 2 ^ (es + 149)) in *.
        set (X := Zpos mx * 2 ^ (ex + 149)) in *.
        lia.
Qed.

(** ** Summation of non-negative values *)

Lemma good_units x : good x -> 0 <= units x.
Proof.
  destruct x as [[|]| | |[|] m e]; try contradiction; intros H;
    cbn [units cond_Zopp]; [lia|].
  apply Z.mul_nonneg_nonneg; [lia | apply Z.pow_nonneg; cbn [good] in H; lia].
Qed.

Lemma good_units_zero x : good x -> units x = 0 -> x = F32.zero.
Proof.
  destruct x as [[|]| | |[|] m e]; try contradiction; intros H H0; [reflexivity|].
  exfalso. cbn [good units cond_Zopp] in H, H0.
  assert (0 < Zpos m * 2 ^ (e + 149))
    by (apply Z.mul_pos_pos; [lia | apply Z.pow_pos_nonneg; lia]).
  lia.
Qed.

Lemma totalUnits_nonneg l : Forall good l -> 0 <= totalUnits l.
Proof.
  induction 1 as [|x l Hx Hl IH]; [cbn; lia|].
  unfold totalUnits in *. cbn [map fold_right].
  pose proof (good_units x Hx). lia.
Qed.

Lemma totalUnits_cons x l : totalUnits (x :: l) = units x + totalUnits l.
Proof. reflexivity. Qed.

Lemma fold_add_infinity l :
  Forall good l ->
  fold_left F32.add l (S754_infinity false) = S754_infinity false.
Proof.
  induction 1 as [|x l Hx Hl IH]; [reflexivity|].
  cbn [fold_left].
  replace (S754_infinity false + x)%f32 with (S754_infinity false); [exact IH|].
  destruct x as [[|]| | |[|] m e]; try contradiction; reflexivity.
Qed.

(** Each addition is within [2 ^ -24] of the exact sum, relative to its
    result; [k] additions stay within [(1 - 2^-24)^k] and [(1 + 2^-24)^k]. *)
Lemma fold_add_bounds l : forall acc,
  good acc -> Forall good l ->
  let r := fold_left F32.add l acc in
  let k := Z.of_nat (length l) in
  r = S754_infinity false
  \/ (good r
      /\ units r * (2 ^ 24 - 1) ^ k <= (2 ^ 24) ^ k * (units acc + totalUnits l)
      /\ (2 ^ 24) ^ k * (units acc + totalUnits l) <= units r * (2 ^ 24 + 1) ^ k).
Proof.
  induction l as [|x l IH]; intros acc Hacc Hl; cbv zeta.
  - right. cbn [fold_left length Z.of_nat totalUnits map fold_right].
    rewrite !Z.pow_0_r. split; [exact Hacc | lia].
  - inversion Hl as [|? ? Hx Hl']; subst.
    cbn [fold_left]. rewrite totalUnits_cons.
    destruct (add_good acc x Hacc Hx) as [Hinf | [Hg Hb]].
    + left. rewrite Hinf. now apply fold_add_infinity.
    + destruct (IH (acc + x)%f32 Hg Hl') as [Hinf | (Hgr & Hlo & Hhi)];
        [now left | right].
      split; [exact Hgr|].
      replace (Z.of_nat (length (x :: l))) with (Z.succ (Z.of_nat (length l)))
        by (cbn [length]; lia).
      rewrite !Z.pow_succ_r by lia.
      set (k := Z.of_nat (length l)) in *.
      set (R := units (fold_left F32.add l (acc + x)%f32)) in *.
      set (A' := units (acc + x)%f32) in *.
      pose proof (good_units _ Hacc) as HA.
      pose proof (good_units _ Hx) as HX.
      pose proof (totalUnits_nonneg l Hl') as HT.
      set (A := units acc) in *. set (X := units x) in *.
      set (T := totalUnits l) in *.
      assert (Hp : 0 <= (2 ^ 24 - 1) ^ k) by (apply Z.pow_nonneg; lia).
      assert (Hd : 0 <= (2 ^ 24) ^ k) by (apply Z.pow_nonneg; lia).
      assert (Hq : 0 <= (2 ^ 24 + 1) ^ k) by (apply Z.pow_nonneg; lia).
      set (p := (2 ^ 24 - 1) ^ k) in *. set (d := (2 ^ 24) ^ k) in *.
      set (q := (2 ^ 24 + 1) ^ k) in *.
      change (2 ^ 24) with 16777216 in *.
      split.
      * apply Z.le_trans with (d * (A' + T) * (16777216 - 1)).
        -- replace (R * ((16777216 - 1) * p)) with (R * p * (16777216 - 1)) by ring.
           apply Z.mul_le_mono_nonneg_r; lia.
        -- replace (16777216 * d * (A + (X + T)))
             with (d * (16777216 * (A + (X + T)))) by ring.
           rewrite <- Z.mul_assoc. apply Z.mul_le_mono_nonneg_l; lia.
      * apply Z.le_trans with (d * (A' + T) * (16777216 + 1)).
        -- replace (16777216 * d * (A + (X + T)))
             with (d * (16777216 * (A + (X + T)))) by ring.
           rewrite <- Z.mul_assoc. apply Z.mul_le_mono_nonneg_l; lia.
        -- replace (R * ((16777216 + 1) * q)) with (R * q * (16777216 + 1)) by ring.
           apply Z.mul_le_mono_nonneg_r; lia.
Qed.

(** ** Division of every element by the total *)

Lemma map_div_bounds ms es l :
  -149 <= es ->
  Forall good l ->
  let s := S754_finite false ms es in
  (forall x, In x l -> units x < 2 ^ 104 * units s) ->
  let qs := map (fun val => (val / s)%f32) l in
  Forall good qs
  /\ 2 ^ 25 * Z.abs (totalUnits qs * units s - 2 ^ 149 * totalUnits l)
     <= 2 * (totalUnits qs * units s) + Z.of_nat (length l) * (2 ^ 24 * units s).
Proof.
  intros Hes Hl. cbv zeta. induction Hl as [|x l Hx Hl IH]; intros Hsmall.
  - split; [constructor|]. cbn. lia.
  - destruct IH as [IHg IHb]; [intros y Hy; apply Hsmall; now right|].
    destruct (div_good x ms es Hx Hes) as [[_ Hbig] | [Hg Hb]].
    + exfalso. specialize (Hsmall x (or_introl eq_refl)). lia.
    + split; [constructor; assumption|].
      cbn [map]. rewrite !totalUnits_cons.
      replace (Z.of_nat (length (x :: l))) with (1 + Z.of_nat (length l))
        by (cbn [length]; lia).
      set (S := units (S754_finite false ms es)) in *.
      set (q := units (x / S754_finite false ms es)%f32) in *.
      set (Q := totalUnits (map (fun val => (val / S754_finite false ms es)%f32) l)) in *.
      set (X := units x) in *. set (T := totalUnits l) in *.
      set (n := Z.of_nat (length l)) in *.
      change (2 ^ 25) with 33554432 in *. change (2 ^ 24) with 16777216 in *.
      change (2 ^ 149) with 713623846352979940529142984724747568191373312 in *.
      lia.
Qed.

Lemma units_le_total x l : Forall good l -> In x l -> units x <= totalUnits l.
Proof.
  induction 1 as [|y l Hy Hl IH]; intros Hin; [contradiction|].
  rewrite totalUnits_cons. pose proof (good_units y Hy).
  pose proof (totalUnits_nonneg l Hl).
  destruct Hin as [->|Hin]; [lia | specialize (IH Hin); lia].
Qed.

Lemma fsum_bounds c :
  Forall good c -> length c = 12%nat ->
  fsum c = S754_infinity false
  \/ (good (fsum c)
      /\ units (fsum c) * (2 ^ 24 - 1) ^ 12 <= (2 ^ 24) ^ 12 * totalUnits c
      /\ (2 ^ 24) ^ 12 * totalUnits c <= units (fsum c) * (2 ^ 24 + 1) ^ 12).
Proof.
  intros Hc Hlen.
  pose proof (fold_add_bounds c F32.zero I Hc) as H. cbv zeta in H.
  rewrite Hlen in H. change (Z.of_nat 12) with 12 in H.
  change (units F32.zero) with 0 in H. rewrite Z.add_0_l in H. exact H.
Qed.

(** The arithmetic of the normalisation: with the total [s] within
    [(1 -+ 2^-24)^12] of the exact sum [T] and the sum [Q] of the quotients
    within [2^-24] of [T / s], [Q] is within [10^-6] of one. *)
Lemma normalized_total_close Q s T :
  0 < s -> 0 <= Q -> 0 <= T ->
  s * (2 ^ 24 - 1) ^ 12 <= (2 ^ 24) ^ 12 * T ->
  (2 ^ 24) ^ 12 * T <= s * (2 ^ 24 + 1) ^ 12 ->
  2 ^ 25 * Z.abs (Q * s - 2 ^ 149 * T) <= 2 * (Q * s) + 12 * (2 ^ 24 * s) ->
  10 ^ 6 * Z.abs (Q - 2 ^ 149) <= 2 ^ 149.
Proof.
  intros Hs HQ HT Hlo Hhi Hdiv.
  apply (Z.mul_le_mono_pos_r _ _ s Hs).
  rewrite <- Z.mul_assoc.
  replace (Z.abs (Q - 2 ^ 149) * s) with (Z.abs (Q * s - 2 ^ 149 * s))
    by (rewrite <- Z.mul_sub_distr_r, Z.abs_mul, (Z.abs_eq s); lia).
  remember (Q * s) as W eqn:EW. clear EW HQ.
  let v := eval vm_compute in ((2 ^ 24 - 1) ^ 12) in
    change ((2 ^ 24 - 1) ^ 12) with v in Hlo.
  let v := eval vm_compute in ((2 ^ 24) ^ 12) in
    change ((2 ^ 24) ^ 12) with v in Hlo, Hhi.
  let v := eval vm_compute in ((2 ^ 24 + 1) ^ 12) in
    change ((2 ^ 24 + 1) ^ 12) with v in Hhi.
  let v := eval vm_compute in (2 ^ 149) in change (2 ^ 149) with v in *.
  change (2 ^ 25) with 33554432 in Hdiv. change (2 ^ 24) with 16777216 in Hdiv.
  change (10 ^ 6) with 1000000.
  lia.
Qed.

Lemma normalize_positive c :
  (F32.zero <? fsum c)%f32 = true ->
  KeyDetector.normalize c = map (fun val => (val / fsum c)%f32) c.
Proof.
  intros H. unfold KeyDetector.normalize. cbv zeta.
  change (fold_left (fun sum val => (sum + val)%f32) c F32.zero) with (fsum c).
  now rewrite H.
Qed.

Lemma normalize_not_positive c :
  (F32.zero <? fsum c)%f32 = false -> KeyDetector.normalize c = c.
Proof.
  intros H. unfold KeyDetector.normalize. cbv zeta.
  change (fold_left (fun sum val => (sum + val)%f32) c F32.zero) with (fsum c).
  now rewrite H.
Qed.

Lemma normalize_finite_total c :
  Forall good c -> length c = 12%nat ->
  (F32.zero <? fsum c)%f32 = true -> fsum c <> S754_infinity false ->
  Forall good (KeyDetector.normalize c)
  /\ 10 ^ 6 * Z.abs (totalUnits (KeyDetector.normalize c) - 2 ^ 149) <= 2 ^ 149.
Proof.
  intros Hc Hlen Hpos Hfin. rewrite (normalize_positive c Hpos).
  destruct (fsum_bounds c Hc Hlen) as [Hinf | (Hg & Hlo & Hhi)]; [contradiction|].
  destruct (fsum c) as [[|]| | |[|] ms es] eqn:Es; try contradiction;
    [discriminate Hpos|].
  cbn [good] in Hg.
  assert (Hs : 0 < units (S754_finite false ms es)).
  { cbn [units cond_Zopp].
    apply Z.mul_pos_pos; [lia | apply Z.pow_pos_nonneg; lia]. }
  assert (Hsmall : forall x, In x c ->
                     units x < 2 ^ 104 * units (S754_finite false ms es)).
  { intros x Hx. pose proof (units_le_total x c Hc Hx) as Hle.
    set (s := units (S754_finite false ms es)) in *.
    set (T := totalUnits c) in *. set (X := units x) in *.
    let v := eval vm_compute in ((2 ^ 24) ^ 12) in
      change ((2 ^ 24) ^ 12) with v in Hhi.
    let v := eval vm_compute in ((2 ^ 24 + 1) ^ 12) in
      change ((2 ^ 24 + 1) ^ 12) with v in Hhi.
    let v := eval vm_compute in (2 ^ 104) in change (2 ^ 104) with v.
    lia. }
  destruct (map_div_bounds ms es c Hg Hc Hsmall) as [Hq Hb].
  split; [exact Hq|].
  rewrite Hlen in Hb. change (Z.of_nat 12) with 12 in Hb.
  apply (normalized_total_close _ (units (S754_finite false ms es)) (totalUnits c));
    try assumption.
  - now apply totalUnits_nonneg.
  - now apply totalUnits_nonneg.
Qed.

Lemma normalize_zero_total c :
  Forall good c -> length c = 12%nat -> fsum c = F32.zero ->
  KeyDetector.normalize c = c /\ c = repeat F32.zero 12.
Proof.
  intros Hc Hlen Hz.
  split; [apply normalize_not_positive; rewrite Hz; reflexivity|].
  destruct (fsum_bounds c Hc Hlen) as [Hinf | (_ & _ & Hhi)];
    [rewrite Hz in Hinf; discriminate|].
  rewrite Hz in Hhi. change (units F32.zero) with 0 in Hhi.
  pose proof (totalUnits_nonneg c Hc) as HT.
  assert (HT0 : totalUnits c = 0).
  { let v := eval vm_compute in ((2 ^ 24) ^ 12) in
      change ((2 ^ 24) ^ 12) with v in Hhi.
    lia. }
  assert (Hall : Forall (eq F32.zero) c).
  { apply Forall_forall. intros x Hx. symmetry. apply good_units_zero.
    - exact (proj1 (Forall_forall _ _) Hc x Hx).
    - pose proof (units_le_total x c Hc Hx).
      pose proof (good_units x (proj1 (Forall_forall _ _) Hc x Hx)). lia. }
  rewrite <- Hlen. clear - Hall.
  induction Hall as [|x l Hx Hl IH]; [reflexivity|].
  cbn [length repeat]. now rewrite <- Hx, <- IH.
Qed.

Lemma div_infinity_good x : good x -> good (x / S754_infinity false)%f32.
Proof. destruct x as [[|]| | |[|] m e]; try contradiction; intros _; exact I. Qed.

Lemma normalize_good c :
  Forall good c -> length c = 12%nat -> Forall good (KeyDetector.normalize c).
Proof.
  intros Hc Hlen.
  destruct (F32.zero <? fsum c)%f32 eqn:Hpos;
    [|now rewrite (normalize_not_positive c Hpos)].
  destruct (fsum_bounds c Hc Hlen) as [Hinf | [Hg _]].
  - rewrite (normalize_positive c Hpos), Hinf.
    apply Forall_map. revert Hc. apply Forall_impl. exact div_infinity_good.
  - apply normalize_finite_total; try assumption.
    intros E. rewrite E in Hg. exact Hg.
Qed.

(** ** Values without a sign *)

Lemma unsigned_cases x :
  unsigned x -> good x \/ x = S754_infinity false \/ x = S754_nan.
Proof.
  destruct x as [s|s| |s m e]; cbn [unsigned good].
  - intros ->. now left.
  - intros ->. right. now left.
  - intros _. right. now right.
  - intros [-> H]. now left.
Qed.

Lemma good_unsigned x : good x -> unsigned x.
Proof.
  destruct x as [[|]| | |[|] m e]; try contradiction; cbn [good unsigned];
    intros H; [reflexivity | split; [reflexivity | exact H]].
Qed.

Lemma mul_self_unsigned x : unsigned (x * x)%f32.
Proof.
  destruct x as [s|s| |s m e].
  - destruct s; reflexivity.
  - destruct s; reflexivity.
  - exact I.
  - change (unsigned (binary_round_aux F32.prec F32.emax (xorb s s)
                        (Zpos (m * m)) (e + e) loc_Exact)).
    pose proof (binary_round_aux_shape (xorb s s) (Zpos (m * m)) (e + e) loc_Exact)
      as H.
    destruct (binary_round_aux _ _ _ _ _ _) as [s'|s'| |s' m' e'];
      cbn [unsigned]; destruct s; cbn [xorb] in H;
      try (apply H; lia); exact I.
Qed.

Lemma add_unsigned x y : unsigned x -> unsigned y -> unsigned (x + y)%f32.
Proof.
  intros Hx Hy.
  destruct (unsigned_cases x Hx) as [Gx | [-> | ->]];
    destruct (unsigned_cases y Hy) as [Gy | [-> | ->]];
    try exact I; try reflexivity.
  - destruct (add_good x y Gx Gy) as [E | [G _]]; cbv zeta in *.
    + now rewrite E.
    + now apply good_unsigned.
  - destruct x as [[|]| | |[|] m e]; try contradiction; reflexivity.
  - destruct x as [[|]| | |[|] m e]; try contradiction; exact I.
  - destruct y as [[|]| | |[|] m e]; try contradiction; reflexivity.
Qed.

Lemma sqrt_unsigned x : unsigned x -> unsigned (F32.sqrt x).
Proof.
  destruct x as [s|s| |s m e]; cbn [unsigned].
  - intros ->. reflexivity.
  - intros ->. reflexivity.
  - intros _. exact I.
  - intros [-> _]. unfold F32.sqrt, SFsqrt, SFsqrt_core_binary. cbv zeta.
    match goal with |- context [Z.sqrtrem ?n] =>
      pose proof (Z.sqrtrem_sqrt n) as Hq; pose proof (Z.sqrt_nonneg n) as Hn;
      destruct (Z.sqrtrem n) as [q r] end.
    cbn [fst] in Hq. rewrite <- Hq in Hn.
    match goal with |- unsigned (binary_round_aux _ _ ?s ?m ?e ?l) =>
      pose proof (binary_round_aux_shape s m e l Hn) as H;
      destruct (binary_round_aux _ _ s m e l) end;
      cbn [unsigned]; tauto.
Qed.

Lemma magnitude_unsigned c : unsigned (magnitude c).
Proof.
  unfold magnitude. apply sqrt_unsigned, add_unsigned; apply mul_self_unsigned.
Qed.

(** A finite total has only finite terms. *)
Lemma fold_add_finite l : forall acc,
  unsigned acc -> Forall unsigned l ->
  F32.finite_or_zero (fold_left F32.add l acc) = true ->
  good acc /\ Forall good l.
Proof.
  induction l as [|x l IH]; intros acc Hacc Hl Hfin.
  - split; [|constructor]. cbn [fold_left] in Hfin.
    destruct (unsigned_cases acc Hacc) as [G | [-> | ->]];
      [exact G | discriminate | discriminate].
  - inversion Hl as [|? ? Hx Hl']; subst. cbn [fold_left] in Hfin.
    destruct (IH (acc + x)%f32 (add_unsigned acc x Hacc Hx) Hl' Hfin) as [G Gl].
    assert (good acc /\ good x) as [Ga Gx]; [|split; [|constructor]; assumption].
    destruct (unsigned_cases acc Hacc) as [Ga | [-> | ->]];
      destruct (unsigned_cases x Hx) as [Gx | [-> | ->]];
      try (split; assumption); try contradiction.
    + exfalso. destruct acc as [[|]| | |[|] m e]; try contradiction; exact G.
    + exfalso. destruct acc as [[|]| | |[|] m e]; try contradiction; exact G.
    + exfalso. destruct x as [[|]| | |[|] m e]; try contradiction; exact G.
Qed.

(** ** The accumulated chromagram *)

Lemma foldM_invariant {A B : Type} (Inv : A -> Prop) (f : A -> B -> option A) :
  (forall a b a', Inv a -> f a b = Some a' -> Inv a') ->
  forall l a a', Inv a -> foldM f l a = Some a' -> Inv a'.
Proof.
  intros Hf. induction l as [|b l IH]; intros a a' Ha H; cbn [foldM] in H.
  - now injection H as <-.
  - destruct (f a b) as [a1|] eqn:E; [|discriminate].
    exact (IH a1 a' (Hf a b a1 Ha E) H).
Qed.

Lemma store_length a : forall i v, length (store a i v) = length a.
Proof.
  induction a as [|x a IH]; intros [|i] v; cbn [store length];
    try reflexivity. now rewrite IH.
Qed.

Lemma store_Forall (Q : float -> Prop) a : forall i v,
  Forall Q a -> Q v -> Forall Q (store a i v).
Proof.
  induction a as [|x a IH]; intros [|i] v Ha Hv; cbn [store];
    try constructor; inversion Ha; subst; try assumption.
  now apply IH.
Qed.

Lemma at_unsigned a i : Forall unsigned a -> unsigned (KeyDetector.at_ a i).
Proof.
  intros Ha. unfold KeyDetector.at_.
  destruct (nth_in_or_default i a F32.zero) as [Hin | ->]; [|reflexivity].
  exact (proj1 (Forall_forall _ _) Ha _ Hin).
Qed.

Section Chromagram.
Context (P : Platform) (d : KeyDetector.t).

Lemma addBin_shape fftData c bin c' :
  chromagramShape c -> KeyDetector.addBin P d fftData c bin = Some c' ->
  chromagramShape c'.
Proof.
  intros [Hlen Hc] H. unfold KeyDetector.addBin in H. cbv zeta in H.
  destruct (_ || _); [now injection H as <-|].
  destruct (F32.to_int _) as [n|]; [|discriminate].
  destruct (0 <=? Z.rem n 12); [|discriminate].
  injection H as <-. split.
  - now rewrite store_length.
  - apply store_Forall; [exact Hc|].
    apply add_unsigned; [now apply at_unsigned | apply magnitude_unsigned].
Qed.

Lemma addFrame_shape audioData c start c' :
  chromagramShape c -> KeyDetector.addFrame P d audioData c start = Some c' ->
  chromagramShape c'.
Proof.
  intros Hc H. unfold KeyDetector.addFrame in H.
  destruct (read _ _ _) as [frame|]; [|discriminate]. cbv zeta in H.
  revert H. apply foldM_invariant; [|exact Hc].
  intros a b a' Ha. now apply addBin_shape.
Qed.

Lemma calculateChromagram_shape audioData numSamples c :
  KeyDetector.calculateChromagram P d audioData numSamples = Some c ->
  chromagramShape c.
Proof.
  unfold KeyDetector.calculateChromagram.
  apply foldM_invariant.
  - intros a b a' Ha. now apply addFrame_shape.
  - split; [reflexivity|]. repeat constructor.
Qed.

(** C6: the normalisation step of [detectKey] on the chromagram accumulated
    from any buffer.  With a positive, finite total the twelve bins are
    non-negative finite values whose exact sum is within [10^-6] of one
    ([2 ^ 149] in units of [2 ^ -149]); with a zero total the chromagram is
    left as it is, twelve zeros. *)
Theorem normalize_sums_to_one audioData numSamples c :
  KeyDetector.calculateChromagram P d audioData numSamples = Some c ->
  let total := fsum c in
  ((F32.zero <? total)%f32 = true -> total <> S754_infinity false ->
   length (KeyDetector.normalize c) = 12%nat
   /\ Forall good (KeyDetector.normalize c)
   /\ 10 ^ 6 * Z.abs (totalUnits (KeyDetector.normalize c) - 2 ^ 149) <= 2 ^ 149)
  /\ (F32.is_zero total = true ->
      KeyDetector.normalize c = repeat F32.zero 12).
Proof.
  intros Hc total. destruct (calculateChromagram_shape _ _ _ Hc) as [Hlen Hu].
  assert (Hgood : F32.finite_or_zero total = true -> Forall good c).
  { intros Hfin. now apply (fold_add_finite c F32.zero). }
  split.
  - intros Hpos Hfin.
    assert (Hg : Forall good c).
    { apply Hgood. subst total.
      destruct (fsum c) as [s|[|]| |s m e]; try reflexivity;
        try discriminate Hpos. now elim Hfin. }
    split; [|now apply normalize_finite_total].
    rewrite (normalize_positive c Hpos). now rewrite length_map.
  - intros Hz.
    assert (Hg : Forall good c).
    { apply Hgood. destruct total; try discriminate Hz; reflexivity. }
    assert (E : fsum c = F32.zero).
    { destruct (fsum_bounds c Hg Hlen) as [Hinf | [G _]].
      - fold total in Hinf. rewrite Hinf in Hz. discriminate.
      - fold total in G |- *.
        destruct total as [[|]| | |]; try discriminate Hz;
          [contradiction | reflexivity]. }
    destruct (normalize_zero_total c Hg Hlen E) as [-> ->]. reflexivity.
Qed.
End Chromagram.

Lemma calculateChromagram_silence (P : Platform) d :
  KeyDetector.calculateChromagram P d (silence 4096) 4096
  = Some (repeat F32.zero 12).
Proof. reflexivity. Qed.

Lemma normalize_sums_to_one_witness :
  (length (KeyDetector.normalize sineChromagram) = 12%nat
   /\ Forall good (KeyDetector.normalize sineChromagram)
   /\ 10 ^ 6 * Z.abs (totalUnits (KeyDetector.normalize sineChromagram) - 2 ^ 149)
      <= 2 ^ 149)
  /\ KeyDetector.normalize (repeat F32.zero 12) = repeat F32.zero 12.
Proof.
  split.
  - apply (normalize_sums_to_one RefPlatform.platform KeyDetector.init
             (sine 440 44100 4608) 4608 sineChromagram
             (proj1 detectKey_sine_440)).
    + vm_compute. reflexivity.
    + vm_compute. discriminate.
  - apply (normalize_sums_to_one RefPlatform.platform KeyDetector.init
             (silence 4096) 4096 (repeat F32.zero 12)
             (calculateChromagram_silence _ _)).
    reflexivity.
Defined.

(** On the reference platform the tone at amplitude [2 ^ 70] overflows every
    bin of the chromagram: the total is [+infinity], which is positive, and
    the normalisation leaves twelve NaNs. *)
Lemma normalize_overflow :
  KeyDetector.calculateChromagram RefPlatform.platform KeyDetector.init
    loudSine 4608 = Some (repeat (S754_infinity false) 12)
  /\ (F32.zero <? fsum (repeat (S754_infinity false) 12))%f32 = true
  /\ KeyDetector.normalize (repeat (S754_infinity false) 12)
     = repeat S754_nan 12.
Proof.
  split; [|split]; vm_compute; reflexivity.
Qed.

(** * Further properties of the code *)

(** ** Values that are not NaN *)

Lemma ltb_true_not_nan a b :
  (a <? b)%f32 = true -> F32.is_nan a = false /\ F32.is_nan b = false.
Proof.
  destruct a, b; try discriminate; intros _; split; reflexivity.
Qed.

Lemma binary_normalize_not_nan m e s :
  F32.is_nan (binary_normalize F32.prec F32.emax m e s) = false.
Proof.
  unfold binary_normalize, binary_round.
  destruct m as [|p|p]; [reflexivity| |];
    destruct (shl_align _ _ _) as [mz ez];
    match goal with
    | |- F32.is_nan ?r = false =>
        assert (Hr : r <> S754_nan)
          by (apply binary_round_aux_not_nan; lia);
        destruct r; congruence || reflexivity
    end.
Qed.

Lemma add_finite_not_nan x s m e :
  F32.is_nan x = false -> F32.is_nan (x + S754_finite s m e)%f32 = false.
Proof.
  destruct x as [sx|sx| |sx mx ex]; try discriminate; intros _;
    try reflexivity.
  apply binary_normalize_not_nan.
Qed.

Lemma div_by_finite_not_nan x s m e :
  F32.is_nan x = false -> F32.is_nan (x / S754_finite s m e)%f32 = false.
Proof.
  destruct x as [sx|sx| |sx mx ex]; try discriminate; intros _;
    try reflexivity.
  apply div_finite_not_nan. reflexivity.
Qed.

Lemma jlimit_unit v :
  F32.is_nan v = false ->
  F32.leb F32.zero (jlimit F32.zero (F32.of_Z 1) v) = true
  /\ F32.leb (jlimit F32.zero (F32.of_Z 1) v) (F32.of_Z 1) = true.
Proof.
  intros Hv. unfold jlimit.
  destruct (v <? F32.zero)%f32 eqn:H0; [split; reflexivity|].
  destruct (F32.of_Z 1 <? v)%f32 eqn:H1; [split; reflexivity|].
  split; apply not_ltb_leb; try assumption; reflexivity.
Qed.

(** ** The result of the key search *)

Lemma fold_left_invariant {A B : Type} (Inv : A -> Prop) (Q : B -> Prop)
      (f : A -> B -> A) :
  (forall a b, Inv a -> Q b -> Inv (f a b)) ->
  forall l a, Forall Q l -> Inv a -> Inv (fold_left f l a).
Proof.
  intros Hf. induction l as [|b l IH]; intros a Hl Ha; [exact Ha|].
  inversion Hl; subst. cbn [fold_left]. apply IH; [assumption|].
  now apply Hf.
Qed.

Lemma keyName_pitchClass root :
  (root < 12)%nat -> In (KeyDetector.keyName root) KeyDetector.pitchClasses.
Proof.
  intros H. unfold KeyDetector.keyName. apply nth_In. exact H.
Qed.

Lemma consider_shape corr key mode b :
  In key KeyDetector.pitchClasses ->
  mode = "major"%string \/ mode = "minor"%string ->
  bestShape b -> bestShape (KeyDetector.consider corr key mode b).
Proof.
  intros Hk Hm Hb. unfold KeyDetector.consider.
  destruct (KeyDetector.maxCorrelation b <? corr)%f32 eqn:E; [|exact Hb].
  split; [exact Hk|]. split; [exact Hm|].
  exact (proj2 (ltb_true_not_nan _ _ E)).
Qed.

Lemma tryRoot_shape x b root :
  (root < 12)%nat -> bestShape b -> bestShape (KeyDetector.tryRoot x b root).
Proof.
  intros Hr Hb. unfold KeyDetector.tryRoot. cbv zeta.
  apply consider_shape; [now apply keyName_pitchClass | now right|].
  apply consider_shape; [now apply keyName_pitchClass | now left | exact Hb].
Qed.

Lemma some_eq {A : Type} (a b : A) : Some a = Some b -> a = b.
Proof. now injection 1. Qed.

Lemma of_Z_2 : F32.of_Z 2 = S754_finite false 8388608 (-22).
Proof. vm_compute. reflexivity. Qed.

Lemma findBestKey_shape x :
  let '(key, mode, confidence) := KeyDetector.findBestKey x in
  In key KeyDetector.pitchClasses
  /\ (mode = "major"%string \/ mode = "minor"%string)
  /\ F32.leb F32.zero confidence = true
  /\ F32.leb confidence (F32.of_Z 1) = true.
Proof.
  unfold KeyDetector.findBestKey. cbv zeta.
  assert (H : bestShape (fold_left (KeyDetector.tryRoot x) KeyDetector.indices
                                   KeyDetector.initialBest)).
  { apply (fold_left_invariant bestShape (fun root => (root < 12)%nat)).
    - intros a b Ha Hb. now apply tryRoot_shape.
    - unfold KeyDetector.indices. apply Forall_forall. intros r Hr.
      apply in_seq in Hr. lia.
    - split; [now left|]. split; [now left | reflexivity]. }
  destruct H as (Hk & Hm & Hn).
  split; [exact Hk|]. split; [exact Hm|].
  apply jlimit_unit. rewrite of_Z_2. apply div_by_finite_not_nan.
  rewrite of_Z_1. now apply add_finite_not_nan.
Qed.

(** X1.  Whatever the buffer holds (NaN and infinite samples included) and
    whatever the FFT returns, a defined [detectKey] answers one of the twelve
    pitch-class names, "major" or "minor", and a confidence between 0 and 1;
    the confidence is never NaN. *)
Theorem detectKey_result_shape (P : Platform) d audioData numSamples
        key mode confidence :
  KeyDetector.detectKey P d audioData numSamples = Some (key, mode, confidence) ->
  In key KeyDetector.pitchClasses
  /\ (mode = "major"%string \/ mode = "minor"%string)
  /\ F32.leb F32.zero confidence = true
  /\ F32.leb confidence (F32.of_Z 1) = true.
Proof.
  unfold KeyDetector.detectKey. intros H.
  destruct (numSamples <? KeyDetector.fftSize).
  - injection H as <- <- <-. split; [now left|]. split; [now left|].
    split; vm_compute; reflexivity.
  - destruct (KeyDetector.calculateChromagram P d audioData numSamples)
      as [c|]; [|discriminate H].
    apply some_eq in H.
    pose proof (findBestKey_shape (KeyDetector.normalize c)) as S.
    rewrite H in S. exact S.
Qed.

Lemma detectKey_result_shape_witness :
  In "C"%string KeyDetector.pitchClasses
  /\ ("major"%string = "major"%string \/ "major"%string = "minor"%string)
  /\ F32.leb F32.zero (F32.lit 5 10) = true
  /\ F32.leb (F32.lit 5 10) (F32.of_Z 1) = true.
Proof.
  apply (detectKey_result_shape RefPlatform.platform KeyDetector.init
           (silence 4096) 4096).
  vm_compute. reflexivity.
Defined.

(** ** Sums of positive terms *)

Lemma binary_round_aux_nonnegative m e l :
  0 <= m -> nonnegative (binary_round_aux F32.prec F32.emax false m e l) = true.
Proof.
  intros H. pose proof (binary_round_aux_shape false m e l H) as S.
  destruct (binary_round_aux _ _ _ _ _ _) as [s|s| |s m' e'];
    [subst s; reflexivity | subst s; reflexivity | contradiction
     | destruct S as [-> _]; reflexivity].
Qed.

Lemma add_nonnegative a b :
  nonnegative a = true -> nonnegative b = true -> nonnegative (a + b)%f32 = true.
Proof.
  destruct a as [[|]|[|]| |[|] ma ea]; try discriminate;
    destruct b as [[|]|[|]| |[|] mb eb]; try discriminate; intros _ _;
    try reflexivity.
  unfold F32.add, SFadd. cbn [cond_Zopp Z.add].
  unfold binary_normalize, binary_round.
  destruct (shl_align _ _ _) as [mz ez].
  apply binary_round_aux_nonnegative. lia.
Qed.

Lemma positive_nonnegative b : (F32.zero <? b)%f32 = true -> nonnegative b = true.
Proof. destruct b as [[|]|[|]| |[|] m e]; try discriminate; reflexivity. Qed.

Lemma nonnegative_not_nan a : nonnegative a = true -> F32.is_nan a = false.
Proof. destruct a; try discriminate; reflexivity. Qed.

Section OnsetValues.
Context (P : Platform).

Lemma spectralFlux_nonnegative spectrum prevSpectrum :
  nonnegative (BPMDetector.spectralFlux spectrum prevSpectrum) = true.
Proof.
  unfold BPMDetector.spectralFlux.
  apply (fold_left_invariant (fun flux => nonnegative flux = true)
                             (fun _ : nat => True)).
  - intros flux i Hf _. cbv zeta.
    destruct (F32.zero <? _)%f32 eqn:E; [|exact Hf].
    apply add_nonnegative; [exact Hf | now apply positive_nonnegative].
  - apply Forall_forall. intros; exact I.
  - reflexivity.
Qed.

Lemma onsetFrame_nonnegative audioData st s st1 :
  Forall (fun v => nonnegative v = true) (fst st) ->
  BPMDetector.onsetFrame P audioData st s = Some st1 ->
  Forall (fun v => nonnegative v = true) (fst st1).
Proof.
  intros Hst H. unfold BPMDetector.onsetFrame in H.
  destruct (read _ _ _) as [frame|]; [|discriminate H].
  cbv zeta in H. apply some_eq in H. subst st1. cbn [fst].
  apply Forall_app. split; [exact Hst|].
  constructor; [apply spectralFlux_nonnegative | constructor].
Qed.

(** X2.  Every value of the onset envelope is [+0], positive or [+infinity]:
    never negative and never NaN, whatever the samples are and whatever the
    FFT returns (a NaN difference fails the test [diff > 0.0f] and is not
    added). *)
Theorem calculateOnsetStrength_nonnegative audioData numSamples onsetStrength :
  BPMDetector.calculateOnsetStrength P audioData numSamples = Some onsetStrength ->
  Forall (fun v => nonnegative v = true) onsetStrength.
Proof.
  unfold BPMDetector.calculateOnsetStrength. intros H.
  destruct (foldM _ _ _) as [[o prev]|] eqn:E; [|discriminate H].
  apply some_eq in H. subst o.
  change onsetStrength with (fst (onsetStrength, prev)).
  revert E.
  apply (foldM_invariant
           (fun st : list float * list float =>
              Forall (fun v => nonnegative v = true) (fst st))).
  - intros a b a' Ha Hf. exact (onsetFrame_nonnegative _ _ _ _ Ha Hf).
  - constructor.
Qed.
End OnsetValues.

Lemma calculateOnsetStrength_nonnegative_witness :
  Forall (fun v => nonnegative v = true) clickEnvelope.
Proof.
  apply (calculateOnsetStrength_nonnegative RefPlatform.platform
           (clicks 2048 7168) 7168 clickEnvelope).
  exact calculateOnsetStrength_clicks.
Defined.

(** ** Integers as floats *)

Lemma of_Z_finite z :
  0 < z < 2 ^ 64 -> exists m e, F32.of_Z z = S754_finite false m e.
Proof.
  intros Hz. destruct z as [|p|p]; try lia.
  unfold F32.of_Z, binary_normalize, binary_round.
  pose proof (shl_align_spec p 0
                (fexp F32.prec F32.emax (Z.pos (digits2_pos p) + 0))) as [He Hm].
  assert (Hf : -149 <= fexp F32.prec F32.emax (Z.pos (digits2_pos p) + 0))
    by (unfold fexp, emin, F32.prec, F32.emax; lia).
  destruct (shl_align _ _ _) as [mz ez]. cbn [fst snd] in He, Hm.
  destruct (binary_round_aux_error false (Z.pos mz) ez loc_Exact (Z.pos mz) 1)
    as (m3 & e3 & E & H0 & Hle & Hlo & Herr & Hex).
  { apply represents_exact. lia. }
  { now left. }
  pose proof (binary_round_aux_not_zero false (Z.pos mz) ez loc_Exact) as Hnz.
  rewrite E in *. destruct m3 as [|q|q]; [|clear Hnz|lia].
  { exfalso. cbn [F32.is_zero] in Hnz.
    assert (true = false); [|discriminate].
    apply Hnz; [lia | unfold emin, F32.prec, F32.emax; lia]. }
  destruct (e3 <=? 104) eqn:E3; [now exists q, e3|]. exfalso.
  apply Z.leb_gt in E3.
  set (a := 0 - Z.min 0 (fexp F32.prec F32.emax (Z.pos (digits2_pos p) + 0))) in *.
  assert (Ha : 0 <= a) by lia.
  assert (Hea : e3 - ez = e3 + a) by lia. rewrite Hea in Herr.
  rewrite Z.pow_add_r in Herr by lia.
  assert (Hpa : 0 < 2 ^ a) by (apply Z.pow_pos_nonneg; lia).
  assert (Hpe : 2 ^ 105 <= 2 ^ e3) by (apply Z.pow_le_mono_r; lia).
  rewrite Hm in Herr. rewrite !Z.mul_1_r in Herr.
  set (A := 2 ^ a) in *. set (E3' := 2 ^ e3) in *.
  assert (H1 : E3' * A <= 2 * (Z.pos p * A)).
  { assert (E3' * A <= Z.pos q * (E3' * A)).
    { rewrite <- (Z.mul_1_l (E3' * A)) at 1.
      apply Z.mul_le_mono_nonneg_r; [|lia].
      apply Z.mul_nonneg_nonneg; lia. }
    lia. }
  assert (H2 : E3' <= 2 * Z.pos p).
  { apply (Z.mul_le_mono_pos_r _ _ A Hpa). lia. }
  change (2 ^ 105) with 40564819207303340847894502572032 in Hpe.
  change (2 ^ 64) with 18446744073709551616 in Hz. lia.
Qed.

Lemma add_finite_or_zero_not_nan x v :
  F32.is_nan x = false -> F32.finite_or_zero v = true ->
  F32.is_nan (x + v)%f32 = false.
Proof.
  destruct v as [sv|sv| |sv mv ev]; try discriminate; intros Hx _;
    [|now apply add_finite_not_nan].
  destruct x as [[|]|[|]| |sx mx ex]; try discriminate; destruct sv; reflexivity.
Qed.

Lemma sub_finite_or_zero_not_nan v x :
  F32.finite_or_zero v = true -> F32.is_nan x = false ->
  F32.is_nan (v - x)%f32 = false.
Proof.
  destruct v as [sv|sv| |sv mv ev]; try discriminate; intros _;
    destruct x as [sx|sx| |sx mx ex]; try discriminate; intros _;
    try reflexivity.
  - destruct sv, sx; reflexivity.
  - apply binary_normalize_not_nan.
Qed.

Lemma mul_self_nonnegative x :
  F32.is_nan x = false -> nonnegative (x * x)%f32 = true.
Proof.
  destruct x as [[|]|[|]| |s m e]; try discriminate; intros _; try reflexivity.
  change (nonnegative (binary_round_aux F32.prec F32.emax (xorb s s)
                         (Zpos (m * m)) (e + e) loc_Exact) = true).
  replace (xorb s s) with false by (now destruct s).
  apply binary_round_aux_nonnegative. lia.
Qed.

Lemma fsum_not_nan l : forall acc,
  F32.is_nan acc = false ->
  Forall (fun v => F32.finite_or_zero v = true) l ->
  F32.is_nan (fold_left (fun sum val => (sum + val)%f32) l acc) = false.
Proof.
  induction l as [|v l IH]; intros acc Ha Hl; [exact Ha|].
  inversion Hl; subst. cbn [fold_left].
  apply IH; [|assumption]. now apply add_finite_or_zero_not_nan.
Qed.

Lemma of_Z_10 : F32.of_Z 10 = S754_finite false 10485760 (-20).
Proof. vm_compute. reflexivity. Qed.

Lemma varianceOf_not_nan onsetStrength :
  0 < Z.of_nat (length onsetStrength) < 2 ^ 64 ->
  Forall (fun v => F32.finite_or_zero v = true) onsetStrength ->
  F32.is_nan (BPMDetector.varianceOf onsetStrength) = false.
Proof.
  intros Hlen Hfin. unfold BPMDetector.varianceOf, BPMDetector.meanOf. cbv zeta.
  destruct (of_Z_finite _ Hlen) as (m & e & ->).
  set (mean := (fold_left (fun meanOnset val => (meanOnset + val)%f32)
                          onsetStrength F32.zero / S754_finite false m e)%f32).
  assert (Hmean : F32.is_nan mean = false).
  { apply div_by_finite_not_nan. now apply fsum_not_nan. }
  apply div_by_finite_not_nan, nonnegative_not_nan.
  apply (fold_left_invariant (fun variance => nonnegative variance = true)
                             (fun v => F32.finite_or_zero v = true));
    [|exact Hfin | reflexivity].
  intros variance val Hv Hval.
  apply add_nonnegative; [exact Hv|].
  apply mul_self_nonnegative. now apply sub_finite_or_zero_not_nan.
Qed.

Section ConfidenceRange.
Context (P : Platform).

(** X3.  On a buffer of at least one analysis frame whose onset envelope has
    no infinite value, [detectBPM] leaves a confidence between 0 and 1 (the
    fallback's 0.3, or the clamped variance, which is then not NaN). *)
Theorem detectBPM_confidence_unit d audioData numSamples onsetStrength estimate :
  BPMDetector.fftSize + BPMDetector.hopSize <= numSamples <= F32.int_max ->
  BPMDetector.calculateOnsetStrength P audioData numSamples = Some onsetStrength ->
  Forall (fun v => F32.finite_or_zero v = true) onsetStrength ->
  BPMDetector.estimateTempoFromOnsets d onsetStrength = Some estimate ->
  exists bpm d',
    BPMDetector.detectBPM P d audioData numSamples = Some (bpm, d')
    /\ F32.leb F32.zero (BPMDetector.getConfidence d') = true
    /\ F32.leb (BPMDetector.getConfidence d') (F32.of_Z 1) = true.
Proof.
  intros Hn Hc Hfin He.
  pose proof (calculateOnsetStrength_length P _ _ _ Hc) as Hlen.
  unfold BPMDetector.fftSize, BPMDetector.hopSize, F32.int_max in *.
  rewrite Z.quot_div_nonneg in Hlen by lia.
  assert (1 <= (numSamples - 2048) / 512) by (apply Z.div_le_lower_bound; lia).
  assert ((numSamples - 2048) / 512 < 2 ^ 31)
    by (apply Z.div_lt_upper_bound; lia).
  unfold BPMDetector.detectBPM.
  replace (numSamples <? BPMDetector.fftSize) with false
    by (symmetry; apply Z.ltb_ge; unfold BPMDetector.fftSize; lia).
  rewrite Hc. destruct onsetStrength as [|v l] eqn:Eo; [cbn [length] in Hlen; lia|].
  rewrite <- Eo in *. rewrite He.
  destruct (_ || _).
  - eexists _, _. split; [reflexivity|].
    cbn [BPMDetector.getConfidence BPMDetector.setConfidence BPMDetector.confidence].
    split; vm_compute; reflexivity.
  - eexists _, _. split; [reflexivity|].
    cbn [BPMDetector.getConfidence BPMDetector.setConfidence BPMDetector.confidence].
    apply jlimit_unit. rewrite of_Z_10. apply mul_finite_not_nan.
    apply varianceOf_not_nan; [|exact Hfin].
    change (2 ^ 64) with 18446744073709551616.
    change (2 ^ 31) with 2147483648 in *. lia.
Qed.
End ConfidenceRange.

Lemma detectBPM_confidence_unit_witness :
  exists bpm d',
    BPMDetector.detectBPM RefPlatform.platform detector8k (clicks 2048 7168) 7168
    = Some (bpm, d')
    /\ F32.leb F32.zero (BPMDetector.getConfidence d') = true
    /\ F32.leb (BPMDetector.getConfidence d') (F32.of_Z 1) = true.
Proof.
  apply (detectBPM_confidence_unit RefPlatform.platform detector8k
           (clicks 2048 7168) 7168 clickEnvelope (F32.lit 234375 1000)).
  - vm_compute. split; discriminate.
  - exact calculateOnsetStrength_clicks.
  - vm_compute. repeat constructor.
  - vm_compute. reflexivity.
Defined.

(** ** The lag search of [estimateTempoFromOnsets] *)

Section LagSearch.
Variable onsetStrength : list float.

Lemma lagScan_rest l : forall c lag,
  (forall lag', In lag' l ->
     exists c', BPMDetector.autocorrelate onsetStrength lag' = Some c'
                /\ (c <? c')%f32 = false) ->
  foldM (BPMDetector.tryLag onsetStrength) l (c, lag) = Some (c, lag).
Proof.
  induction l as [|lag' l IH]; intros c lag Hl; [reflexivity|].
  cbn [foldM]. unfold BPMDetector.tryLag at 1.
  destruct (Hl lag' (or_introl eq_refl)) as (c' & -> & Hc). cbn [fst].
  rewrite Hc. apply IH. intros l0 H0. apply Hl. now right.
Qed.

Lemma lagScan_first_maximal l1 : forall lag l2 st c,
  (forall lag', In lag' l1 ->
     exists c', BPMDetector.autocorrelate onsetStrength lag' = Some c'
                /\ ((c' <? c)%f32 = true \/ F32.is_nan c' = true)) ->
  BPMDetector.autocorrelate onsetStrength lag = Some c ->
  (fst st <? c)%f32 = true ->
  (forall lag', In lag' l2 ->
     exists c', BPMDetector.autocorrelate onsetStrength lag' = Some c'
                /\ (c <? c')%f32 = false) ->
  foldM (BPMDetector.tryLag onsetStrength) (l1 ++ lag :: l2) st = Some (c, lag).
Proof.
  induction l1 as [|lag' l1 IH]; intros lag l2 st c H1 Hc Hst H2.
  - cbn [app foldM]. unfold BPMDetector.tryLag at 1. rewrite Hc, Hst.
    now apply lagScan_rest.
  - cbn [app foldM]. unfold BPMDetector.tryLag at 1.
    destruct (H1 lag' (or_introl eq_refl)) as (c' & -> & Hc').
    apply IH; try assumption.
    + intros l0 H0. apply H1. now right.
    + destruct (fst st <? c')%f32 eqn:E; [|exact Hst]. cbn [fst].
      destruct Hc' as [Hc' | Hc']; [exact Hc'|].
      apply ltb_true_not_nan in E. destruct E as [_ E]. congruence.
Qed.

(** The running best is the start or a lag of the list whose
    autocorrelation is positive. *)
Lemma lagScan_origin l : forall st st',
  nonnegative (fst st) = true ->
  foldM (BPMDetector.tryLag onsetStrength) l st = Some st' ->
  st' = st
  \/ exists lag, In lag l
       /\ BPMDetector.autocorrelate onsetStrength lag = Some (fst st')
       /\ snd st' = lag
       /\ (F32.zero <? fst st')%f32 = true.
Proof.
  induction l as [|lag l IH]; intros st st' Hst H; cbn [foldM] in H.
  - apply some_eq in H. now left.
  - unfold BPMDetector.tryLag at 1 in H.
    destruct (BPMDetector.autocorrelate onsetStrength lag) as [c|] eqn:Ec;
      [|discriminate H].
    assert (Hc : (fst st <? c)%f32 = true -> (F32.zero <? c)%f32 = true).
    { clear - Hst. destruct (fst st) as [[|]|[|]| |[|] m e]; try discriminate Hst;
        destruct c as [[|]|[|]| |[|] mc ec]; intros H; try discriminate H;
        reflexivity. }
    destruct (fst st <? c)%f32 eqn:E.
    + destruct (IH (c, lag) st' (positive_nonnegative _ (Hc eq_refl)) H)
        as [-> | (lag' & Hin & Ha & Hs & Hn)].
      * right. exists lag. cbn [fst snd].
        split; [now left|]. split; [exact Ec|]. split; [reflexivity|].
        now apply Hc.
      * right. exists lag'. split; [now right|]. now split.
    + destruct (IH _ _ Hst H) as [-> | (lag' & Hin & Ha & Hs & Hn)];
        [now left|].
      right. exists lag'. split; [now right|]. now split.
Qed.
End LagSearch.

Lemma lags_range minLag maxLagRange lag :
  In lag (BPMDetector.lags minLag maxLagRange) <-> minLag <= lag < maxLagRange.
Proof.
  unfold BPMDetector.lags. rewrite in_map_iff. split.
  - intros (k & <- & Hk). apply in_seq in Hk. lia.
  - intros H. exists (Z.to_nat (lag - minLag)). split; [lia|].
    apply in_seq. lia.
Qed.

(** X4.  A tempo is reported only for a lag of the search range whose
    autocorrelation is strictly positive; every other outcome is [0.0f]. *)
Theorem estimateTempoFromOnsets_origin d onsetStrength bpm :
  BPMDetector.estimateTempoFromOnsets d onsetStrength = Some bpm ->
  bpm = F32.zero
  \/ exists minLag maxLagRange lag corr,
       F32.to_int (BPMDetector.framesPerSecond d * F32.of_Z 60 / F32.of_Z 240)%f32
       = Some minLag
       /\ F32.to_int (BPMDetector.framesPerSecond d * F32.of_Z 60 / F32.of_Z 40)%f32
          = Some maxLagRange
       /\ minLag <= lag < maxLagRange
       /\ lag < Z.of_nat (length onsetStrength) / 2
       /\ lag <> 0
       /\ BPMDetector.autocorrelate onsetStrength lag = Some corr
       /\ (F32.zero <? corr)%f32 = true
       /\ bpm = BPMDetector.lagToBPM d lag.
Proof.
  unfold BPMDetector.estimateTempoFromOnsets. intros H.
  destruct (_ <? 10); [apply some_eq in H; now left|].
  destruct (BPMDetector.lagSearch d onsetStrength) as [[c bestLag]|] eqn:E;
    [|discriminate H].
  destruct (bestLag =? 0) eqn:E0; apply some_eq in H; [now left|].
  apply Z.eqb_neq in E0. right.
  unfold BPMDetector.lagSearch in E. cbv zeta in E.
  destruct (F32.to_int _) as [minLag|] eqn:E1; [|discriminate E].
  destruct (F32.to_int (_ / F32.of_Z 40)%f32) as [maxLagRange|] eqn:E2;
    [|discriminate E].
  apply lagScan_origin in E; [|reflexivity].
  destruct E as [E | (lag & Hin & Ha & Hs & Hp)].
  - injection E as _ E. congruence.
  - cbn [fst snd] in *. subst lag. apply lags_range in Hin.
    exists minLag, maxLagRange, bestLag, c.
    repeat split; try assumption; try lia. now symmetry.
Qed.

Lemma estimateTempoFromOnsets_origin_witness :
  F32.lit 234375 1000 = F32.zero
  \/ exists minLag maxLagRange lag corr,
       F32.to_int (BPMDetector.framesPerSecond detector8k * F32.of_Z 60
                   / F32.of_Z 240)%f32 = Some minLag
       /\ F32.to_int (BPMDetector.framesPerSecond detector8k * F32.of_Z 60
                      / F32.of_Z 40)%f32 = Some maxLagRange
       /\ minLag <= lag < maxLagRange
       /\ lag < Z.of_nat (length clickEnvelope) / 2
       /\ lag <> 0
       /\ BPMDetector.autocorrelate clickEnvelope lag = Some corr
       /\ (F32.zero <? corr)%f32 = true
       /\ F32.lit 234375 1000 = BPMDetector.lagToBPM detector8k lag.
Proof.
  apply (estimateTempoFromOnsets_origin detector8k clickEnvelope).
  vm_compute. reflexivity.
Defined.

(** X5.  The lag search keeps the first lag, in increasing order, whose
    autocorrelation is the greatest and positive (a later lag replaces it
    only when strictly greater, and a NaN autocorrelation never does); the
    tempo is converted from that lag, except that lag 0 is answered
    [0.0f]. *)
Theorem estimateTempoFromOnsets_first_maximal
        d onsetStrength minLag maxLagRange l1 lag l2 corr :
  10 <= Z.of_nat (length onsetStrength) ->
  F32.to_int (BPMDetector.framesPerSecond d * F32.of_Z 60 / F32.of_Z 240)%f32
  = Some minLag ->
  F32.to_int (BPMDetector.framesPerSecond d * F32.of_Z 60 / F32.of_Z 40)%f32
  = Some maxLagRange ->
  BPMDetector.lags minLag (Z.min maxLagRange (Z.of_nat (length onsetStrength) / 2))
  = l1 ++ lag :: l2 ->
  BPMDetector.autocorrelate onsetStrength lag = Some corr ->
  (F32.zero <? corr)%f32 = true ->
  (forall lag', In lag' l1 ->
     exists c', BPMDetector.autocorrelate onsetStrength lag' = Some c'
                /\ ((c' <? corr)%f32 = true \/ F32.is_nan c' = true)) ->
  (forall lag', In lag' l2 ->
     exists c', BPMDetector.autocorrelate onsetStrength lag' = Some c'
                /\ (corr <? c')%f32 = false) ->
  BPMDetector.estimateTempoFromOnsets d onsetStrength
  = Some (if lag =? 0 then F32.zero else BPMDetector.lagToBPM d lag).
Proof.
  intros Hlen Hmin Hmax Hl Hc Hpos H1 H2.
  unfold BPMDetector.estimateTempoFromOnsets.
  replace (Z.of_nat (length onsetStrength) <? 10) with false
    by (symmetry; apply Z.ltb_ge; lia).
  unfold BPMDetector.lagSearch. cbv zeta. rewrite Hmin, Hmax, Hl.
  rewrite (lagScan_first_maximal onsetStrength l1 lag l2 (F32.zero, 0) corr
             H1 Hc Hpos H2).
  now destruct (lag =? 0).
Qed.

Lemma estimateTempoFromOnsets_first_maximal_witness :
  BPMDetector.estimateTempoFromOnsets detector8k clickEnvelope
  = Some (if 4 =? 0 then F32.zero else BPMDetector.lagToBPM detector8k 4).
Proof.
  apply (estimateTempoFromOnsets_first_maximal detector8k clickEnvelope 3 23
           [3] 4 [] (S754_finite false 16751492 (-7))).
  - vm_compute. discriminate.
  - vm_compute. reflexivity.
  - vm_compute. reflexivity.
  - vm_compute. reflexivity.
  - vm_compute. reflexivity.
  - vm_compute. reflexivity.
  - intros lag' [<- | []]. exists (S754_finite false 9586929 (-7)).
    split; [vm_compute; reflexivity | left; vm_compute; reflexivity].
  - intros lag' [].
Defined.

(** ** The samples the frame loops read *)

Lemma read_prefix a b start size n :
  0 <= start -> 0 <= size -> start + size <= n ->
  n <= Z.of_nat (length a) -> n <= Z.of_nat (length b) ->
  firstn (Z.to_nat n) a = firstn (Z.to_nat n) b ->
  read a start size = read b start size.
Proof.
  intros Hs Hz Hn Ha Hb E.
  rewrite !read_inside by lia. f_equal.
  rewrite !firstn_skipn_comm.
  replace (Z.to_nat start + Z.to_nat size)%nat
    with (Nat.min (Z.to_nat start + Z.to_nat size) (Z.to_nat n)) by lia.
  rewrite <- !firstn_firstn. now rewrite E.
Qed.

Lemma frameStarts_before_last_hop numSamples fftSize hopSize s :
  0 < hopSize -> fftSize <= numSamples ->
  In s (frameStarts numSamples fftSize hopSize) ->
  0 <= s /\ s + fftSize <= numSamples - hopSize.
Proof.
  intros Hh Hn H. unfold frameStarts in H.
  apply in_map_iff in H. destruct H as (frame & <- & H).
  apply in_seq in H. rewrite Z.quot_div_nonneg in H by lia.
  assert (Hf : Z.of_nat frame + 1 <= (numSamples - fftSize) / hopSize) by lia.
  assert (hopSize * ((numSamples - fftSize) / hopSize) <= numSamples - fftSize)
    by (apply Z.mul_div_le; lia).
  split; [lia|]. nia.
Qed.

Lemma foldM_ext {A B : Type} (f g : A -> B -> option A) l :
  (forall b, In b l -> forall a, f a b = g a b) ->
  forall a, foldM f l a = foldM g l a.
Proof.
  induction l as [|b l IH]; intros H a; [reflexivity|].
  cbn [foldM]. rewrite (H b (or_introl eq_refl)).
  destruct (g a b); [|reflexivity].
  apply IH. intros b' Hb'. apply H. now right.
Qed.

Section LastHop.
Context (P : Platform).

(** X6.  [detectBPM] never reads the last [hopSize] samples of the buffer it
    is given: two buffers that agree on the first [numSamples - 512]
    samples get the same answer (and the call is defined on a buffer that
    holds no more than these). *)
Theorem detectBPM_ignores_last_hop d a b numSamples :
  numSamples - BPMDetector.hopSize <= Z.of_nat (length a) ->
  numSamples - BPMDetector.hopSize <= Z.of_nat (length b) ->
  firstn (Z.to_nat (numSamples - BPMDetector.hopSize)) a
  = firstn (Z.to_nat (numSamples - BPMDetector.hopSize)) b ->
  BPMDetector.detectBPM P d a numSamples = BPMDetector.detectBPM P d b numSamples.
Proof.
  intros Ha Hb E. unfold BPMDetector.detectBPM.
  destruct (numSamples <? BPMDetector.fftSize) eqn:Hn; [reflexivity|].
  apply Z.ltb_ge in Hn.
  replace (BPMDetector.calculateOnsetStrength P b numSamples)
    with (BPMDetector.calculateOnsetStrength P a numSamples); [reflexivity|].
  unfold BPMDetector.calculateOnsetStrength.
  rewrite (foldM_ext (BPMDetector.onsetFrame P a) (BPMDetector.onsetFrame P b));
    [reflexivity|].
  intros s Hs st. unfold BPMDetector.onsetFrame.
  apply frameStarts_before_last_hop in Hs;
    [|reflexivity | exact Hn].
  rewrite (read_prefix a b s BPMDetector.fftSize
             (numSamples - BPMDetector.hopSize));
    try assumption; try reflexivity; try lia.
  unfold BPMDetector.fftSize. lia.
Qed.

(** X7.  Likewise [detectKey] never reads the last 512 samples. *)
Theorem detectKey_ignores_last_hop d a b numSamples :
  numSamples - KeyDetector.hopSize <= Z.of_nat (length a) ->
  numSamples - KeyDetector.hopSize <= Z.of_nat (length b) ->
  firstn (Z.to_nat (numSamples - KeyDetector.hopSize)) a
  = firstn (Z.to_nat (numSamples - KeyDetector.hopSize)) b ->
  KeyDetector.detectKey P d a numSamples = KeyDetector.detectKey P d b numSamples.
Proof.
  intros Ha Hb E. unfold KeyDetector.detectKey.
  destruct (numSamples <? KeyDetector.fftSize) eqn:Hn; [reflexivity|].
  apply Z.ltb_ge in Hn.
  replace (KeyDetector.calculateChromagram P d b numSamples)
    with (KeyDetector.calculateChromagram P d a numSamples); [reflexivity|].
  unfold KeyDetector.calculateChromagram.
  apply foldM_ext.
  intros s Hs st. unfold KeyDetector.addFrame.
  apply frameStarts_before_last_hop in Hs;
    [|reflexivity | exact Hn].
  rewrite (read_prefix a b s KeyDetector.fftSize
             (numSamples - KeyDetector.hopSize));
    try assumption; try reflexivity; try lia.
  unfold KeyDetector.fftSize. lia.
Qed.
End LastHop.

Lemma detectBPM_ignores_last_hop_witness :
  BPMDetector.detectBPM RefPlatform.platform BPMDetector.init (silence 2560) 2560
  = BPMDetector.detectBPM RefPlatform.platform BPMDetector.init
      (silence 2048 ++ repeat (F32.of_Z 1) 512) 2560.
Proof.
  apply (detectBPM_ignores_last_hop RefPlatform.platform BPMDetector.init
           (silence 2560) (silence 2048 ++ repeat (F32.of_Z 1) 512) 2560).
  - vm_compute. discriminate.
  - vm_compute. discriminate.
  - vm_compute. reflexivity.
Defined.

Lemma detectKey_ignores_last_hop_witness :
  KeyDetector.detectKey RefPlatform.platform KeyDetector.init (silence 4608) 4608
  = KeyDetector.detectKey RefPlatform.platform KeyDetector.init
      (silence 4096 ++ repeat (F32.of_Z 1) 512) 4608.
Proof.
  apply (detectKey_ignores_last_hop RefPlatform.platform KeyDetector.init
           (silence 4608) (silence 4096 ++ repeat (F32.of_Z 1) 512) 4608).
  - vm_compute. discriminate.
  - vm_compute. discriminate.
  - vm_compute. reflexivity.
Defined.

(** ** Calls that stay inside their buffers *)

Lemma lagScan_defined onsetStrength l : forall st,
  (forall lag, In lag l -> 0 <= lag <= Z.of_nat (length onsetStrength)) ->
  exists st', foldM (BPMDetector.tryLag onsetStrength) l st = Some st'.
Proof.
  induction l as [|lag l IH]; intros st H; cbn [foldM]; [now exists st|].
  unfold BPMDetector.tryLag at 1, BPMDetector.autocorrelate. cbv zeta.
  destruct (H lag (or_introl eq_refl)) as [H0 H1].
  replace ((0 <=? lag) && (lag <=? Z.of_nat (length onsetStrength))) with true
    by (symmetry; apply andb_true_iff; split; apply Z.leb_le; lia).
  apply IH. intros lag' Hl. apply H. now right.
Qed.

Section Defined.
Context (P : Platform).

(** X8.  [detectBPM] stays inside its buffers, whatever the samples are
    (NaN and infinities included): it is defined as soon as the buffer
    holds [numSamples - 512] samples and the two lag bounds convert to
    [int] with the lower one not negative (a sample rate that is not
    negative). *)
Theorem detectBPM_defined d audioData numSamples minLag maxLagRange :
  numSamples - BPMDetector.hopSize <= Z.of_nat (length audioData) ->
  F32.to_int (BPMDetector.framesPerSecond d * F32.of_Z 60 / F32.of_Z 240)%f32
  = Some minLag ->
  F32.to_int (BPMDetector.framesPerSecond d * F32.of_Z 60 / F32.of_Z 40)%f32
  = Some maxLagRange ->
  0 <= minLag ->
  exists bpm d', BPMDetector.detectBPM P d audioData numSamples = Some (bpm, d').
Proof.
  intros Hlen Hmin Hmax H0. unfold BPMDetector.detectBPM.
  destruct (numSamples <? BPMDetector.fftSize) eqn:Hn; [now eexists _, _|].
  apply Z.ltb_ge in Hn. unfold BPMDetector.calculateOnsetStrength.
  destruct (onsetFrames_defined P audioData
              (frameStarts numSamples BPMDetector.fftSize BPMDetector.hopSize)
              ([], repeat F32.zero (Z.to_nat (BPMDetector.fftSize / 2))))
    as [[o prev] E].
  { intros s Hs.
    apply frameStarts_before_last_hop in Hs; [lia | reflexivity | exact Hn]. }
  rewrite E. destruct o as [|v l] eqn:Eo; [now eexists _, _|].
  rewrite <- Eo. clear Eo.
  assert (He : exists b, BPMDetector.estimateTempoFromOnsets d o = Some b).
  { unfold BPMDetector.estimateTempoFromOnsets.
    destruct (_ <? 10); [now eexists|].
    unfold BPMDetector.lagSearch. cbv zeta. rewrite Hmin, Hmax.
    destruct (lagScan_defined o
                (BPMDetector.lags minLag
                   (Z.min maxLagRange (Z.of_nat (length o) / 2)))
                (F32.zero, 0)) as [[c bestLag] ->].
    - intros lag Hl. apply lags_range in Hl.
      assert (Z.of_nat (length o) / 2 <= Z.of_nat (length o))
        by (apply Z.div_le_upper_bound; lia).
      lia.
    - destruct (bestLag =? 0); now eexists. }
  destruct He as [b ->]. destruct (_ || _); now eexists _, _.
Qed.
End Defined.

Lemma detectBPM_defined_witness :
  exists bpm d',
    BPMDetector.detectBPM RefPlatform.platform BPMDetector.init
      (repeat S754_nan 2048) 2560 = Some (bpm, d').
Proof.
  apply (detectBPM_defined RefPlatform.platform BPMDetector.init
           (repeat S754_nan 2048) 2560 21 129).
  - vm_compute. discriminate.
  - vm_compute. reflexivity.
  - vm_compute. reflexivity.
  - lia.
Defined.

(** ** The tempos of the default sample rate *)

Lemma lagSearch_origin_default onsetStrength b :
  BPMDetector.estimateTempoFromOnsets BPMDetector.init onsetStrength = Some b ->
  b = F32.zero
  \/ exists lag, 21 <= lag <= 128
                 /\ b = BPMDetector.lagToBPM BPMDetector.init lag.
Proof.
  unfold BPMDetector.estimateTempoFromOnsets. intros H.
  destruct (_ <? 10); [apply some_eq in H; now left|].
  destruct (BPMDetector.lagSearch BPMDetector.init onsetStrength)
    as [[c bestLag]|] eqn:E; [|discriminate H].
  destruct (bestLag =? 0) eqn:E0; apply some_eq in H; [now left|].
  apply Z.eqb_neq in E0. right. exists bestLag. split; [|now symmetry].
  unfold BPMDetector.lagSearch in E. cbv zeta in E.
  replace (F32.to_int (BPMDetector.framesPerSecond BPMDetector.init
                       * F32.of_Z 60 / F32.of_Z 240)%f32)
    with (Some 21) in E by (vm_compute; reflexivity).
  replace (F32.to_int (BPMDetector.framesPerSecond BPMDetector.init
                       * F32.of_Z 60 / F32.of_Z 40)%f32)
    with (Some 129) in E by (vm_compute; reflexivity).
  apply lagScan_origin in E; [|reflexivity].
  destruct E as [E | (lag & Hin & _ & Hs & _)].
  - injection E as _ E. congruence.
  - cbn [snd] in Hs. subst lag. apply lags_range in Hin. lia.
Qed.

Section DefaultRate.
Context (P : Platform).

(** X9.  On a detector left at its default 44100 Hz [detectBPM] can only
    answer 0, 120, or the tempo of a lag from 22 to 128: the lower end of
    the search range, lag 21, is never reported, because its tempo is above
    240 and the range check replaces it by 120. *)
Theorem detectBPM_default_rate audioData numSamples bpm d' :
  BPMDetector.detectBPM P BPMDetector.init audioData numSamples = Some (bpm, d') ->
  bpm = F32.zero \/ bpm = F32.of_Z 120
  \/ exists lag, 22 <= lag <= 128
                 /\ bpm = BPMDetector.lagToBPM BPMDetector.init lag.
Proof.
  unfold BPMDetector.detectBPM. intros H.
  destruct (numSamples <? BPMDetector.fftSize);
    [apply some_eq in H; injection H as <- _; now left|].
  destruct (BPMDetector.calculateOnsetStrength P audioData numSamples)
    as [[|v l]|]; [apply some_eq in H; injection H as <- _; now left| |discriminate H].
  destruct (BPMDetector.estimateTempoFromOnsets BPMDetector.init (v :: l))
    as [b|] eqn:He; [|discriminate H].
  destruct ((b <? F32.of_Z 40)%f32 || (F32.of_Z 240 <? b)%f32) eqn:Hg;
    apply some_eq in H; injection H as <- _; [right; now left|].
  apply lagSearch_origin_default in He.
  destruct He as [-> | (lag & Hl & ->)]; [now left|]. right. right.
  exists lag. split; [|reflexivity].
  destruct (Z.eq_dec lag 21) as [-> | Hne]; [|lia].
  exfalso. apply orb_false_iff in Hg. destruct Hg as [_ Hg].
  vm_compute in Hg. discriminate Hg.
Qed.
End DefaultRate.

Lemma detectBPM_default_rate_witness :
  F32.zero = F32.zero \/ F32.zero = F32.of_Z 120
  \/ exists lag, 22 <= lag <= 128
                 /\ F32.zero = BPMDetector.lagToBPM BPMDetector.init lag.
Proof.
  apply (detectBPM_default_rate RefPlatform.platform (silence 100) 100
           F32.zero BPMDetector.init).
  reflexivity.
Defined.

(** ** The ring buffer of [processBlock] *)

Lemma store_nth_same a : forall i v d,
  (i < length a)%nat -> nth i (store a i v) d = v.
Proof.
  induction a as [|x a IH]; intros [|i] v d H; cbn [length] in H;
    cbn [store nth]; try lia; [reflexivity|].
  apply IH. lia.
Qed.

Lemma store_nth_other a : forall i k v d,
  i <> k -> nth k (store a i v) d = nth k a d.
Proof.
  induction a as [|x a IH]; intros [|i] [|k] v d H; cbn [store nth];
    try reflexivity; try lia.
  apply IH. lia.
Qed.

Lemma map_nth_seq (a : list float) d :
  map (fun k => nth k a d) (seq 0 (length a)) = a.
Proof.
  induction a as [|x a IH]; [reflexivity|].
  cbn [length seq map nth]. f_equal.
  rewrite <- seq_shift, map_map. exact IH.
Qed.

Lemma writeSamples_ring size src : forall dst writePos,
  0 < size -> Z.of_nat (length dst) = size -> 0 <= writePos < size ->
  Z.of_nat (length src) <= size ->
  foldM (PluginProcessor.writeSample size) src (dst, writePos)
  = Some (ringWrite size dst writePos src,
          (writePos + Z.of_nat (length src)) mod size).
Proof.
  induction src as [|v rest IH]; intros dst writePos Hsize Hdst Hpos Hsrc.
  - cbn [foldM length Z.of_nat]. unfold ringWrite. cbn [length Z.of_nat].
    rewrite Z.add_0_r, Z.mod_small by lia. do 2 f_equal.
    symmetry. etransitivity; [|apply (map_nth_seq dst F32.zero)].
    apply map_ext. intros k. cbv zeta.
    destruct (_ <? 0) eqn:E; [|reflexivity].
    apply Z.ltb_lt in E.
    pose proof (Z.mod_pos_bound (Z.of_nat k - writePos) size Hsize). lia.
  - cbn [foldM]. unfold PluginProcessor.writeSample at 1.
    replace ((0 <=? writePos) && (writePos <? Z.of_nat (length dst))
             && negb (size =? 0)) with true
      by (symmetry; rewrite !andb_true_iff, negb_true_iff;
          repeat split; [apply Z.leb_le | apply Z.ltb_lt | apply Z.eqb_neq]; lia).
    rewrite Z.rem_mod_nonneg by lia.
    cbn [length] in Hsrc. rewrite Nat2Z.inj_succ in Hsrc.
    rewrite IH; try lia;
      [|rewrite store_length; exact Hdst | apply Z.mod_pos_bound; lia].
    f_equal. f_equal.
    + unfold ringWrite. rewrite store_length. apply map_ext_in.
      intros k Hk. apply in_seq in Hk. cbv zeta.
      cbn [length]. rewrite Nat2Z.inj_succ.
      rewrite Zminus_mod_idemp_r.
      destruct (Z.eq_dec (Z.of_nat k) writePos) as [Ek | Ek].
      * replace (Z.of_nat k - (writePos + 1)) with (-1 * 1 + (size + -1 * size))
          by lia.
        rewrite Z.add_assoc, Z_mod_plus_full.
        replace (-1 * 1 + size) with (size - 1) by lia.
        rewrite Z.mod_small by lia.
        replace (Z.of_nat k - writePos) with 0 by lia.
        rewrite Z.mod_0_l by lia.
        replace (size - 1 <? Z.of_nat (length rest)) with false
          by (symmetry; apply Z.ltb_ge; lia).
        replace (0 <? Z.succ (Z.of_nat (length rest))) with true
          by (symmetry; apply Z.ltb_lt; lia).
        cbn [Z.to_nat nth].
        replace (Z.to_nat writePos) with k by lia.
        apply store_nth_same. lia.
      * set (j := (Z.of_nat k - writePos) mod size).
        pose proof (Z.mod_pos_bound (Z.of_nat k - writePos) size Hsize) as Hj.
        fold j in Hj.
        assert (Hj0 : j <> 0).
        { intros E. unfold j in E.
          apply Z.mod_divide in E; [|lia]. destruct E as [q E].
          assert (q = 0) by nia. subst q. lia. }
        assert (Hj' : (Z.of_nat k - (writePos + 1)) mod size = j - 1).
        { replace (Z.of_nat k - (writePos + 1))
            with ((Z.of_nat k - writePos) - 1) by lia.
          rewrite <- Zminus_mod_idemp_l. fold j. apply Z.mod_small. lia. }
        rewrite Hj'.
        destruct (j - 1 <? Z.of_nat (length rest)) eqn:E1.
        -- apply Z.ltb_lt in E1.
           replace (j <? Z.succ (Z.of_nat (length rest))) with true
             by (symmetry; apply Z.ltb_lt; lia).
           replace (Z.to_nat j) with (S (Z.to_nat (j - 1))) by lia.
           reflexivity.
        -- apply Z.ltb_ge in E1.
           replace (j <? Z.succ (Z.of_nat (length rest))) with false
             by (symmetry; apply Z.ltb_ge; lia).
           apply store_nth_other. lia.
    + rewrite Zplus_mod_idemp_l. f_equal. cbn [length]. lia.
Qed.

(** X10.  One stereo block during analysis.  The block is handed back
    unchanged; the left channel is written into the ring from the write
    position on, the right channel from [numSamples] positions further
    (the position is shared by the two channel loops and is not rewound
    between them), and the position advances by twice the block length. *)
Theorem processBlock_stereo p left right a0 a1 :
  PluginProcessor.analyzing p = true ->
  PluginProcessor.analysisBuffer p = [a0; a1] ->
  Z.of_nat (length a0) = PluginProcessor.analysisBufferSize p ->
  Z.of_nat (length a1) = PluginProcessor.analysisBufferSize p ->
  0 <= PluginProcessor.analysisBufferWritePos p
    < PluginProcessor.analysisBufferSize p ->
  length right = length left ->
  Z.of_nat (length left) <= PluginProcessor.analysisBufferSize p ->
  let size := PluginProcessor.analysisBufferSize p in
  let writePos := PluginProcessor.analysisBufferWritePos p in
  let numSamples := Z.of_nat (length left) in
  PluginProcessor.processBlock p 2 2 [left; right]
  = Some ([left; right],
          PluginProcessor.setAnalysis p
            [ ringWrite size a0 writePos left;
              ringWrite size a1 ((writePos + numSamples) mod size) right ]
            ((writePos + 2 * numSamples) mod size) true).
Proof.
  intros Han Hbuf H0 H1 Hpos Hlr Hn size writePos numSamples.
  unfold PluginProcessor.processBlock.
  change (Z.to_nat (2 - 2)) with 0%nat. cbn [seq map foldM].
  rewrite Han, Hbuf.
  change (Z.to_nat (Z.min (PluginProcessor.getNumChannels [left; right])
                          (PluginProcessor.getNumChannels [a0; a1])))
    with 2%nat.
  cbn [seq foldM]. unfold PluginProcessor.copyChannel at 1. cbn [nth].
  rewrite writeSamples_ring by lia.
  cbn [PluginProcessor.setChannel].
  unfold PluginProcessor.copyChannel at 1. cbn [nth].
  rewrite writeSamples_ring; try lia;
    [|apply Z.mod_pos_bound; lia].
  cbn [PluginProcessor.setChannel]. do 3 f_equal.
  rewrite Hlr, Zplus_mod_idemp_l. f_equal. fold numSamples. lia.
Qed.

(** ** The processor over sequences of calls *)

Lemma foldM_invariant_in {A B : Type} (Inv : A -> Prop) (f : A -> B -> option A) l :
  (forall a b a', In b l -> Inv a -> f a b = Some a' -> Inv a') ->
  forall a a', Inv a -> foldM f l a = Some a' -> Inv a'.
Proof.
  induction l as [|b l IH]; intros Hf a a' Ha H; cbn [foldM] in H.
  - apply some_eq in H. now subst.
  - destruct (f a b) as [a1|] eqn:E; [|discriminate].
    apply (IH (fun a b a' Hb => Hf a b a' (or_intror Hb)) a1 a');
      [|exact H].
    exact (Hf a b a1 (or_introl eq_refl) Ha E).
Qed.

Lemma setChannel_length b : forall i c,
  length (PluginProcessor.setChannel b i c) = length b.
Proof.
  induction b as [|x b IH]; intros [|i] c; cbn [PluginProcessor.setChannel length];
    try reflexivity. now rewrite IH.
Qed.

Lemma setChannel_Forall (Q : list float -> Prop) b : forall i c,
  Forall Q b -> Q c -> Forall Q (PluginProcessor.setChannel b i c).
Proof.
  induction b as [|x b IH]; intros [|i] c Hb Hc; cbn [PluginProcessor.setChannel];
    try constructor; inversion Hb; subst; try assumption.
  now apply IH.
Qed.

Lemma writeSample_shape size st v st' :
  0 <= size ->
  PluginProcessor.writeSample size st v = Some st' ->
  length (fst st') = length (fst st) /\ 0 <= snd st' < size.
Proof.
  intros Hsize H. destruct st as [dst writePos].
  unfold PluginProcessor.writeSample in H.
  destruct ((0 <=? writePos) && (writePos <? Z.of_nat (length dst))
            && negb (size =? 0)) eqn:E; [|discriminate H].
  apply some_eq in H. subst st'. cbn [fst snd].
  rewrite !andb_true_iff, negb_true_iff in E. destruct E as [[E1 E2] E3].
  apply Z.leb_le in E1. apply Z.eqb_neq in E3.
  split; [apply store_length|].
  rewrite Z.rem_mod_nonneg by lia. apply Z.mod_pos_bound. lia.
Qed.

Lemma writeSamples_shape size src : forall st st',
  0 <= size -> 0 <= snd st -> snd st < size \/ snd st = 0 ->
  foldM (PluginProcessor.writeSample size) src st = Some st' ->
  length (fst st') = length (fst st)
  /\ 0 <= snd st' /\ (snd st' < size \/ snd st' = 0).
Proof.
  induction src as [|v rest IH]; intros st st' Hsize H0 H1 H; cbn [foldM] in H.
  - apply some_eq in H. now subst.
  - destruct (PluginProcessor.writeSample size st v) as [st1|] eqn:E;
      [|discriminate H].
    destruct (writeSample_shape _ _ _ _ Hsize E) as [Hl Hp].
    destruct (IH st1 st' Hsize) as (Hl' & Hp'); try assumption; lia.
Qed.

Lemma copyChannel_shape buffer size st channel st' :
  0 <= size -> (channel < length (fst st))%nat ->
  ringShape size st ->
  PluginProcessor.copyChannel buffer size st channel = Some st' ->
  length (fst st') = length (fst st) /\ ringShape size st'.
Proof.
  intros Hsize Hch (Hf & H0 & H1) H. destruct st as [analysis writePos].
  cbn [fst snd] in *. unfold PluginProcessor.copyChannel in H.
  destruct (foldM _ _ _) as [[dst writePos']|] eqn:E; [|discriminate H].
  apply some_eq in H. subst st'. cbn [fst snd].
  apply writeSamples_shape in E; try assumption. cbn [fst snd] in E.
  destruct E as (El & Ep). split; [apply setChannel_length|].
  split; [|exact Ep]. cbn [fst].
  apply setChannel_Forall; [exact Hf|]. rewrite El.
  exact (proj1 (Forall_forall _ _) Hf _ (nth_In _ _ Hch)).
Qed.

Lemma clear_shape size b :
  Forall (fun c : list float => Z.of_nat (length c) = size) b ->
  Forall (fun c : list float => Z.of_nat (length c) = size)
         (PluginProcessor.clear b).
Proof.
  intros H. unfold PluginProcessor.clear. apply Forall_map.
  revert H. apply Forall_impl. intros c Hc. now rewrite length_map.
Qed.

Lemma copyChannels_shape buffer size analysis writePos n st' :
  0 <= size -> (n <= length analysis)%nat ->
  ringShape size (analysis, writePos) ->
  foldM (PluginProcessor.copyChannel buffer size) (seq 0 n) (analysis, writePos)
  = Some st' ->
  ringShape size st'.
Proof.
  intros Hsize Hn Hs H.
  apply (foldM_invariant_in
           (fun st => length (fst st) = length analysis /\ ringShape size st)
           (PluginProcessor.copyChannel buffer size) (seq 0 n))
    with (a := (analysis, writePos)); [|split; [reflexivity | exact Hs] | exact H].
  intros a b a' Hb [Hl Ha] Hc. apply in_seq in Hb. cbv beta.
  destruct (copyChannel_shape buffer size a b a' Hsize) as [Hl' Ha'];
    try assumption; [lia|].
  split; [exact (eq_trans Hl' Hl) | exact Ha'].
Qed.

Lemma perform_shape p c p' :
  0 <= PluginProcessor.analysisBufferSize p ->
  ringShape (PluginProcessor.analysisBufferSize p)
            (PluginProcessor.analysisBuffer p,
             PluginProcessor.analysisBufferWritePos p) ->
  PluginProcessor.perform p c = Some p' ->
  0 <= PluginProcessor.analysisBufferSize p'
  /\ ringShape (PluginProcessor.analysisBufferSize p')
               (PluginProcessor.analysisBuffer p',
                PluginProcessor.analysisBufferWritePos p').
Proof.
  intros Hsize Hs H. destruct c as [sr spb | tin tout buffer | | |];
    cbn [PluginProcessor.perform] in H.
  - unfold PluginProcessor.prepareToPlay in H.
    destruct (F32.to_int _) as [size|]; [|discriminate H].
    destruct (0 <=? size) eqn:E; [|discriminate H].
    apply Z.leb_le in E. apply some_eq in H. subst p'.
    cbn [PluginProcessor.analysisBufferSize PluginProcessor.analysisBuffer
         PluginProcessor.analysisBufferWritePos].
    split; [exact E|]. split; [|cbn [snd]; lia]. cbn [fst].
    repeat constructor; rewrite repeat_length; lia.
  - unfold PluginProcessor.processBlock in H.
    destruct (foldM PluginProcessor.clearOutput _ _) as [buffer1|];
      [|discriminate H].
    destruct (PluginProcessor.analyzing p);
      [|cbn [option_map snd] in H; apply some_eq in H; now subst p'].
    cbv zeta in H.
    destruct (foldM (PluginProcessor.copyChannel _ _) _ _)
      as [[analysis writePos]|] eqn:E; [|discriminate H].
    cbn [option_map snd] in H. apply some_eq in H. subst p'.
    cbn [PluginProcessor.setAnalysis PluginProcessor.analysisBufferSize
         PluginProcessor.analysisBuffer PluginProcessor.analysisBufferWritePos].
    split; [exact Hsize|].
    apply copyChannels_shape in E; try assumption.
    unfold PluginProcessor.getNumChannels. lia.
  - apply some_eq in H. subst p'. unfold PluginProcessor.startAnalysis.
    destruct (negb _); [|now split].
    cbn [PluginProcessor.setAnalysis PluginProcessor.analysisBufferSize
         PluginProcessor.analysisBuffer PluginProcessor.analysisBufferWritePos].
    split; [exact Hsize|]. destruct Hs as (Hf & _).
    split; [now apply clear_shape | cbn [snd]; lia].
  - apply some_eq in H. subst p'. now split.
  - apply some_eq in H. subst p'. now split.
Qed.


(** X11.  Whatever the host calls, in whatever order (sample rates and
    blocks of any size included), every channel of the analysis buffer keeps
    [analysisBufferSize] samples and the write position stays inside it. *)
Theorem run_ring_shape calls p :
  PluginProcessor.run calls = Some p ->
  0 <= PluginProcessor.analysisBufferSize p
  /\ Forall (fun c => Z.of_nat (length c) = PluginProcessor.analysisBufferSize p)
            (PluginProcessor.analysisBuffer p)
  /\ 0 <= PluginProcessor.analysisBufferWritePos p
  /\ (PluginProcessor.analysisBufferWritePos p
      < PluginProcessor.analysisBufferSize p
      \/ PluginProcessor.analysisBufferWritePos p = 0).
Proof.
  unfold PluginProcessor.run. intros H.
  apply (foldM_invariant
           (fun p => 0 <= PluginProcessor.analysisBufferSize p
                     /\ ringShape (PluginProcessor.analysisBufferSize p)
                                  (PluginProcessor.analysisBuffer p,
                                   PluginProcessor.analysisBufferWritePos p))
           PluginProcessor.perform) in H.
  - destruct H as (Hsize & Hf & Hp). cbn [fst snd] in *. now split.
  - intros a b a' [Hsize Hs] Hb. exact (perform_shape a b a' Hsize Hs Hb).
  - split; [reflexivity|]. split; [constructor | cbn; lia].
Qed.

Section Display.
Variable toString : float -> string.

End Display.

(** ** The editor *)

Section Editor.
Variable toString : float -> string.

(** X13.  After a timer tick the button reads "Stop Analysis" exactly when
    the analysis runs, whoever started or stopped it; and a click toggles
    the analysis and the label together. *)
Theorem analyzeButton_follows_state p e :
  PluginEditor.analyzeButton e = "Start Analysis"%string
  \/ PluginEditor.analyzeButton e = "Stop Analysis"%string ->
  PluginEditor.analyzeButton (PluginEditor.timerCallback toString p e)
  = (if PluginProcessor.isAnalyzing p then "Stop Analysis" else "Start Analysis")%string
  /\ PluginProcessor.isAnalyzing (fst (PluginEditor.onClick p e))
     = negb (PluginProcessor.isAnalyzing p)
  /\ PluginEditor.analyzeButton (snd (PluginEditor.onClick p e))
     = (if PluginProcessor.isAnalyzing (fst (PluginEditor.onClick p e))
        then "Stop Analysis" else "Start Analysis")%string.
Proof.
  intros He. split; [|split].
  - unfold PluginEditor.timerCallback. cbv zeta.
    cbn [PluginEditor.analyzeButton].
    destruct (PluginProcessor.isAnalyzing p); destruct He as [-> | ->];
      reflexivity.
  - unfold PluginEditor.onClick, PluginProcessor.isAnalyzing.
    destruct (PluginProcessor.analyzing p) eqn:E; cbn [fst negb].
    + reflexivity.
    + unfold PluginProcessor.startAnalysis. rewrite E. reflexivity.
  - unfold PluginEditor.onClick, PluginProcessor.isAnalyzing.
    destruct (PluginProcessor.analyzing p) eqn:E; cbn [fst snd].
    + reflexivity.
    + unfold PluginProcessor.startAnalysis. rewrite E. reflexivity.
Qed.
End Editor.

Lemma analyzeButton_follows_state_witness :
  PluginEditor.analyzeButton
    (PluginEditor.timerCallback (fun _ => ""%string) tinyProcessor PluginEditor.init)
  = (if PluginProcessor.isAnalyzing tinyProcessor
     then "Stop Analysis" else "Start Analysis")%string
  /\ PluginProcessor.isAnalyzing
       (fst (PluginEditor.onClick tinyProcessor PluginEditor.init))
     = negb (PluginProcessor.isAnalyzing tinyProcessor)
  /\ PluginEditor.analyzeButton
       (snd (PluginEditor.onClick tinyProcessor PluginEditor.init))
     = (if PluginProcessor.isAnalyzing
             (fst (PluginEditor.onClick tinyProcessor PluginEditor.init))
        then "Stop Analysis" else "Start Analysis")%string.
Proof.
  apply (analyzeButton_follows_state (fun _ => ""%string) tinyProcessor
           PluginEditor.init).
  left. reflexivity.
Defined.

(** ** The processor on a ring of five samples *)

Lemma processBlock_stereo_witness :
  PluginProcessor.processBlock tinyProcessor 2 2
    [[F32.of_Z 1; F32.of_Z 2]; [F32.of_Z 3; F32.of_Z 4]]
  = Some ([[F32.of_Z 1; F32.of_Z 2]; [F32.of_Z 3; F32.of_Z 4]],
          PluginProcessor.setAnalysis tinyProcessor
            [ ringWrite 5 (repeat F32.zero 5) 0 [F32.of_Z 1; F32.of_Z 2];
              ringWrite 5 (repeat F32.zero 5) ((0 + 2) mod 5)
                        [F32.of_Z 3; F32.of_Z 4] ]
            ((0 + 2 * 2) mod 5) true).
Proof.
  apply (processBlock_stereo tinyProcessor
           [F32.of_Z 1; F32.of_Z 2] [F32.of_Z 3; F32.of_Z 4]
           (repeat F32.zero 5) (repeat F32.zero 5)).
  - vm_compute. reflexivity.
  - vm_compute. reflexivity.
  - vm_compute. reflexivity.
  - vm_compute. reflexivity.
  - vm_compute. split; [discriminate | reflexivity].
  - reflexivity.
  - vm_compute. discriminate.
Defined.

Lemma run_ring_shape_witness :
  0 <= PluginProcessor.analysisBufferSize tinyProcessor
  /\ Forall (fun c => Z.of_nat (length c)
                      = PluginProcessor.analysisBufferSize tinyProcessor)
            (PluginProcessor.analysisBuffer tinyProcessor)
  /\ 0 <= PluginProcessor.analysisBufferWritePos tinyProcessor
  /\ (PluginProcessor.analysisBufferWritePos tinyProcessor
      < PluginProcessor.analysisBufferSize tinyProcessor
      \/ PluginProcessor.analysisBufferWritePos tinyProcessor = 0).
Proof.
  apply (run_ring_shape
           [PluginProcessor.PrepareToPlay (S754_finite false 1 (-1)) 512;
            PluginProcessor.StartAnalysis]).
  vm_compute. reflexivity.
Defined.


(** ** The results [performAnalysis] publishes *)

Section Published.
Context (P : Platform).

Lemma detectBPM_value d audioData numSamples bpm d' :
  BPMDetector.detectBPM P d audioData numSamples = Some (bpm, d') ->
  bpm = F32.zero \/ bpm = F32.of_Z 120
  \/ (F32.leb (F32.of_Z 40) bpm = true /\ F32.leb bpm (F32.of_Z 240) = true).
Proof.
  unfold BPMDetector.detectBPM. intros H.
  destruct (numSamples <? BPMDetector.fftSize);
    [apply some_eq in H; injection H as <- _; now left|].
  destruct (BPMDetector.calculateOnsetStrength P audioData numSamples)
    as [[|v l]|]; [apply some_eq in H; injection H as <- _; now left| |discriminate H].
  destruct (BPMDetector.estimateTempoFromOnsets d (v :: l)) as [b|] eqn:He;
    [|discriminate H].
  destruct ((b <? F32.of_Z 40)%f32 || (F32.of_Z 240 <? b)%f32) eqn:Hg;
    apply some_eq in H; injection H as <- _; right; [now left|right].
  apply orb_false_iff in Hg. destruct Hg as [Hlo Hhi].
  exact (estimate_in_range d (v :: l) b He Hlo Hhi).
Qed.

(** X14.  What [performAnalysis] publishes from a buffer that is not empty:
    the tempo is 0, 120 or between 40 and 240; the BPM confidence is the one
    the detector holds after the call; the key is one of the twelve names
    with "major" or "minor"; the key confidence is between 0 and 1. *)
Theorem performAnalysis_results p p' :
  PluginProcessor.getNumSamples (PluginProcessor.analysisBuffer p) <> 0 ->
  PluginProcessor.performAnalysis P p = Some p' ->
  (PluginProcessor.currentBPM p' = F32.zero
   \/ PluginProcessor.currentBPM p' = F32.of_Z 120
   \/ (F32.leb (F32.of_Z 40) (PluginProcessor.currentBPM p') = true
       /\ F32.leb (PluginProcessor.currentBPM p') (F32.of_Z 240) = true))
  /\ PluginProcessor.bpmConfidence p'
     = BPMDetector.getConfidence (PluginProcessor.bpmDetector p')
  /\ In (PluginProcessor.currentKey p') KeyDetector.pitchClasses
  /\ (PluginProcessor.currentMode p' = "major"%string
      \/ PluginProcessor.currentMode p' = "minor"%string)
  /\ F32.leb F32.zero (PluginProcessor.keyConfidence p') = true
  /\ F32.leb (PluginProcessor.keyConfidence p') (F32.of_Z 1) = true.
Proof.
  intros Hn H. unfold PluginProcessor.performAnalysis in H.
  apply Z.eqb_neq in Hn. rewrite Hn in H.
  destruct (_ && _); [|discriminate H]. cbv zeta in H.
  destruct (BPMDetector.detectBPM P _ _ _) as [[bpm d]|] eqn:Eb;
    [|discriminate H].
  destruct (KeyDetector.detectKey P _ _ _) as [[[key mode] keyConf]|] eqn:Ek;
    [|discriminate H].
  apply some_eq in H. subst p'.
  cbn [PluginProcessor.updateAnalysisResults PluginProcessor.setBPMDetector
       PluginProcessor.currentBPM PluginProcessor.bpmConfidence
       PluginProcessor.bpmDetector PluginProcessor.currentKey
       PluginProcessor.currentMode PluginProcessor.keyConfidence].
  split; [exact (detectBPM_value _ _ _ _ _ Eb)|]. split; [reflexivity|].
  unfold KeyDetector.detectKey in Ek.
  destruct (_ <? KeyDetector.fftSize).
  - apply some_eq in Ek. injection Ek as <- <- <-.
    split; [now left|]. split; [now left|]. split; vm_compute; reflexivity.
  - destruct (KeyDetector.calculateChromagram P _ _ _) as [c|];
      [|discriminate Ek].
    apply some_eq in Ek.
    pose proof (findBestKey_shape (KeyDetector.normalize c)) as S.
    rewrite Ek in S. exact S.
Qed.
End Published.

Lemma performAnalysis_results_witness :
  exists p',
    PluginProcessor.performAnalysis RefPlatform.platform tinyProcessor = Some p'
    /\ (PluginProcessor.currentBPM p' = F32.zero
        \/ PluginProcessor.currentBPM p' = F32.of_Z 120
        \/ (F32.leb (F32.of_Z 40) (PluginProcessor.currentBPM p') = true
            /\ F32.leb (PluginProcessor.currentBPM p') (F32.of_Z 240) = true))
    /\ PluginProcessor.bpmConfidence p'
       = BPMDetector.getConfidence (PluginProcessor.bpmDetector p')
    /\ In (PluginProcessor.currentKey p') KeyDetector.pitchClasses
    /\ (PluginProcessor.currentMode p' = "major"%string
        \/ PluginProcessor.currentMode p' = "minor"%string)
    /\ F32.leb F32.zero (PluginProcessor.keyConfidence p') = true
    /\ F32.leb (PluginProcessor.keyConfidence p') (F32.of_Z 1) = true.
Proof.
  eexists. split; [vm_compute; reflexivity|].
  apply (performAnalysis_results RefPlatform.platform tinyProcessor).
  - vm_compute. discriminate.
  - vm_compute. reflexivity.
Defined.

Lemma writeSamples_defined size src : forall dst writePos,
  0 < size -> Z.of_nat (length dst) = size -> 0 <= writePos < size ->
  exists st', foldM (PluginProcessor.writeSample size) src (dst, writePos)
              = Some st'.
Proof.
  induction src as [|v rest IH]; intros dst writePos Hsize Hdst Hpos;
    cbn [foldM]; [now eexists|].
  unfold PluginProcessor.writeSample at 1.
  replace ((0 <=? writePos) && (writePos <? Z.of_nat (length dst))
           && negb (size =? 0)) with true
    by (symmetry; rewrite !andb_true_iff, negb_true_iff;
        repeat split; [apply Z.leb_le | apply Z.ltb_lt | apply Z.eqb_neq]; lia).
  apply IH; [exact Hsize | now rewrite store_length|].
  rewrite Z.rem_mod_nonneg by lia. apply Z.mod_pos_bound. lia.
Qed.

Lemma copyChannels_defined buffer size channels : forall st,
  0 < size -> ringShape size st ->
  (forall ch, In ch channels -> (ch < length (fst st))%nat) ->
  exists st', foldM (PluginProcessor.copyChannel buffer size) channels st
              = Some st'.
Proof.
  induction channels as [|ch channels IH]; intros st Hsize Hs Hch;
    cbn [foldM]; [now eexists|].
  destruct (PluginProcessor.copyChannel buffer size st ch) as [st1|] eqn:E.
  - destruct (copyChannel_shape buffer size st ch st1) as [Hl Hs1];
      try assumption; [lia | now apply Hch; left|].
    apply IH; try assumption.
    intros ch' Hin. rewrite Hl. apply Hch. now right.
  - exfalso. destruct st as [analysis writePos]. destruct Hs as (Hf & H0 & H1).
    cbn [fst snd] in *. unfold PluginProcessor.copyChannel in E.
    destruct (writeSamples_defined size (nth ch buffer [])
                (nth ch analysis []) writePos) as [[dst pos'] E'];
      try assumption; try lia.
    + apply (proj1 (Forall_forall _ _) Hf). apply nth_In. apply Hch. now left.
    + rewrite E' in E. discriminate E.
Qed.

(** X15.  The audio callback never writes outside the ring: on a processor
    reached by any sequence of host calls whose analysis buffer is not
    empty (a sample rate of at least 0.1 Hz), [processBlock] is defined
    for every block, whatever its channel count and length. *)
Theorem processBlock_defined calls p channels buffer :
  PluginProcessor.run calls = Some p ->
  0 < PluginProcessor.analysisBufferSize p ->
  exists buffer' p',
    PluginProcessor.processBlock p channels channels buffer = Some (buffer', p').
Proof.
  intros Hrun Hsize. unfold PluginProcessor.run in Hrun.
  apply (foldM_invariant
           (fun p => 0 <= PluginProcessor.analysisBufferSize p
                     /\ ringShape (PluginProcessor.analysisBufferSize p)
                                  (PluginProcessor.analysisBuffer p,
                                   PluginProcessor.analysisBufferWritePos p))
           PluginProcessor.perform) in Hrun;
    [|intros a b a' [H0 Hs] Hb; exact (perform_shape a b a' H0 Hs Hb)
     |split; [reflexivity | split; [constructor | cbn; lia]]].
  destruct Hrun as [_ Hs].
  unfold PluginProcessor.processBlock.
  rewrite Z.sub_diag. cbn [Z.to_nat seq map foldM].
  destruct (PluginProcessor.analyzing p); [|now eexists _, _].
  cbv zeta.
  destruct (copyChannels_defined buffer (PluginProcessor.analysisBufferSize p)
              (seq 0 (Z.to_nat (Z.min (PluginProcessor.getNumChannels buffer)
                                      (PluginProcessor.getNumChannels
                                         (PluginProcessor.analysisBuffer p)))))
              (PluginProcessor.analysisBuffer p,
               PluginProcessor.analysisBufferWritePos p))
    as [[analysis writePos] ->]; try assumption; [|now eexists _, _].
  intros ch Hch. apply in_seq in Hch. cbn [fst].
  unfold PluginProcessor.getNumChannels in Hch. lia.
Qed.

Lemma processBlock_defined_witness :
  exists buffer' p',
    PluginProcessor.processBlock tinyProcessor 2 2
      [repeat (F32.of_Z 1) 12; repeat S754_nan 12] = Some (buffer', p').
Proof.
  apply (processBlock_defined
           [PluginProcessor.PrepareToPlay (S754_finite false 1 (-1)) 512;
            PluginProcessor.StartAnalysis]).
  - vm_compute. reflexivity.
  - vm_compute. reflexivity.
Defined.

(** ** When the lag search is undefined *)

Lemma binary_round_aux_opp m e l :
  binary_round_aux F32.prec F32.emax true m e l
  = SFopp (binary_round_aux F32.prec F32.emax false m e l).
Proof.
  unfold binary_round_aux.
  destruct (shr_fexp F32.prec F32.emax m e l) as [mrs' e'].
  destruct (shr_fexp F32.prec F32.emax _ e' loc_Exact) as [mrs'' e''].
  destruct (shr_m mrs''); [reflexivity | | reflexivity].
  destruct (_ <=? _); reflexivity.
Qed.

Lemma div_negative m e ms es :
  (S754_finite true m e / S754_finite false ms es)%f32
  = SFopp (S754_finite false m e / S754_finite false ms es)%f32.
Proof.
  unfold F32.div, SFdiv. cbn [xorb].
  destruct (SFdiv_core_binary _ _ _ _ _ _) as [[mz ez] lz].
  apply binary_round_aux_opp.
Qed.

Lemma truncate_opp q :
  F32.truncate (SFopp q) = option_map Z.opp (F32.truncate q).
Proof.
  destruct q as [s|s| |s m e]; try reflexivity.
  cbn [SFopp F32.truncate option_map]. f_equal.
  destruct s; cbn [negb cond_Zopp]; lia.
Qed.

Lemma truncate_units q : good q -> F32.truncate q = Some (units q / 2 ^ 149).
Proof.
  destruct q as [[|]| | |[|] m e]; try contradiction; intros H;
    cbn [F32.truncate units cond_Zopp good] in *; f_equal.
  destruct (0 <=? e) eqn:E.
  - apply Z.leb_le in E. rewrite Z.pow_add_r by lia.
    rewrite Z.mul_assoc, Z.div_mul by lia. reflexivity.
  - apply Z.leb_gt in E.
    replace (2 ^ 149) with (2 ^ (- e) * 2 ^ (e + 149))
      by (rewrite <- Z.pow_add_r by lia; f_equal; lia).
    rewrite Z.div_mul_cancel_r; [reflexivity | |];
      apply Z.pow_nonzero; lia.
Qed.

Lemma to_int_truncate x z : F32.to_int x = Some z -> F32.truncate x = Some z.
Proof.
  unfold F32.to_int. destruct (F32.truncate x) as [t|]; [|discriminate].
  destruct (_ && _); [|discriminate]. intros H. exact H.
Qed.

Lemma mul_60_exponent fps s m e :
  (fps * F32.of_Z 60)%f32 = S754_finite s m e -> -149 <= e.
Proof.
  rewrite of_Z_60. destruct fps as [sf|sf| |sf mf ef]; try discriminate.
  unfold F32.mul, SFmul. intros H.
  pose proof (binary_round_aux_shape (xorb sf false) (Z.pos (mf * 15728640))
                (ef + -18) loc_Exact ltac:(lia)) as S.
  rewrite H in S. exact (proj2 S).
Qed.

Lemma div_positive_truncate m e ms es z :
  -149 <= e -> -149 <= es ->
  F32.to_int (S754_finite false m e / S754_finite false ms es)%f32 = Some z ->
  0 <= z.
Proof.
  intros He Hes H. apply to_int_truncate in H.
  destruct (div_good (S754_finite false m e) ms es He Hes) as [[E _] | [G _]];
    cbv zeta in *.
  - rewrite E in H. discriminate H.
  - rewrite (truncate_units _ G) in H. apply some_eq in H. subst z.
    apply Z.div_pos; [now apply good_units | reflexivity].
Qed.

(** With a negative lower bound the upper bound is not above it: the two
    quotients of the same negative value by 240 and by 40 are ordered. *)
Lemma lag_bounds_order fps minLag maxLagRange :
  F32.to_int (fps * F32.of_Z 60 / F32.of_Z 240)%f32 = Some minLag ->
  F32.to_int (fps * F32.of_Z 60 / F32.of_Z 40)%f32 = Some maxLagRange ->
  minLag < 0 -> maxLagRange <= minLag.
Proof.
  intros H1 H2 Hneg. rewrite of_Z_240 in H1. rewrite of_Z_40 in H2.
  destruct (fps * F32.of_Z 60)%f32 as [s|s| |s m e] eqn:Ex.
  - cbn in H1. injection H1 as <-. lia.
  - discriminate H1.
  - discriminate H1.
  - pose proof (mul_60_exponent fps s m e Ex) as He.
    destruct s.
    + rewrite div_negative in H1, H2.
      apply to_int_truncate in H1, H2. rewrite truncate_opp in H1, H2.
      destruct (div_good (S754_finite false m e) 15728640 (-16) He ltac:(lia))
        as [[E1 _] | [G1 B1]]; cbv zeta in *;
        [rewrite E1 in H1; discriminate H1|].
      destruct (div_good (S754_finite false m e) 10485760 (-18) He ltac:(lia))
        as [[E2 _] | [G2 B2]]; cbv zeta in *;
        [rewrite E2 in H2; discriminate H2|].
      rewrite (truncate_units _ G1) in H1. rewrite (truncate_units _ G2) in H2.
      cbn [option_map] in H1, H2. apply some_eq in H1, H2.
      subst minLag maxLagRange.
      pose proof (good_units _ G1) as P1. pose proof (good_units _ G2) as P2.
      assert (PX : 0 <= units (S754_finite false m e))
        by (apply good_units; exact He).
      set (u1 := units (S754_finite false m e / S754_finite false 15728640 (-16))%f32) in *.
      set (u2 := units (S754_finite false m e / S754_finite false 10485760 (-18))%f32) in *.
      set (X := units (S754_finite false m e)) in *.
      assert (Hu1 : 2 ^ 149 <= u1).
      { destruct (Z_lt_dec u1 (2 ^ 149)) as [Hlt|]; [|lia].
        rewrite Z.div_small in Hneg by lia. lia. }
      assert (Hle : u1 <= u2).
      { let v := eval vm_compute in (units (S754_finite false 15728640 (-16))) in
          change (units (S754_finite false 15728640 (-16))) with v in B1.
        let v := eval vm_compute in (units (S754_finite false 10485760 (-18))) in
          change (units (S754_finite false 10485760 (-18))) with v in B2.
        let v := eval vm_compute in (2 ^ 149) in change (2 ^ 149) with v in *.
        change (2 ^ 25) with 33554432 in *. change (2 ^ 24) with 16777216 in *.
        lia. }
      assert (u1 / 2 ^ 149 <= u2 / 2 ^ 149)
        by (apply Z.div_le_mono; [reflexivity | exact Hle]).
      lia.
    + apply div_positive_truncate in H1; lia.
Qed.

(** X16.  [estimateTempoFromOnsets] is undefined exactly when the envelope
    has at least 10 values and one of the two lag bounds does not convert to
    [int] (a sample rate that is NaN, infinite or too large in magnitude).
    A negative lower bound does no harm: the upper bound is then not above
    it, the search range is empty and [autocorrelate] is not called. *)
Theorem estimateTempoFromOnsets_undefined d onsetStrength :
  BPMDetector.estimateTempoFromOnsets d onsetStrength = None <->
  10 <= Z.of_nat (length onsetStrength)
  /\ (F32.to_int (BPMDetector.framesPerSecond d * F32.of_Z 60
                  / F32.of_Z 240)%f32 = None
      \/ F32.to_int (BPMDetector.framesPerSecond d * F32.of_Z 60
                     / F32.of_Z 40)%f32 = None).
Proof.
  unfold BPMDetector.estimateTempoFromOnsets, BPMDetector.lagSearch. cbv zeta.
  destruct (Z.of_nat (length onsetStrength) <? 10) eqn:E10.
  { apply Z.ltb_lt in E10. split; [discriminate | lia]. }
  apply Z.ltb_ge in E10.
  destruct (F32.to_int _) as [minLag|] eqn:E1; [|split; [now auto | reflexivity]].
  destruct (F32.to_int (_ / F32.of_Z 40)%f32) as [maxLagRange|] eqn:E2;
    [|split; [now auto | reflexivity]].
  set (M := Z.min maxLagRange (Z.of_nat (length onsetStrength) / 2)).
  destruct (lagScan_defined onsetStrength (BPMDetector.lags minLag M)
              (F32.zero, 0)) as [[c bestLag] ->].
  - intros lag Hl. apply lags_range in Hl.
    assert (Z.of_nat (length onsetStrength) / 2
            <= Z.of_nat (length onsetStrength))
      by (apply Z.div_le_upper_bound; lia).
    destruct (Z_lt_dec minLag 0) as [Hneg|]; [|lia].
    pose proof (lag_bounds_order _ _ _ E1 E2 Hneg). lia.
  - split; [destruct (bestLag =? 0); discriminate|].
    intros [_ [H | H]]; discriminate H.
Qed.

(** A negative rate gives an empty search and the answer [0.0f]; a NaN rate
    fails the first conversion. *)
Example estimateTempoFromOnsets_rates :
  BPMDetector.estimateTempoFromOnsets
    (BPMDetector.prepare BPMDetector.init
       (binary_normalize 53 1024 (-44100) 0 false)) clickEnvelope
  = Some F32.zero
  /\ BPMDetector.estimateTempoFromOnsets
       (BPMDetector.prepare BPMDetector.init S754_nan) clickEnvelope
     = None.
Proof. split; vm_compute; reflexivity. Qed.
